(** * Gas-turbine anomaly detection: [src/anomoly_detection.py]

    The script is embedded as a program in a small state-and-exception monad
    over a model of the pandas [DataFrame] it mutates: the cleaning of the
    raw frame (lines 35-45), the three detectors and the report (lines
    50-107), and the two figures (lines 114-138).

    Numbers are IEEE binary64 values (Rocq's primitive floats), as in numpy,
    so that division by zero, NaN and rounding behave as they do in the
    script; sums are taken in numpy's order.  The scaler and the two
    scikit-learn estimators are external capabilities: the pipeline is
    written against an interface ([Sklearn.Api]) whose calls return a
    value or raise, and every general theorem holds for all
    implementations of it.  The same goes for the plotting calls
    ([Plots.Backend]). *)

From Stdlib Require Import ZArith List Bool String Lia.
From Stdlib Require Import Floats.
From Stdlib Require Uint63.
From Stdlib Require Reals Lra.
Import ListNotations.

Local Open Scope string_scope.
Local Open Scope list_scope.

(* ================================================================== *)
(** * Binary64 helpers *)

Module Float64.
Local Open Scope float_scope.

(** The conversion of an integer to [float64] (a C cast of an [int64], or
    of a count): the nearest binary64 value, ties to even. *)
Definition float_of_int (z : Z) : float :=
  SF2Prim (binary_normalize prec emax z 0 false).

Definition float_of_nat (n : nat) : float := float_of_int (Z.of_nat n).

(** [a > b] on floats: false as soon as one side is NaN. *)
Definition gtb (a b : float) : bool := b <? a.

(** A value that is [+0], [-0] or NaN. *)
Definition zero_or_nan (x : float) : bool := is_zero x || is_nan x.

(** The same class on the specification side of the floats. *)
Inductive sf_zero_or_nan : spec_float -> Prop :=
| sf_is_zero s : sf_zero_or_nan (S754_zero s)
| sf_is_nan : sf_zero_or_nan S754_nan.

(** ** numpy's sum of a contiguous [float64] array

    [np.add.reduce] runs numpy's pairwise summation on the whole array:
    fewer than 8 values are added from left to right; up to 128 values are
    added into 8 running lanes, the lanes are combined as a balanced tree
    and the values left over are added one by one; a longer array is cut
    in two near the middle, at a multiple of 8, and the sums of the two
    parts are added. *)

(** [r[j] += a[i + j]] for the 8 lanes. *)
Fixpoint add_lanes (r block : list float) : list float :=
  match r, block with
  | x :: r', y :: b' => (x + y) :: add_lanes r' b'
  | _, _ => []
  end.

(** [k] more blocks of 8 values added into the lanes; what is left. *)
Fixpoint accumulate (k : nat) (r l : list float) : list float * list float :=
  match k with
  | O => (r, l)
  | S k' => accumulate k' (add_lanes r (firstn 8 l)) (skipn 8 l)
  end.

Definition fold_lanes (r : list float) : float :=
  match r with
  | [r0; r1; r2; r3; r4; r5; r6; r7] =>
      ((r0 + r1) + (r2 + r3)) + ((r4 + r5) + (r6 + r7))
  | _ => nan
  end.

(** Between 8 and 128 values. *)
Definition sum_block (l : list float) : float :=
  let '(r, rest) :=
    accumulate (List.length l / 8 - 1) (firstn 8 l) (skipn 8 l) in
  fold_left add rest (fold_lanes r).

(** The recursion halves the array, so a fuel of its length is never
    used up. *)
Fixpoint pairwise_sum (fuel : nat) (l : list float) : float :=
  let n := List.length l in
  if (n <? 8)%nat then fold_left add l (-0)
  else if (n <=? 128)%nat then sum_block l
  else
    match fuel with
    | O => sum_block l
    | S fuel' =>
        let n2 := (n / 2 - (n / 2) mod 8)%nat in
        pairwise_sum fuel' (firstn n2 l) + pairwise_sum fuel' (skipn n2 l)
    end.

(** [a.sum()]; the sum of no value is [0.0]. *)
Definition fsum (l : list float) : float :=
  match l with
  | [] => 0
  | _ => pairwise_sum (List.length l) l
  end.

End Float64.

(* ================================================================== *)
(** * The real value of a float *)

(** The constant-column analysis compares the results of the float
    operations as the real numbers they stand for. *)
Module Dyadic.
Import Reals.
Local Open Scope R_scope.

(** [2^e] *)
Definition bpow (e : Z) : R := powerRZ 2 e.

(** The number [m * 2^e] that a mantissa and an exponent stand for. *)
Definition F2R (m e : Z) : R := IZR m * bpow e.

(** A positive float, or [+inf], that is at least [L]. *)
Definition lower (L : R) (x : spec_float) : Prop :=
  match x with
  | S754_infinity false => True
  | S754_finite false m e => L <= F2R (Z.pos m) e
  | _ => False
  end.

(** [y] is a positive float, or [+inf], worth at least [j * 2^k]. *)
Definition at_least (j k : Z) (y : float) : Prop :=
  lower (F2R j k) (Prim2SF y).

End Dyadic.

(* ================================================================== *)
(** * pandas: series, frames and the reductions the script calls

    A frame holds [float64] and [int64] columns.  Its column labels are
    taken to be distinct, as [read_csv] delivers them: [df[c]] reads the
    column of that name.  ([rename] can give two raw headers the same
    name; statements about the selected columns say where they rely on
    distinct labels.) *)

Module Pandas.
Import Float64.
Local Open Scope float_scope.

(** A column is a [float64] or an [int64] series. *)
Inductive Series :=
| Floats (values : list float)
| Ints (values : list Z).

(** A frame: the length of its index and its columns, in column order. *)
Record DataFrame := mkFrame {
  nrows : nat;
  data : list (string * Series)
}.

Definition series_length (s : Series) : nat :=
  match s with Floats v => List.length v | Ints v => List.length v end.

(** Every column has one value per index entry. *)
Definition well_formed (d : DataFrame) : Prop :=
  Forall (fun c => series_length (snd c) = nrows d) (data d).

(** [df.columns] *)
Definition columns (d : DataFrame) : list string := map fst (data d).

(** [c in df.columns] *)
Definition has_column (d : DataFrame) (c : string) : bool :=
  existsb (String.eqb c) (columns d).

Fixpoint lookup (c : string) (l : list (string * Series)) : option Series :=
  match l with
  | [] => None
  | (k, s) :: rest => if String.eqb c k then Some s else lookup c rest
  end.

(** [df[c]]; [None] stands for pandas' [KeyError]. *)
Definition getitem (d : DataFrame) (c : string) : option Series :=
  lookup c (data d).

Fixpoint assign (c : string) (s : Series) (l : list (string * Series))
  : list (string * Series) :=
  match l with
  | [] => [(c, s)]
  | (k, old) :: rest =>
      if String.eqb c k then (k, s) :: rest else (k, old) :: assign c s rest
  end.

(** [df[c] = s]: replaces the column in place when it exists, appends it
    as the last column otherwise. *)
Definition setitem (d : DataFrame) (c : string) (s : Series) : DataFrame :=
  mkFrame (nrows d) (assign c s (data d)).

(** An [int64] value seen as a [float64]. *)
Definition float_of_Z (z : Z) : float := float_of_int z.

(** The values of a series as [float64] (what arithmetic on it sees). *)
Definition to_floats (s : Series) : list float :=
  match s with
  | Floats v => v
  | Ints v => map float_of_Z v
  end.

(** The values of an integer series; a float series has no bitwise [|]. *)
Definition to_ints (s : Series) : option (list Z) :=
  match s with
  | Ints v => Some v
  | Floats _ => None
  end.

(** [df[cols]]: the listed columns, in the listed order. *)
Fixpoint select (d : DataFrame) (cols : list string)
  : option (list (list float)) :=
  match cols with
  | [] => Some []
  | c :: rest =>
      match getitem d c, select d rest with
      | Some s, Some m => Some (to_floats s :: m)
      | _, _ => None
      end
  end.

(** [df[cols]] as a frame (used for the report). *)
Fixpoint select_frame (d : DataFrame) (cols : list string)
  : option (list (string * Series)) :=
  match cols with
  | [] => Some []
  | c :: rest =>
      match getitem d c, select_frame d rest with
      | Some s, Some m => Some ((c, s) :: m)
      | _, _ => None
      end
  end.

(** Views of a frame that never fail: a missing column reads as empty. *)
Definition series_column (d : DataFrame) (c : string) : Series :=
  match getitem d c with
  | Some s => s
  | None => Floats []
  end.

Definition float_column (d : DataFrame) (c : string) : list float :=
  to_floats (series_column d c).

Definition int_column (d : DataFrame) (c : string) : list Z :=
  match getitem d c with
  | Some (Ints v) => v
  | _ => []
  end.

Definition block (d : DataFrame) (cols : list string) : list (list float) :=
  map (float_column d) cols.

Definition frame_block (d : DataFrame) (cols : list string)
  : list (string * Series) :=
  map (fun c => (c, series_column d c)) cols.

(** Row [i] of a column-major block; the block as a list of [n] rows
    (the [n_samples x n_features] array scikit-learn receives). *)
Definition row (cols : list (list float)) (i : nat) : list float :=
  map (fun c => nth i c nan) cols.

Definition to_rows (n : nat) (cols : list (list float)) : list (list float) :=
  map (row cols) (seq 0 n).

(** ** Reductions ([skipna=True], the default)

    As pandas computes them ([nanmean], [nanvar] and [nanstd] of
    [pandas.core.nanops]): NaN entries are masked and replaced by 0, the
    mean is numpy's sum of the values over the number of valid ones, and
    the variance is two-pass, numpy's sum of the squared differences to
    that mean over [count - ddof]. *)

(** Number of non-NaN entries. *)
Definition count (x : list float) : nat :=
  List.length (filter (fun v => negb (is_nan v)) x).

(** Sum with NaN entries replaced by 0. *)
Definition nansum (x : list float) : float :=
  fsum (map (fun v => if is_nan v then 0 else v) x).

(** [Series.mean()] *)
Definition mean (x : list float) : float :=
  if (count x =? 0)%nat then nan
  else nansum x / float_of_nat (count x).

(** [Series.var(ddof)]: two-pass, normalised by [count - ddof]; NaN when
    [count <= ddof]. *)
Definition var_ddof (ddof : nat) (x : list float) : float :=
  if (count x <=? ddof)%nat then nan
  else
    let avg := nansum x / float_of_nat (count x) in
    fsum (map (fun v => if is_nan v then 0 else (avg - v) * (avg - v)) x)
    / float_of_nat (count x - ddof).

(** [Series.std()]: [ddof=1] by default, the sample standard deviation. *)
Definition std (x : list float) : float := sqrt (var_ddof 1 x).

(** The population standard deviation ([ddof=0]); the script never calls it. *)
Definition std_population (x : list float) : float := sqrt (var_ddof 0 x).

(** Element-wise binary operation on two aligned series. *)
Fixpoint map2 {A B C} (f : A -> B -> C) (a : list A) (b : list B) : list C :=
  match a, b with
  | x :: a', y :: b' => f x y :: map2 f a' b'
  | _, _ => []
  end.

(** [.any(axis=1)] over [n] rows of a boolean block. *)
Definition any_axis1 (n : nat) (cols : list (list bool)) : list bool :=
  map (fun i => existsb (fun c => nth i c false) cols) (seq 0 n).

(** [.astype(int)] on a boolean series. *)
Definition astype_int (b : list bool) : list Z := map Z.b2z b.

End Pandas.

(* ================================================================== *)
(** * scikit-learn: the capabilities the script delegates to *)

Module Sklearn.

(** The [random_state] constructor argument. *)
Inductive random_state :=
| RandomNone
| RandomSeed (seed : Z).

(** [IsolationForest(contamination, random_state, n_estimators)] *)
Record IsolationForest := mkIsolationForest {
  contamination : float;
  forest_random_state : random_state;
  n_estimators : nat
}.

(** The five calls the script makes (lines 71, 72, 85 and 86). *)
Inductive Call :=
| ScalerFitTransform
| ForestFit
| ForestPredict
| RegressionFit
| RegressionPredict.

(** The message of the exception a call raises when it rejects its
    input (no sample, a NaN or an infinity where none is accepted, ...). *)
Definition Error : Type := string.

(** The library, as far as the script uses it.  Matrices are lists of
    rows.  A [fit] returns a model or raises.  A [predict] checks the
    whole matrix, raising if it rejects it, and then scores each sample
    on its own. *)
Record Api := mkApi {
  Rng : Type;
  IsoModel : Type;
  RegModel : Type;
  (** [np.random.RandomState(seed)] *)
  rng_of_seed : Z -> Rng;
  (** [StandardScaler().fit_transform(X)] *)
  scaler_fit_transform : list (list float) -> Error + list (list float);
  (** [IsolationForest.fit], drawing from the given generator *)
  iso_fit : float -> nat -> Rng -> list (list float) -> Error + IsoModel;
  (** the input validation of [IsolationForest.predict]: what it raises *)
  iso_check : IsoModel -> list (list float) -> option Error;
  (** [IsolationForest.predict] on one sample: [-1] outlier, [1] inlier *)
  iso_predict : IsoModel -> list float -> Z;
  (** [LinearRegression().fit(X, y)] *)
  reg_fit : list (list float) -> list float -> Error + RegModel;
  (** the input validation of [LinearRegression.predict] *)
  reg_check : RegModel -> list (list float) -> option Error;
  (** [LinearRegression.predict] on one sample *)
  reg_predict : RegModel -> list float -> float
}.

(** [check_random_state]: an integer seeds a fresh generator, [None]
    takes the process-wide numpy generator. *)
Definition check_random_state (sk : Api) (rs : random_state) (global : Rng sk)
  : Rng sk :=
  match rs with
  | RandomNone => global
  | RandomSeed s => rng_of_seed sk s
  end.

(** [est.fit(X)] *)
Definition fit_forest (sk : Api) (est : IsolationForest) (global : Rng sk)
    (X : list (list float)) : Error + IsoModel sk :=
  iso_fit sk (contamination est) (n_estimators est)
    (check_random_state sk (forest_random_state est) global) X.

(** [model.predict(X)] *)
Definition predict_forest (sk : Api) (model : IsoModel sk)
    (X : list (list float)) : Error + list Z :=
  match iso_check sk model X with
  | Some e => inl e
  | None => inr (map (iso_predict sk model) X)
  end.

(** [reg.predict(X)] *)
Definition predict_regression (sk : Api) (model : RegModel sk)
    (X : list (list float)) : Error + list float :=
  match reg_check sk model X with
  | Some e => inl e
  | None => inr (map (reg_predict sk model) X)
  end.

End Sklearn.

(* ================================================================== *)
(** * The script *)

Module Script.
Import Float64 Pandas Sklearn.
Local Open Scope float_scope.

(** The two messages the script raises a [ValueError] with. *)
Inductive Message :=
  (** "None of the expected sensor columns found. Available columns
      are: <list(df.columns)>" *)
| NoSensorColumns (available : list string)
  (** "Need TEY plus at least two of AT, AP, RH, CDP for the residual
      model. Check your CSV columns." *)
| ResidualInputs.

(** What ends a run early: an exception of the script itself, or the one
    a scikit-learn call raised, with the call it came out of. *)
Inductive Exception :=
| ValueError (msg : Message)
| KeyError (missing : list string)
| TypeError
| SklearnError (call : Call) (message : Error).

(** What a run does to the outside of an expression: column assignments,
    calls into scikit-learn, and the report written to disk. *)
Inductive Event :=
| SetColumn (name : string) (value : Series)
| Called (call : Call)
| ToCsv (path : string) (report : list (string * Series)).

(** The module-level variable [df] and the effects so far, oldest first. *)
Record State := mkState {
  df : DataFrame;
  trace : list Event
}.

(** A statement: runs from a state, ends in a value or in a raised
    exception, and leaves the state it reached. *)
Definition Script (A : Type) : Type := State -> (Exception + A) * State.

Definition ret {A} (a : A) : Script A := fun s => (inr a, s).

Definition bind {A B} (m : Script A) (k : A -> Script B) : Script B :=
  fun s =>
    match m s with
    | (inr a, s') => k a s'
    | (inl e, s') => (inl e, s')
    end.

Definition raise {A} (e : Exception) : Script A := fun s => (inl e, s).

Declare Scope script_scope.
Delimit Scope script_scope with script.
Notation "x <- m ;; k" := (bind m (fun x => k))
  (at level 61, m at next level, right associativity) : script_scope.
Notation "m ;; k" := (bind m (fun _ => k))
  (at level 61, right associativity) : script_scope.
Local Open Scope script_scope.

Definition when (b : bool) (m : Script unit) : Script unit :=
  if b then m else ret tt.

(** A call into scikit-learn: it is recorded, and it returns its value or
    ends the run with the exception it raised. *)
Definition call {A} (c : Call) (result : Error + A) : Script A :=
  fun s =>
    let s' := mkState (df s) (trace s ++ [Called c]) in
    match result with
    | inr a => (inr a, s')
    | inl message => (inl (SklearnError c message), s')
    end.

Definition emit (e : Event) : Script unit :=
  fun s => (inr tt, mkState (df s) (trace s ++ [e])).

(** [df.columns] *)
Definition get_columns : Script (list string) :=
  fun s => (inr (columns (df s)), s).

(** [len(df.index)] *)
Definition get_nrows : Script nat := fun s => (inr (nrows (df s)), s).

(** [df[c]] *)
Definition getcol (c : string) : Script Series :=
  fun s =>
    match getitem (df s) c with
    | Some v => (inr v, s)
    | None => (inl (KeyError [c]), s)
    end.

(** [df[cols]] as a block of float columns *)
Definition get_block (cols : list string) : Script (list (list float)) :=
  fun s =>
    match select (df s) cols with
    | Some m => (inr m, s)
    | None =>
        (inl (KeyError (filter (fun c => negb (has_column (df s) c)) cols)), s)
    end.

(** [df[cols]] as a frame *)
Definition get_frame (cols : list string) : Script (list (string * Series)) :=
  fun s =>
    match select_frame (df s) cols with
    | Some m => (inr m, s)
    | None =>
        (inl (KeyError (filter (fun c => negb (has_column (df s) c)) cols)), s)
    end.

(** [df[c] = v] *)
Definition setcol (c : string) (v : Series) : Script unit :=
  fun s => (inr tt, mkState (setitem (df s) c v) (trace s ++ [SetColumn c v])).

(** The operands of [|] must be integer series. *)
Definition ints_of (v : Series) : Script (list Z) :=
  match to_ints v with
  | Some l => ret l
  | None => raise TypeError
  end.

(** ** Constants of the script *)

Definition candidate_cols : list string :=
  ["TIT"; "TAT"; "TEY"; "CDP"; "CO"; "NOx"].

Definition z_thresh : float := 3.

(** [IsolationForest(contamination=0.02, random_state=42, n_estimators=200)];
    the literal is the binary64 value of 0.02. *)
Definition iso : IsolationForest :=
  mkIsolationForest 0x1.47ae147ae147bp-6 (RandomSeed 42) 200.

Definition reg_candidates : list string := ["AT"; "AP"; "RH"; "CDP"].

Definition report_path : string := "output/anomaly_report.csv".

(** The columns the script assigns. *)
Definition derived_cols : list string :=
  ["z_flag"; "iso_flag"; "TEY_pred"; "residual"; "res_flag"; "anomaly"].

(** ** The expressions of the script *)

(** [[c for c in cands if c in df.columns]] *)
Definition present (cols cands : list string) : list string :=
  filter (fun c => existsb (String.eqb c) cols) cands.

(** [lambda x: (x - x.mean()) / x.std()] *)
Definition zscore (x : list float) : list float :=
  let m := mean x in
  let s := std x in
  map (fun v => (v - m) / s) x.

(** [(np.abs(z_scores) > z_thresh).any(axis=1).astype(int)] *)
Definition z_flag_of (n : nat) (z_scores : list (list float)) : list Z :=
  astype_int
    (any_axis1 n (map (map (fun v => gtb (abs v) z_thresh)) z_scores)).

(** Row [i] of [(np.abs(z_scores) > z_thresh).any(axis=1)] over the
    columns [cols] of [d]. *)
Definition z_bit (d : DataFrame) (cols : list string) (i : nat) : bool :=
  existsb (fun c => nth i c false)
    (map (map (fun v => gtb (abs v) z_thresh)) (map zscore (block d cols))).

(** [(labels == -1).astype(int)] *)
Definition outliers (labels : list Z) : list Z :=
  astype_int (map (fun l => Z.eqb l (-1)) labels).

(** [(iso.predict(X) == -1).astype(int)], once [predict] has accepted
    [X]. *)
Definition iso_flag_of (sk : Api) (model : IsoModel sk)
    (X : list (list float)) : list Z :=
  astype_int (map (fun r => Z.eqb (iso_predict sk model r) (-1)) X).

(** [3 * residual_std.std()] *)
Definition three_sigma_of (residual : list float) : float :=
  3 * std residual.

(** [(np.abs(df["residual"]) > three_sigma).astype(int)] *)
Definition res_flag_of (three_sigma : float) (residual : list float)
  : list Z :=
  astype_int (map (fun r => gtb (abs r) three_sigma) residual).

(** [df["z_flag"] | df["iso_flag"] | df["res_flag"]] *)
Definition anomaly_of (z i r : list Z) : list Z :=
  map2 Z.lor (map2 Z.lor z i) r.

(** The score as the specification words it, with the population standard
    deviation; kept apart from [zscore] for comparison, the script never
    computes it. *)
Definition zscore_population (x : list float) : list float :=
  let m := mean x in
  let s := std_population x in
  map (fun v => (v - m) / s) x.

(** [l1] keeps some elements of [l2], in the order of [l2]. *)
Inductive Subsequence {A : Type} : list A -> list A -> Prop :=
| sub_nil : Subsequence [] []
| sub_skip (x : A) (l1 l2 : list A) :
    Subsequence l1 l2 -> Subsequence l1 (x :: l2)
| sub_keep (x : A) (l1 l2 : list A) :
    Subsequence l1 l2 -> Subsequence (x :: l1) (x :: l2).

(** ** The pipeline, statement by statement (lines 50-107) *)

Definition main (sk : Api) (global : Rng sk) : Script unit :=
  (* choose sensor columns that actually exist *)
  cols <- get_columns ;;
  let key_cols := present cols candidate_cols in
  when (match key_cols with [] => true | _ => false end)
       (raise (ValueError (NoSensorColumns cols))) ;;
  n <- get_nrows ;;
  (* z-score flag *)
  block <- get_block key_cols ;;
  let z_scores := map zscore block in
  setcol "z_flag" (Ints (z_flag_of n z_scores)) ;;
  (* isolation-forest flag *)
  block <- get_block key_cols ;;
  scaled <- call ScalerFitTransform
              (scaler_fit_transform sk (to_rows n block)) ;;
  model <- call ForestFit (fit_forest sk iso global scaled) ;;
  block <- get_block key_cols ;;
  labels <- call ForestPredict (predict_forest sk model (to_rows n block)) ;;
  setcol "iso_flag" (Ints (outliers labels)) ;;
  (* regression residual flag *)
  cols <- get_columns ;;
  let reg_inputs := present cols reg_candidates in
  when ((List.length reg_inputs <? 2)%nat
        || negb (existsb (String.eqb "TEY") cols))
       (raise (ValueError ResidualInputs)) ;;
  block <- get_block reg_inputs ;;
  let X := to_rows n block in
  y <- getcol "TEY" ;;
  reg <- call RegressionFit (reg_fit sk X (to_floats y)) ;;
  pred <- call RegressionPredict (predict_regression sk reg X) ;;
  setcol "TEY_pred" (Floats pred) ;;
  tey <- getcol "TEY" ;;
  pred <- getcol "TEY_pred" ;;
  let residual_std := map2 sub (to_floats tey) (to_floats pred) in
  let three_sigma := three_sigma_of residual_std in
  setcol "residual" (Floats residual_std) ;;
  residual <- getcol "residual" ;;
  setcol "res_flag" (Ints (res_flag_of three_sigma (to_floats residual))) ;;
  (* combined flag *)
  zf <- getcol "z_flag" ;;
  zf <- ints_of zf ;;
  isf <- getcol "iso_flag" ;;
  isf <- ints_of isf ;;
  rf <- getcol "res_flag" ;;
  rf <- ints_of rf ;;
  setcol "anomaly" (Ints (anomaly_of zf isf rf)) ;;
  (* report *)
  let report_cols :=
    ["anomaly"; "z_flag"; "iso_flag"; "res_flag"] ++ key_cols
    ++ ["TEY_pred"; "residual"] in
  report <- get_frame report_cols ;;
  emit (ToCsv report_path report).

(** A run on a cleaned dataset: the outcome and the state it stopped in. *)
Definition run (sk : Api) (global : Rng sk) (d : DataFrame)
  : (Exception + unit) * State :=
  main sk global (mkState d []).

(** ** The values a run computes, as functions of the input frame *)

Section Values.
Context (sk : Api) (global : Rng sk) (d : DataFrame).

Definition key_cols : list string := present (columns d) candidate_cols.

Definition reg_inputs : list string := present (columns d) reg_candidates.

(** [df[key_cols]], as rows. *)
Definition key_rows : list (list float) :=
  to_rows (nrows d) (block d key_cols).

Definition z_scores : list (list float) := map zscore (block d key_cols).

Definition z_flag : list Z := z_flag_of (nrows d) z_scores.

(** The density detector (lines 71-72): the call that raised and its
    message, or the flags. *)
Definition density : (Call * Error) + list Z :=
  match scaler_fit_transform sk key_rows with
  | inl e => inl (ScalerFitTransform, e)
  | inr scaled =>
      match fit_forest sk iso global scaled with
      | inl e => inl (ForestFit, e)
      | inr model =>
          match iso_check sk model key_rows with
          | Some e => inl (ForestPredict, e)
          | None => inr (iso_flag_of sk model key_rows)
          end
      end
  end.

Definition iso_flag : list Z :=
  match density with inr flags => flags | inl _ => [] end.

Definition X : list (list float) := to_rows (nrows d) (block d reg_inputs).

Definition y : list float := float_column d "TEY".

(** The regression (lines 85-86): the call that raised and its message,
    or the predictions. *)
Definition regression : (Call * Error) + list float :=
  match reg_fit sk X y with
  | inl e => inl (RegressionFit, e)
  | inr model =>
      match reg_check sk model X with
      | Some e => inl (RegressionPredict, e)
      | None => inr (map (reg_predict sk model) X)
      end
  end.

Definition TEY_pred : list float :=
  match regression with inr pred => pred | inl _ => [] end.

Definition residual : list float := map2 sub y TEY_pred.

Definition three_sigma : float := three_sigma_of residual.

Definition res_flag : list Z := res_flag_of three_sigma residual.

Definition anomaly : list Z := anomaly_of z_flag iso_flag res_flag.

(** The calls made when the run stops in call [c], [c] included. *)
Definition attempted (c : Call) : list Event :=
  map Called
    match c with
    | ScalerFitTransform => [ScalerFitTransform]
    | ForestFit => [ScalerFitTransform; ForestFit]
    | ForestPredict => [ScalerFitTransform; ForestFit; ForestPredict]
    | RegressionFit => [RegressionFit]
    | RegressionPredict => [RegressionFit; RegressionPredict]
    end.

(** The frame once the Z-score detector has run. *)
Definition frame_after_zscore : DataFrame :=
  setitem d "z_flag" (Ints z_flag).

(** The frame and the effects once the density detector has run. *)
Definition frame_after_density : DataFrame :=
  setitem (setitem d "z_flag" (Ints z_flag)) "iso_flag" (Ints iso_flag).

Definition effects_after_density : list Event :=
  [SetColumn "z_flag" (Ints z_flag); Called ScalerFitTransform;
   Called ForestFit; Called ForestPredict;
   SetColumn "iso_flag" (Ints iso_flag)].

(** The frame at the end of a complete run. *)
Definition frame_at_end : DataFrame :=
  setitem
    (setitem
       (setitem
          (setitem frame_after_density "TEY_pred" (Floats TEY_pred))
          "residual" (Floats residual))
       "res_flag" (Ints res_flag))
    "anomaly" (Ints anomaly).

Definition report : list (string * Series) :=
  [("anomaly", Ints anomaly); ("z_flag", Ints z_flag);
   ("iso_flag", Ints iso_flag); ("res_flag", Ints res_flag)]
  ++ frame_block d key_cols
  ++ [("TEY_pred", Floats TEY_pred); ("residual", Floats residual)].

Definition effects_at_end : list Event :=
  effects_after_density
  ++ [Called RegressionFit; Called RegressionPredict;
      SetColumn "TEY_pred" (Floats TEY_pred);
      SetColumn "residual" (Floats residual);
      SetColumn "res_flag" (Ints res_flag);
      SetColumn "anomaly" (Ints anomaly);
      ToCsv report_path report].

(** The residual detector's precondition (line 78, negated). *)
Definition residual_inputs_ok : bool :=
  negb ((List.length reg_inputs <? 2)%nat || negb (has_column d "TEY")).

End Values.

(** ** Observations on a finished or aborted run *)

Definition final_frame (r : (Exception + unit) * State) : DataFrame :=
  df (snd r).

Definition effects (r : (Exception + unit) * State) : list Event :=
  trace (snd r).

Definition is_report (e : Event) : bool :=
  match e with ToCsv _ _ => true | _ => false end.

Definition is_regression (e : Event) : bool :=
  match e with
  | Called RegressionFit | Called RegressionPredict => true
  | _ => false
  end.

Definition is_detector_effect (e : Event) : bool :=
  match e with ToCsv _ _ => false | _ => true end.

(** The columns assigned during a run, in order. *)
Fixpoint assignments (t : list Event) : list (string * Series) :=
  match t with
  | [] => []
  | SetColumn c v :: rest => (c, v) :: assignments rest
  | _ :: rest => assignments rest
  end.

(** The scikit-learn calls made during a run, in order. *)
Fixpoint calls (t : list Event) : list Call :=
  match t with
  | [] => []
  | Called c :: rest => c :: calls rest
  | _ :: rest => calls rest
  end.

End Script.

(* ================================================================== *)
(** * Reference implementations of the scikit-learn interface

    Small deterministic stand-ins used to run the pipeline on concrete
    data: a population standardiser, an outlier detector that rejects
    samples outside the box spanned by its training data, and the
    least-squares fit of a constant (the mean of the target).  Like the
    library, they raise on an array without samples and on infinities,
    and the regression raises on NaN as well. *)

Module Reference.
Import Float64 Pandas Sklearn.
Local Open Scope float_scope.

Definition column_of (rows : list (list float)) (j : nat) : list float :=
  map (fun r => nth j r nan) rows.

Definition width (rows : list (list float)) : nat :=
  match rows with [] => 0 | r :: _ => List.length r end.

(** [check_array]: what the validation of an input matrix raises. *)
Definition check_array (allow_nan : bool) (rows : list (list float))
  : option Error :=
  match rows with
  | [] => Some "Found array with 0 sample(s)"
  | _ =>
      if existsb (existsb is_infinity) rows
      then Some "Input contains infinity"
      else if negb allow_nan && existsb (existsb is_nan) rows
      then Some "Input contains NaN"
      else None
  end.

Definition checked {A : Type} (check : option Error) (a : A) : Error + A :=
  match check with
  | Some e => inl e
  | None => inr a
  end.

Definition standardize_column (x : list float) : list float :=
  let m := mean x in
  let s := std_population x in
  let s := if is_zero s then 1 else s in
  map (fun v => (v - m) / s) x.

Definition standardize (rows : list (list float)) : list (list float) :=
  to_rows (List.length rows)
    (map (fun j => standardize_column (column_of rows j))
         (seq 0 (width rows))).

Definition fmin (l : list float) : float :=
  fold_left (fun a v => if v <? a then v else a) l infinity.

Definition fmax (l : list float) : float :=
  fold_left (fun a v => if a <? v then v else a) l neg_infinity.

(** Per feature, the interval covered by the training data. *)
Definition box_fit (rows : list (list float)) : list (float * float) :=
  map (fun j => (fmin (column_of rows j), fmax (column_of rows j)))
      (seq 0 (width rows)).

Definition box_predict (box : list (float * float)) (r : list float) : Z :=
  if existsb (fun p => let '(v, (lo, hi)) := p in (v <? lo) || (hi <? v))
             (combine r box)
  then (-1)%Z else 1%Z.

Definition api : Api :=
  mkApi Z (list (float * float)) float
        (fun seed => seed)
        (fun X => checked (check_array true X) (standardize X))
        (fun _ _ _ X => checked (check_array true X) (box_fit X))
        (fun _ X => check_array true X)
        box_predict
        (fun X y =>
           checked (match check_array false X with
                    | Some e => Some e
                    | None => check_array false [y]
                    end)
                   (mean y))
        (fun _ X => check_array false X)
        (fun m _ => m).

End Reference.

(* ================================================================== *)
(** * Sample datasets *)

Module Samples.
Import Pandas.
Local Open Scope float_scope.

(** Eleven records; [TIT] has sample standard deviation exactly 3 and the
    last record lies exactly 3 sample deviations above the mean. *)
Definition eleven : DataFrame :=
  mkFrame 11
    [("TIT", Floats [0; 0; 0; 0; 0; 0; 0; 0; 0; 1; 10]);
     ("TEY", Floats [5; 5; 5; 5; 5; 5; 5; 5; 5; 5; 5]);
     ("AT", Floats [1; 2; 3; 4; 5; 6; 7; 8; 9; 10; 11]);
     ("AP", Floats [2; 2; 3; 3; 4; 4; 5; 5; 6; 6; 7])].

(** Raw sensor magnitudes far from the standardised range. *)
Definition raw_scale : DataFrame :=
  mkFrame 4
    [("TIT", Floats [1000; 1010; 1020; 1030]);
     ("TEY", Floats [130; 130; 130; 130]);
     ("AT", Floats [10; 11; 12; 13]);
     ("AP", Floats [1000; 1001; 1002; 1003])].

(** [TEY] present but a single predictor. *)
Definition one_predictor : DataFrame :=
  mkFrame 3
    [("TIT", Floats [1000; 1010; 1020]);
     ("TEY", Floats [130; 131; 132]);
     ("AT", Floats [10; 11; 12])].

(** None of the candidate sensor columns. *)
Definition no_sensor : DataFrame :=
  mkFrame 2
    [("AT", Floats [10; 11]);
     ("AP", Floats [1000; 1001]);
     ("RH", Floats [80; 81])].

(** A single record. *)
Definition single : DataFrame :=
  mkFrame 1
    [("TEY", Floats [130]);
     ("AT", Floats [10]);
     ("AP", Floats [1000])].

(** A constant column of a tiny magnitude: 0.1 * 2^-500. *)
Definition tiny : float := 0x1.999999999999ap-504.

Definition tiny_constant : DataFrame :=
  mkFrame 3
    [("TIT", Floats [tiny; tiny; tiny]);
     ("TEY", Floats [130; 130; 130]);
     ("AT", Floats [10; 11; 12]);
     ("AP", Floats [1000; 1001; 1002])].

(** A constant column whose mean is computed exactly. *)
Definition constant : DataFrame :=
  mkFrame 3
    [("TIT", Floats [1000; 1010; 1020]);
     ("CDP", Floats [12; 12; 12]);
     ("TEY", Floats [130; 130; 130]);
     ("AT", Floats [10; 11; 12]);
     ("AP", Floats [1000; 1001; 1002])].

(** A raw file: the NOx and TIT columns under their raw headers, a
    repeated record (rows 1 and 2) and gaps. *)
Definition raw_file : DataFrame :=
  mkFrame 5
    [("TIT (°C)", Floats [nan; 1000; 1000; nan; 1020]);
     ("NOX", Floats [60; 61; 61; nan; 63]);
     ("TEY", Floats [130; 131; 131; 132; nan]);
     ("AT", Floats [10; 11; 11; 12; 13]);
     ("AP", Floats [1000; 1001; 1001; 1002; 1003])].

(** The records of [raw_scale] with the columns in another order and
    two columns the script does not look at. *)
Definition raw_scale_annotated : DataFrame :=
  mkFrame 4
    [("shift", Ints [1; 1; 2; 2]%Z);
     ("AP", Floats [1000; 1001; 1002; 1003]);
     ("TEY", Floats [130; 130; 130; 130]);
     ("AFDP", Floats [3; 4; 5; 6]);
     ("AT", Floats [10; 11; 12; 13]);
     ("TIT", Floats [1000; 1010; 1020; 1030])].

(** Twelve records whose last one is an outlier in [TIT] (mean 1020,
    sample deviation about 69.3, score about 3.18) and in [TEY] (mean
    135, the reference regressor's prediction; residual 55 against a
    threshold of about 51.96). *)
Definition outlier : DataFrame :=
  mkFrame 12
    [("TIT", Floats [1000; 1000; 1000; 1000; 1000; 1000; 1000; 1000; 1000;
                     1000; 1000; 1240]);
     ("TEY", Floats [130; 130; 130; 130; 130; 130; 130; 130; 130; 130; 130;
                     190]);
     ("AT", Floats [1; 2; 3; 4; 5; 6; 7; 8; 9; 10; 11; 12]);
     ("AP", Floats [2; 2; 3; 3; 4; 4; 5; 5; 6; 6; 7; 7])].

(** A file with a header and no record; a single predictor. *)
Definition header_only : DataFrame :=
  mkFrame 0
    [("TIT", Floats []);
     ("TEY", Floats []);
     ("AT", Floats [])].

(** A gap at the top of [TEY], which forward filling cannot close. *)
Definition gap_in_target : DataFrame :=
  mkFrame 3
    [("TIT", Floats [1000; 1010; 1020]);
     ("TEY", Floats [nan; 131; 132]);
     ("AT", Floats [10; 11; 12]);
     ("AP", Floats [1000; 1001; 1002])].

(** A constant column whose computed mean is one unit in the last place
    above its value: 0.1 three times. *)
Definition tenth : float := 0x1.999999999999ap-4.

Definition steady : DataFrame :=
  mkFrame 3
    [("TIT", Floats [1000; 1010; 1020]);
     ("CDP", Floats [tenth; tenth; tenth]);
     ("TEY", Floats [130; 130; 130]);
     ("AT", Floats [10; 11; 12]);
     ("AP", Floats [1000; 1001; 1002])].

(** Finite [TIT] values whose range overflows: 1e308, 1e308, -1e308. *)
Definition huge : float := 0x1.1ccf385ebc8ap+1023.

Definition extreme : DataFrame :=
  mkFrame 3
    [("TIT", Floats [huge; huge; (- huge)%float]);
     ("TEY", Floats [130; 131; 132]);
     ("AT", Floats [10; 11; 12]);
     ("AP", Floats [1000; 1001; 1003])].

End Samples.


(* ================================================================== *)
(** * Loading and cleaning (lines 34-45)

    [pd.read_csv] is outside the model: the raw frame it returns is the
    input, one float or integer column per header, at least one column.
    The three cleaning statements are modelled on it. *)

Module Cleaning.
Import Float64 Pandas.
Local Open Scope float_scope.

(** One cell of a record. *)
Inductive Cell :=
| FloatCell (v : float)
| IntCell (z : Z).

Definition cell (s : Series) (i : nat) : Cell :=
  match s with
  | Floats v => FloatCell (nth i v nan)
  | Ints v => IntCell (nth i v 0%Z)
  end.

(** Record [i] of a frame, and all its records in index order. *)
Definition record (d : DataFrame) (i : nat) : list Cell :=
  map (fun c => cell (snd c) i) (data d).

Definition records (d : DataFrame) : list (list Cell) :=
  map (record d) (seq 0 (nrows d)).

(** Equality of values as pandas' hash tables see it: numeric equality
    (so [0.0] and [-0.0] agree), and NaN equal to NaN. *)
Definition cell_eqb (a b : Cell) : bool :=
  match a, b with
  | FloatCell x, FloatCell y => (x =? y) || (is_nan x && is_nan y)
  | IntCell x, IntCell y => Z.eqb x y
  | _, _ => false
  end.

Fixpoint record_eqb (a b : list Cell) : bool :=
  match a, b with
  | [], [] => true
  | x :: a', y :: b' => cell_eqb x y && record_eqb a' b'
  | _, _ => false
  end.

(** [duplicated(keep="first")]: a record is a duplicate when an equal one
    is already among the records kept so far. *)
Fixpoint duplicated_from (kept rows : list (list Cell)) : list bool :=
  match rows with
  | [] => []
  | r :: rest =>
      if existsb (record_eqb r) kept
      then true :: duplicated_from kept rest
      else false :: duplicated_from (kept ++ [r]) rest
  end.

Definition duplicated (d : DataFrame) : list bool :=
  duplicated_from [] (records d).

(** Boolean-mask selection of the entries of a list. *)
Fixpoint compress {A : Type} (mask : list bool) (l : list A) : list A :=
  match mask, l with
  | b :: m, x :: l' => if b then x :: compress m l' else compress m l'
  | _, _ => []
  end.

Definition compress_series (mask : list bool) (s : Series) : Series :=
  match s with
  | Floats v => Floats (compress mask v)
  | Ints v => Ints (compress mask v)
  end.

Definition count_true (mask : list bool) : nat :=
  List.length (filter (fun b => b) mask).

(** [df[mask].reset_index(drop=True)]: the selected rows, renumbered. *)
Definition take_rows (mask : list bool) (d : DataFrame) : DataFrame :=
  mkFrame (count_true mask)
          (map (fun c => (fst c, compress_series mask (snd c))) (data d)).

(** [df.drop_duplicates().reset_index(drop=True)] (line 35) *)
Definition drop_duplicates (d : DataFrame) : DataFrame :=
  take_rows (map negb (duplicated d)) d.

(** Forward fill of one float column: a NaN takes the last valid value
    above it, when there is one. *)
Fixpoint ffill_from (last : option float) (x : list float) : list float :=
  match x with
  | [] => []
  | v :: rest =>
      if is_nan v
      then match last with
           | Some l => l :: ffill_from last rest
           | None => v :: ffill_from None rest
           end
      else v :: ffill_from (Some v) rest
  end.

Definition ffill_values (x : list float) : list float := ffill_from None x.

Definition ffill_series (s : Series) : Series :=
  match s with
  | Floats v => Floats (ffill_values v)
  | Ints v => Ints v
  end.

(** [df.ffill()] (line 36) *)
Definition ffill (d : DataFrame) : DataFrame :=
  mkFrame (nrows d) (map (fun c => (fst c, ffill_series (snd c))) (data d)).

Definition rename_map : list (string * string) :=
  [("NOx (mg/m3)", "NOx");
   ("NOX", "NOx");
   ("TIT (°C)", "TIT");
   ("TAT (°C)", "TAT")].

Fixpoint new_name (m : list (string * string)) (c : string) : string :=
  match m with
  | [] => c
  | (old, new) :: rest => if String.eqb c old then new else new_name rest c
  end.

(** [df.rename(columns=m)]: a column named by a key of [m] takes the
    mapped name, the others keep theirs. *)
Definition rename (m : list (string * string)) (d : DataFrame) : DataFrame :=
  mkFrame (nrows d) (map (fun c => (new_name m (fst c), snd c)) (data d)).

(** Lines 35-45. *)
Definition clean (raw : DataFrame) : DataFrame :=
  rename rename_map (ffill (drop_duplicates raw)).

(** The records a pass over [rows] keeps, starting from the table [kept]. *)
Definition first_occurrences (kept rows : list (list Cell))
  : list (list Cell) :=
  compress (map negb (duplicated_from kept rows)) rows.

(** No record of [rows] equals a record of [kept] or a record before it
    in [rows]. *)
Fixpoint distinct_from (kept rows : list (list Cell)) : Prop :=
  match rows with
  | [] => True
  | r :: rest =>
      existsb (record_eqb r) kept = false /\ distinct_from (kept ++ [r]) rest
  end.

(** What [read_csv] hands over: one value per row in every column, and at
    least one column. *)
Definition tabular (d : DataFrame) : Prop :=
  well_formed d /\ data d <> [].

End Cleaning.

(* ================================================================== *)
(** * The two diagnostic figures (lines 114-138) and the whole script

    A figure is recorded by the file it is saved to and the data handed to
    the plotting calls; how seaborn draws it is outside the model, and so
    is whether it accepts the data: drawing and saving a figure is a call
    into a backend that returns or raises. *)

Module Plots.
Import Float64 Pandas Sklearn Script Cleaning.
Local Open Scope float_scope.

Inductive Artist :=
  (** [sns.lineplot(x=df.index, y=col, data=df)] *)
| LinePlot (x : list nat) (y : list float)
  (** [sns.scatterplot(x=sel.index, y=col, data=sel)] *)
| ScatterPlot (x : list nat) (y : list float)
  (** [sns.histplot(values, bins=n, kde=True)] *)
| HistPlot (values : list float) (bins : nat)
  (** [plt.axvline(x, linestyle="--")] *)
| VLine (x : float).

Record Figure := mkFigure {
  path : string;
  artists : list Artist
}.

(** seaborn and matplotlib: the plotting calls of one figure, up to and
    including [plt.savefig], return ([None]) or one of them raises. *)
Record Backend := mkBackend {
  render : Figure -> option Error
}.

(** The index labels a boolean mask selects, counted from [k]. *)
Fixpoint positions_from (k : nat) (mask : list bool) : list nat :=
  match mask with
  | [] => []
  | b :: m =>
      if b then k :: positions_from (S k) m else positions_from (S k) m
  end.

Definition positions (mask : list bool) : list nat := positions_from 0 mask.

(** [df.anomaly == 1] *)
Definition anomaly_mask (d : DataFrame) : list bool :=
  map (Z.eqb 1) (int_column d "anomaly").

(** Lines 114-128: drawn only [if "TIT" in df.columns]. *)
Definition tit_figure (d : DataFrame) : option Figure :=
  if has_column d "TIT" then
    Some (mkFigure "output/TIT_anomalies.png"
            [LinePlot (seq 0 (nrows d)) (float_column d "TIT");
             ScatterPlot (positions (anomaly_mask d))
                         (compress (anomaly_mask d) (float_column d "TIT"))])
  else None.

(** Lines 131-138: the residuals and the two threshold lines. *)
Definition residual_figure (d : DataFrame) (three_sigma : float) : Figure :=
  mkFigure "output/TEY_residuals.png"
    [HistPlot (float_column d "residual") 60;
     VLine three_sigma;
     VLine (- three_sigma)].

(** The figures the script asks for, in order. *)
Definition plots (d : DataFrame) (three_sigma : float) : list Figure :=
  match tit_figure d with
  | Some f => [f; residual_figure d three_sigma]
  | None => [residual_figure d three_sigma]
  end.

(** What the plotting section leaves: the figures saved, and the
    exception that stopped it, if any. *)
Record Plotting := mkPlotting {
  requested : list Figure;
  saved : list Figure;
  raised : option Error
}.

(** The figures are drawn in turn; the first call that raises ends the
    script, and the figures after it are never drawn. *)
Fixpoint save_figures (mpl : Backend) (figs : list Figure)
  : list Figure * option Error :=
  match figs with
  | [] => ([], None)
  | f :: rest =>
      match render mpl f with
      | Some e => ([], Some e)
      | None =>
          let '(done, e) := save_figures mpl rest in (f :: done, e)
      end
  end.

Definition draw (mpl : Backend) (figs : list Figure) : Plotting :=
  mkPlotting figs (fst (save_figures mpl figs)) (snd (save_figures mpl figs)).

(** The whole script on the frame [read_csv] returned: clean, run the
    pipeline, and, when it completes, draw the figures from the final
    frame and the variable [three_sigma] of line 88. *)
Definition script (sk : Api) (global : Rng sk) (mpl : Backend)
    (raw : DataFrame) : ((Exception + unit) * State) * Plotting :=
  let d := clean raw in
  let r := run sk global d in
  match fst r with
  | inr _ => (r, draw mpl (plots (final_frame r) (three_sigma sk d)))
  | inl _ => (r, mkPlotting [] [] None)
  end.

(** ** A stand-in backend

    It raises when the value range of a line or of the points of a figure
    is not a finite number, as the axis limits cannot be computed then. *)

Definition spread (y : list float) : float :=
  Reference.fmax y - Reference.fmin y.

Definition drawable (a : Artist) : bool :=
  match a with
  | LinePlot _ y => match y with [] => true | _ => is_finite (spread y) end
  | ScatterPlot _ y => match y with [] => true | _ => is_finite (spread y) end
  | HistPlot _ _ => true
  | VLine _ => true
  end.

Definition reference_backend : Backend :=
  mkBackend
    (fun f => if forallb drawable (artists f) then None
              else Some "Axis limits cannot be NaN or Inf").

End Plots.

(* ================================================================== *)
(** * Facts about binary64 arithmetic at zero and NaN *)

Module FloatFacts.
Import Float64.
Local Open Scope float_scope.

Lemma Prim2SF_nan (x : float) : Prim2SF x = S754_nan -> x = nan.
Proof. intros H. apply Prim2SF_inj. rewrite H. reflexivity. Qed.

Lemma SFeqb_refl_not_nan (s : spec_float) : s <> S754_nan -> SFeqb s s = true.
Proof.
  destruct s as [b| b | |b m e]; intros H; try congruence; unfold SFeqb; simpl.
  - reflexivity.
  - destruct b; reflexivity.
  - destruct b; rewrite Z.compare_refl, ?Pos.compare_cont_refl; reflexivity.
Qed.

Lemma is_nan_spec (x : float) : is_nan x = true <-> Prim2SF x = S754_nan.
Proof.
  unfold is_nan. rewrite FloatAxioms.eqb_spec. split.
  - destruct (Prim2SF x) eqn:E; try reflexivity; intros H;
      rewrite SFeqb_refl_not_nan in H by discriminate; discriminate.
  - intros ->. reflexivity.
Qed.

Lemma is_zero_spec (x : float) : is_zero x = true <-> exists s, Prim2SF x = S754_zero s.
Proof.
  unfold is_zero. rewrite FloatAxioms.eqb_spec. change (Prim2SF zero) with (S754_zero false).
  split.
  - destruct (Prim2SF x) as [b| b | |b m e]; unfold SFeqb; simpl; intros H; try discriminate.
    + eauto.
    + destruct b; discriminate.
    + destruct b; discriminate.
  - intros [s ->]. reflexivity.
Qed.


Lemma zero_or_nan_spec (x : float) : zero_or_nan x = true <-> sf_zero_or_nan (Prim2SF x).
Proof.
  unfold zero_or_nan. rewrite orb_true_iff, is_zero_spec, is_nan_spec. split.
  - intros [[s ->] | ->]; constructor.
  - inversion 1; eauto.
Qed.

Lemma sub_diag_zero_or_nan (x : float) : zero_or_nan (x - x) = true.
Proof.
  apply zero_or_nan_spec. rewrite sub_spec.
  destruct (Prim2SF x) as [b| b | |b m e]; simpl.
  - destruct b; constructor.
  - destruct b; constructor.
  - constructor.
  - unfold SF64sub, SFsub. rewrite Z.sub_diag. simpl. constructor.
Qed.

Lemma add_zero_or_nan (x y : float) :
  zero_or_nan x = true -> zero_or_nan y = true -> zero_or_nan (x + y) = true.
Proof.
  rewrite !zero_or_nan_spec, add_spec.
  do 2 inversion 1; simpl; try constructor.
  repeat match goal with b : bool |- _ => destruct b end; constructor.
Qed.

Lemma mul_zero_or_nan (x y : float) :
  zero_or_nan x = true -> zero_or_nan y = true -> zero_or_nan (x * y) = true.
Proof.
  rewrite !zero_or_nan_spec, mul_spec.
  do 2 inversion 1; simpl; constructor.
Qed.

Lemma div_zero_or_nan_l (x y : float) :
  zero_or_nan x = true -> zero_or_nan (x / y) = true.
Proof.
  rewrite !zero_or_nan_spec, div_spec.
  inversion 1; destruct (Prim2SF y); simpl; constructor.
Qed.

Lemma sqrt_zero_or_nan (x : float) :
  zero_or_nan x = true -> zero_or_nan (sqrt x) = true.
Proof.
  rewrite !zero_or_nan_spec, sqrt_spec.
  inversion 1; simpl; constructor.
Qed.

Lemma div_zero_or_nan_nan (x y : float) :
  zero_or_nan x = true -> zero_or_nan y = true -> x / y = nan.
Proof.
  rewrite !zero_or_nan_spec. intros Hx Hy. apply Prim2SF_nan. rewrite div_spec.
  inversion Hx; inversion Hy; reflexivity.
Qed.

Lemma ltb_abs_nan (t : float) : (t <? abs nan) = false.
Proof. rewrite ltb_spec, abs_spec. simpl. destruct (Prim2SF t); reflexivity. Qed.


Lemma digits2_size (p : positive) : digits2_pos p = Pos.size p.
Proof. induction p; simpl; congruence. Qed.

Lemma digits2_iter_xO (k p : positive) :
  digits2_pos (Pos.iter xO p k) = (digits2_pos p + k)%positive.
Proof.
  induction k using Pos.peano_ind.
  - simpl. lia.
  - rewrite Pos.iter_succ. simpl. rewrite IHk. lia.
Qed.

Lemma size_le_53 (p : positive) : (Zpos p < 2 ^ 53)%Z -> (Zpos (Pos.size p) <= 53)%Z.
Proof.
  intros H. pose proof (Pos.size_le p) as L.
  assert (Hp : (2 ^ Zpos (Pos.size p) <= 2 * Zpos p)%Z).
  { rewrite <- Pos2Z.inj_pow. change (2 * Zpos p)%Z with (Zpos p~0). lia. }
  destruct (Z_le_gt_dec (Zpos (Pos.size p)) 53) as [|G]; [assumption|exfalso].
  assert (2 ^ 54 <= 2 ^ Zpos (Pos.size p))%Z by (apply Z.pow_le_mono_r; lia).
  change (2 ^ 54)%Z with (2 * 2 ^ 53)%Z in *. lia.
Qed.

Lemma binary_round_aux_canonical (sx : bool) (m : positive) (e : Z) :
  canonical_mantissa prec emax m e = true -> (e <=? emax - prec)%Z = true ->
  binary_round_aux prec emax sx (Zpos m) e loc_Exact = S754_finite sx m e.
Proof.
  unfold canonical_mantissa. intros C B. apply Z.eqb_eq in C.
  assert (S : shr_fexp prec emax (Zpos m) e loc_Exact
              = ({| shr_m := Zpos m; shr_r := false; shr_s := false |}, e)).
  { unfold shr_fexp. cbn [Zdigits2]. rewrite C, Z.sub_diag. reflexivity. }
  unfold binary_round_aux. rewrite S.
  cbn [shr_m loc_of_shr_record round_nearest_even]. rewrite S.
  cbn [shr_m]. unfold emax, prec in B |- *. rewrite B. reflexivity.
Qed.

(** A positive integer below 2^53 converts to a positive finite float. *)
Lemma binary_normalize_small (p : positive) :
  (Zpos p < 2 ^ 53)%Z ->
  exists m e,
    binary_normalize prec emax (Zpos p) 0 false = S754_finite false m e
    /\ valid_binary (S754_finite false m e) = true.
Proof.
  intros H2. unfold binary_normalize, binary_round.
  pose proof (size_le_53 p H2) as S53. rewrite <- digits2_size in S53.
  assert (F : fexp prec emax (Zpos (digits2_pos p) + 0)
              = (Zpos (digits2_pos p) - 53)%Z).
  { unfold fexp, emin, prec, emax. lia. }
  rewrite F. unfold shl_align.
  destruct (Zpos (digits2_pos p) - 53 - 0)%Z as [|q|q] eqn:D; try lia.
  - assert (E : (Zpos (digits2_pos p) - 53 = 0)%Z) by lia.
    rewrite ?E.
    assert (C : canonical_mantissa prec emax p 0 = true).
    { unfold canonical_mantissa, fexp, emin, prec, emax. apply Z.eqb_eq. lia. }
    exists p, 0%Z. split.
    + now apply binary_round_aux_canonical.
    + unfold valid_binary, bounded. rewrite C. reflexivity.
  - assert (E : (Zpos (digits2_pos p) - 53 = Zneg q)%Z) by lia.
    rewrite E.
    assert (C : canonical_mantissa prec emax (Pos.iter xO p q) (Zneg q)
                = true).
    { unfold canonical_mantissa. rewrite digits2_iter_xO.
      unfold fexp, emin, prec, emax. apply Z.eqb_eq. lia. }
    assert (B : (Zneg q <=? emax - prec)%Z = true)
      by (unfold prec, emax; apply Z.leb_le; lia).
    exists (Pos.iter xO p q), (Zneg q). split.
    + now apply binary_round_aux_canonical.
    + unfold valid_binary, bounded. rewrite C, B. reflexivity.
Qed.

Lemma iter_xO (m d : positive) :
  Zpos (Pos.iter xO m d) = (Zpos m * 2 ^ Zpos d)%Z.
Proof.
  induction d as [|d IH] using Pos.peano_ind.
  - cbn. lia.
  - rewrite Pos.iter_succ, Pos2Z.inj_xO, IH, Pos2Z.inj_succ, Z.pow_succ_r
      by lia. lia.
Qed.

(** The conversion is exact: the mantissa is the integer, shifted. *)
Lemma binary_normalize_exact (p : positive) :
  (Zpos p < 2 ^ 53)%Z ->
  exists m e,
    binary_normalize prec emax (Zpos p) 0 false = S754_finite false m e
    /\ (e <= 0)%Z /\ Zpos m = (Zpos p * 2 ^ (- e))%Z.
Proof.
  intros H2. unfold binary_normalize, binary_round.
  pose proof (size_le_53 p H2) as S53. rewrite <- digits2_size in S53.
  assert (F : fexp prec emax (Zpos (digits2_pos p) + 0)
              = (Zpos (digits2_pos p) - 53)%Z).
  { unfold fexp, emin, prec, emax. lia. }
  rewrite F. unfold shl_align.
  destruct (Zpos (digits2_pos p) - 53 - 0)%Z as [|q|q] eqn:D; try lia.
  - assert (E : (Zpos (digits2_pos p) - 53 = 0)%Z) by lia.
    rewrite ?E.
    assert (C : canonical_mantissa prec emax p 0 = true).
    { unfold canonical_mantissa, fexp, emin, prec, emax. apply Z.eqb_eq. lia. }
    exists p, 0%Z. split; [now apply binary_round_aux_canonical|].
    split; [lia|]. cbn. lia.
  - assert (E : (Zpos (digits2_pos p) - 53 = Zneg q)%Z) by lia.
    rewrite E.
    assert (C : canonical_mantissa prec emax (Pos.iter xO p q) (Zneg q)
                = true).
    { unfold canonical_mantissa. rewrite digits2_iter_xO.
      unfold fexp, emin, prec, emax. apply Z.eqb_eq. lia. }
    assert (B : (Zneg q <=? emax - prec)%Z = true)
      by (unfold prec, emax; apply Z.leb_le; lia).
    exists (Pos.iter xO p q), (Zneg q).
    split; [now apply binary_round_aux_canonical|].
    split; [lia|]. rewrite iter_xO. reflexivity.
Qed.

Lemma float_of_nat_pos (n : nat) :
  (1 <= n)%nat -> (Z.of_nat n < 2 ^ 53)%Z ->
  exists m e, Prim2SF (float_of_nat n) = S754_finite false m e.
Proof.
  intros H1 H2. unfold float_of_nat, float_of_int.
  destruct (Z.of_nat n) as [|p|p] eqn:E; try lia.
  destruct (binary_normalize_small p H2) as [m [e [N V]]].
  exists m, e. rewrite N. now apply Prim2SF_SF2Prim.
Qed.


Lemma sub_zero_or_nan (x y : float) :
  zero_or_nan x = true -> zero_or_nan y = true -> zero_or_nan (x - y) = true.
Proof.
  rewrite !zero_or_nan_spec, sub_spec.
  do 2 inversion 1; simpl; try constructor.
  repeat match goal with b : bool |- _ => destruct b end; constructor.
Qed.

Lemma mul_zero_or_nan_r (x y : float) :
  zero_or_nan y = true -> zero_or_nan (x * y) = true.
Proof.
  rewrite !zero_or_nan_spec, mul_spec.
  inversion 1; destruct (Prim2SF x); simpl; constructor.
Qed.

Lemma is_zero_zero_or_nan (x : float) :
  is_zero x = true -> zero_or_nan x = true.
Proof. unfold zero_or_nan. now intros ->. Qed.

Lemma is_zero_not_nan (x : float) : is_zero x = true -> is_nan x = false.
Proof.
  rewrite is_zero_spec. intros [s E].
  destruct (is_nan x) eqn:N; [|reflexivity].
  apply is_nan_spec in N. congruence.
Qed.

Lemma Prim2SF_pzero (x : float) : Prim2SF x = S754_zero false -> x = zero.
Proof. intros H. apply Prim2SF_inj. rewrite H. reflexivity. Qed.

Lemma add_is_zero (x y : float) :
  is_zero x = true -> is_zero y = true -> is_zero (x + y) = true.
Proof.
  rewrite !is_zero_spec, add_spec. intros [s ->] [t ->].
  destruct s, t; simpl; eauto.
Qed.

Lemma sub_is_zero (x y : float) :
  is_zero x = true -> is_zero y = true -> is_zero (x - y) = true.
Proof.
  rewrite !is_zero_spec, sub_spec. intros [s ->] [t ->].
  destruct s, t; simpl; eauto.
Qed.

Lemma square_is_zero (x : float) : is_zero x = true -> x * x = zero.
Proof.
  rewrite is_zero_spec. intros [s E]. apply Prim2SF_pzero.
  rewrite mul_spec, E. destruct s; reflexivity.
Qed.

Lemma div_is_zero (x c : float) (m : positive) (e : Z) :
  is_zero x = true -> Prim2SF c = S754_finite false m e ->
  is_zero (x / c) = true.
Proof.
  rewrite !is_zero_spec, div_spec. intros [s ->] ->. simpl. eauto.
Qed.

Lemma zero_div_positive (c : float) (m : positive) (e : Z) :
  Prim2SF c = S754_finite false m e -> zero / c = zero.
Proof.
  intros E. apply Prim2SF_pzero. rewrite div_spec, E. reflexivity.
Qed.

Lemma gtb_abs_zero (r t : float) :
  is_zero r = true -> zero_or_nan t = true -> gtb (abs r) t = false.
Proof.
  unfold gtb. rewrite is_zero_spec, zero_or_nan_spec, ltb_spec, abs_spec.
  intros [s ->]. inversion 1; reflexivity.
Qed.

Lemma gtb_abs_nan (t : float) : gtb (abs nan) t = false.
Proof. apply ltb_abs_nan. Qed.

Lemma Forall_firstn {A : Type} (P : A -> Prop) (n : nat) (l : list A) :
  Forall P l -> Forall P (firstn n l).
Proof.
  intros H. revert n. induction H as [|x l Hx _ IH]; intros [|n]; simpl;
    auto.
Qed.

Lemma Forall_skipn {A : Type} (P : A -> Prop) (n : nat) (l : list A) :
  Forall P l -> Forall P (skipn n l).
Proof.
  intros H. revert n. induction H as [|x l Hx Hl IH]; intros [|n]; simpl;
    auto.
Qed.

Lemma add_neg_zero_l (x : float) : (- 0) + x = x.
Proof.
  apply Prim2SF_inj. rewrite add_spec.
  change (Prim2SF (- 0)) with (S754_zero true).
  destruct (Prim2SF x) as [s| s | |s m e]; try reflexivity.
  destruct s; reflexivity.
Qed.

(** ** Sums stay in every class that addition stays in *)

Section Closure.
Context (P : float -> Prop).
Hypothesis P_add : forall x y, P x -> P y -> P (x + y).

Lemma fold_add_closed (l : list float) (a : float) :
  P a -> Forall P l -> P (fold_left add l a).
Proof.
  revert a. induction l as [|t l IH]; intros a Ha Hl; simpl; [exact Ha|].
  inversion Hl; subst. apply IH; [now apply P_add | assumption].
Qed.

Lemma add_lanes_closed (r b : list float) :
  Forall P r -> Forall P b -> Forall P (add_lanes r b).
Proof.
  intros Hr. revert b. induction Hr as [|x r Hx _ IH]; intros b Hb;
    [constructor|].
  destruct Hb as [|y b Hy Hb]; simpl; [constructor|].
  constructor; [now apply P_add | now apply IH].
Qed.

Lemma add_lanes_length (r b : list float) :
  List.length (add_lanes r b) = Nat.min (List.length r) (List.length b).
Proof.
  revert b. induction r as [|x r IH]; intros [|y b]; simpl; auto.
Qed.

Lemma accumulate_closed (k : nat) (r l : list float) :
  List.length r = 8%nat -> (8 * k <= List.length l)%nat ->
  Forall P r -> Forall P l ->
  List.length (fst (accumulate k r l)) = 8%nat
  /\ Forall P (fst (accumulate k r l))
  /\ Forall P (snd (accumulate k r l)).
Proof.
  revert r l. induction k as [|k IH]; intros r l Lr Ll Hr Hl;
    [simpl; auto|].
  cbn [accumulate]. apply IH.
  - rewrite add_lanes_length, length_firstn. lia.
  - rewrite length_skipn. lia.
  - apply add_lanes_closed; [assumption | now apply Forall_firstn].
  - now apply Forall_skipn.
Qed.

Lemma sum_block_closed (l : list float) :
  (8 <= List.length l)%nat -> Forall P l -> P (sum_block l).
Proof.
  intros L H. unfold sum_block.
  assert (D : (8 * (List.length l / 8) <= List.length l)%nat)
    by (apply Nat.Div0.mul_div_le).
  destruct (accumulate_closed (List.length l / 8 - 1) (firstn 8 l)
              (skipn 8 l)) as [L8 [Hr Hrest]].
  - rewrite length_firstn. lia.
  - rewrite length_skipn. lia.
  - now apply Forall_firstn.
  - now apply Forall_skipn.
  - destruct (accumulate (List.length l / 8 - 1) (firstn 8 l) (skipn 8 l))
      as [r rest]. cbn [fst snd] in *.
    apply fold_add_closed; [|assumption].
    destruct r as [|r0 [|r1 [|r2 [|r3 [|r4 [|r5 [|r6 [|r7 [|r8 r]]]]]]]]];
      try discriminate L8.
    repeat match goal with
           | H : Forall P (_ :: _) |- _ => inversion H; clear H; subst
           end.
    cbn [fold_lanes]. auto.
Qed.

Lemma pairwise_sum_closed (fuel : nat) (l : list float) :
  l <> [] -> Forall P l -> P (pairwise_sum fuel l).
Proof.
  revert l. induction fuel as [|fuel IH]; intros l N H; cbn [pairwise_sum];
    destruct (Nat.ltb_spec (List.length l) 8) as [L8|L8].
  - destruct l as [|x l]; [congruence|]. inversion H; subst.
    cbn [fold_left]. rewrite add_neg_zero_l. now apply fold_add_closed.
  - destruct (List.length l <=? 128)%nat; now apply sum_block_closed.
  - destruct l as [|x l]; [congruence|]. inversion H; subst.
    cbn [fold_left]. rewrite add_neg_zero_l. now apply fold_add_closed.
  - destruct (Nat.leb_spec (List.length l) 128) as [L|L];
      [now apply sum_block_closed|].
    pose proof (Nat.div_mod_eq (List.length l) 2) as D2.
    assert (M2 : (List.length l mod 2 < 2)%nat)
      by (apply Nat.mod_upper_bound; lia).
    assert (M8 : ((List.length l / 2) mod 8 < 8)%nat)
      by (apply Nat.mod_upper_bound; lia).
    apply P_add; apply IH.
    + intros E. apply (f_equal (@List.length float)) in E.
      rewrite length_firstn in E. cbn [List.length] in E. lia.
    + now apply Forall_firstn.
    + intros E. apply (f_equal (@List.length float)) in E.
      rewrite length_skipn in E. cbn [List.length] in E. lia.
    + now apply Forall_skipn.
Qed.

Lemma fsum_closed (l : list float) : l <> [] -> Forall P l -> P (fsum l).
Proof.
  intros N H. destruct l as [|x l]; [congruence|].
  now apply pairwise_sum_closed.
Qed.

End Closure.

Lemma fsum_zero_or_nan (l : list float) :
  Forall (fun t => zero_or_nan t = true) l -> zero_or_nan (fsum l) = true.
Proof.
  intros H. destruct l as [|x l]; [reflexivity|].
  apply (fsum_closed (fun t => zero_or_nan t = true));
    [apply add_zero_or_nan | discriminate | assumption].
Qed.

Lemma fsum_is_zero (l : list float) :
  Forall (fun t => is_zero t = true) l -> is_zero (fsum l) = true.
Proof.
  intros H. destruct l as [|x l]; [reflexivity|].
  apply (fsum_closed (fun t => is_zero t = true));
    [apply add_is_zero | discriminate | assumption].
Qed.

Lemma fsum_zeros (l : list float) : Forall (eq zero) l -> fsum l = zero.
Proof.
  intros H. destruct l as [|x l]; [reflexivity|]. symmetry.
  apply (fsum_closed (eq zero)); [| discriminate | assumption].
  now intros ? ? <- <-.
Qed.

End FloatFacts.

(* ================================================================== *)
(** * Sums of values that are all at least some amount *)

Module SummationFacts.
Import Float64 FloatFacts.
Local Open Scope float_scope.

Section Counted.
Context (Q : nat -> float -> Prop) (bound : nat).
Hypothesis Q_add : forall j k x y,
  (1 <= j)%nat -> (1 <= k)%nat -> (j + k <= bound)%nat ->
  Q j x -> Q k y -> Q (j + k) (x + y).

Lemma fold_add_counted (l : list float) (a : float) (j : nat) :
  (1 <= j)%nat -> (j + List.length l <= bound)%nat ->
  Q j a -> Forall (Q 1%nat) l ->
  Q (j + List.length l) (fold_left add l a).
Proof.
  revert a j. induction l as [|t l IH]; intros a j J B Ha Hl;
    cbn [fold_left List.length] in *.
  - now rewrite Nat.add_0_r.
  - inversion Hl; subst.
    replace (j + S (List.length l))%nat with ((j + 1) + List.length l)%nat
      by lia.
    apply IH; try lia; [|assumption]. apply Q_add; try lia; assumption.
Qed.

Lemma add_lanes_counted (c : nat) (r b : list float) :
  (1 <= c)%nat -> (c + 1 <= bound)%nat ->
  Forall (Q c) r -> Forall (Q 1%nat) b -> Forall (Q (c + 1)) (add_lanes r b).
Proof.
  intros C B Hr. revert b. induction Hr as [|x r Hx _ IH]; intros b Hb;
    [constructor|].
  destruct Hb as [|y b Hy Hb]; simpl; [constructor|].
  constructor; [apply Q_add; try lia; assumption | now apply IH].
Qed.

Lemma accumulate_counted (k c : nat) (r l : list float) :
  List.length r = 8%nat -> (8 * k <= List.length l)%nat ->
  (1 <= c)%nat -> (c + k <= bound)%nat ->
  Forall (Q c) r -> Forall (Q 1%nat) l ->
  List.length (fst (accumulate k r l)) = 8%nat
  /\ Forall (Q (c + k)) (fst (accumulate k r l))
  /\ Forall (Q 1%nat) (snd (accumulate k r l))
  /\ List.length (snd (accumulate k r l)) = (List.length l - 8 * k)%nat.
Proof.
  revert c r l. induction k as [|k IH]; intros c r l Lr Ll C B Hr Hl.
  - cbn [accumulate fst snd]. rewrite Nat.add_0_r. repeat split; auto. lia.
  - cbn [accumulate].
    destruct (IH (c + 1)%nat (add_lanes r (firstn 8 l)) (skipn 8 l))
      as [A1 [A2 [A3 A4]]].
    + rewrite add_lanes_length, length_firstn. lia.
    + rewrite length_skipn. lia.
    + lia.
    + lia.
    + apply add_lanes_counted; try lia; [assumption | now apply Forall_firstn].
    + now apply Forall_skipn.
    + replace (c + S k)%nat with (c + 1 + k)%nat by lia.
      repeat split; try assumption. rewrite A4, length_skipn. lia.
Qed.

Lemma sum_block_counted (l : list float) :
  (8 <= List.length l)%nat -> (List.length l <= bound)%nat ->
  Forall (Q 1%nat) l -> Q (List.length l) (sum_block l).
Proof.
  intros L B H. unfold sum_block.
  assert (D : (8 * (List.length l / 8) <= List.length l)%nat)
    by (apply Nat.Div0.mul_div_le).
  assert (D1 : (1 <= List.length l / 8)%nat)
    by (apply Nat.div_le_lower_bound; lia).
  destruct (accumulate_counted (List.length l / 8 - 1) 1 (firstn 8 l)
              (skipn 8 l)) as [L8 [Hr [Hrest Lrest]]].
  - rewrite length_firstn. lia.
  - rewrite length_skipn. lia.
  - lia.
  - lia.
  - now apply Forall_firstn.
  - now apply Forall_skipn.
  - rewrite length_skipn in Lrest.
    replace (1 + (List.length l / 8 - 1))%nat with (List.length l / 8)%nat
      in Hr by lia.
    destruct (accumulate (List.length l / 8 - 1) (firstn 8 l) (skipn 8 l))
      as [r rest]. cbn [fst snd] in *.
    set (c := (List.length l / 8)%nat) in *.
    destruct r as [|r0 [|r1 [|r2 [|r3 [|r4 [|r5 [|r6 [|r7 [|r8 r]]]]]]]]];
      try discriminate L8.
    repeat match goal with
           | H : Forall (Q c) (_ :: _) |- _ => inversion H; clear H; subst
           end.
    cbn [fold_lanes].
    replace (List.length l)
      with (((c + c) + (c + c)) + ((c + c) + (c + c)) + List.length rest)%nat
      by lia.
    apply fold_add_counted; try lia; [|assumption].
    repeat (apply Q_add; try lia; try assumption).
Qed.

Lemma pairwise_sum_counted (fuel : nat) (l : list float) :
  l <> [] -> (List.length l <= bound)%nat -> Forall (Q 1%nat) l ->
  Q (List.length l) (pairwise_sum fuel l).
Proof.
  assert (Short : forall l, l <> [] -> (List.length l <= bound)%nat ->
            Forall (Q 1%nat) l -> Q (List.length l) (fold_left add l (-0))).
  { intros [|x t] N B H; [congruence|]. inversion H; subst.
    cbn [fold_left List.length] in *. rewrite add_neg_zero_l.
    change (S (List.length t)) with (1 + List.length t)%nat.
    apply fold_add_counted; try lia; assumption. }
  revert l. induction fuel as [|fuel IH]; intros l N B H; cbn [pairwise_sum];
    destruct (Nat.ltb_spec (List.length l) 8) as [L8|L8];
    try (now apply Short).
  - destruct (List.length l <=? 128)%nat; now apply sum_block_counted.
  - destruct (Nat.leb_spec (List.length l) 128) as [L|L];
      [now apply sum_block_counted|].
    pose proof (Nat.div_mod_eq (List.length l) 2) as D2.
    assert (M2 : (List.length l mod 2 < 2)%nat)
      by (apply Nat.mod_upper_bound; lia).
    assert (M8 : ((List.length l / 2) mod 8 < 8)%nat)
      by (apply Nat.mod_upper_bound; lia).
    set (n2 := (List.length l / 2 - (List.length l / 2) mod 8)%nat) in *.
    assert (F : List.length (firstn n2 l) = n2)
      by (rewrite length_firstn; lia).
    assert (K : List.length (skipn n2 l) = (List.length l - n2)%nat)
      by (rewrite length_skipn; lia).
    replace (List.length l)
      with (List.length (firstn n2 l) + List.length (skipn n2 l))%nat by lia.
    apply Q_add; try lia; apply IH; try lia.
    + intros E. rewrite E in F. cbn [List.length] in F. lia.
    + now apply Forall_firstn.
    + intros E. rewrite E in K. cbn [List.length] in K. lia.
    + now apply Forall_skipn.
Qed.

Lemma fsum_counted (l : list float) :
  l <> [] -> (List.length l <= bound)%nat -> Forall (Q 1%nat) l ->
  Q (List.length l) (fsum l).
Proof.
  intros N B H. destruct l as [|x l]; [congruence|].
  now apply pairwise_sum_counted.
Qed.

End Counted.

End SummationFacts.

(* ================================================================== *)
(** * Rounding, as bounds on the value *)

(** What [binary_round_aux] returns lies between the float just below
    the exact result and the one just above; from there, a lower bound
    on the operands gives one on a sum, a square, a quotient and a square
    root, and an upper bound on a quotient keeps it below the threshold. *)
Module RoundingFacts.
Import Reals Lra.
Import Dyadic FloatFacts.
Local Open Scope R_scope.

Lemma bpow_gt_0 (e : Z) : 0 < bpow e.
Proof. apply powerRZ_lt. lra. Qed.

Lemma bpow_add (a b : Z) : bpow (a + b) = bpow a * bpow b.
Proof. apply powerRZ_add. lra. Qed.

Lemma bpow_IZR (n : Z) : (0 <= n)%Z -> bpow n = IZR (2 ^ n).
Proof.
  intros H. unfold bpow. destruct n as [|p|p]; [reflexivity | | lia].
  now rewrite <- Zpower_pos_powerRZ.
Qed.

Lemma bpow_ge_1 (n : Z) : (0 <= n)%Z -> 1 <= bpow n.
Proof.
  intros H. rewrite bpow_IZR by assumption. apply IZR_le.
  assert (0 < 2 ^ n)%Z by (apply Z.pow_pos_nonneg; lia). lia.
Qed.

Lemma bpow_le (a b : Z) : (a <= b)%Z -> bpow a <= bpow b.
Proof.
  intros H. replace b with (a + (b - a))%Z by lia. rewrite bpow_add.
  pose proof (bpow_gt_0 a). pose proof (bpow_ge_1 (b - a) ltac:(lia)). nra.
Qed.

Lemma F2R_shift (m e k : Z) : (0 <= k)%Z -> F2R (m * 2 ^ k) e = F2R m (e + k).
Proof.
  intros H. unfold F2R. rewrite mult_IZR, bpow_add, (bpow_IZR k) by assumption. ring.
Qed.

Lemma F2R_le (m m' e : Z) : (m <= m')%Z -> F2R m e <= F2R m' e.
Proof.
  intros H. unfold F2R. pose proof (bpow_gt_0 e). apply IZR_le in H. nra.
Qed.

Lemma F2R_lt (m m' e : Z) : (m < m')%Z -> F2R m e < F2R m' e.
Proof.
  intros H. unfold F2R. pose proof (bpow_gt_0 e). apply IZR_lt in H. nra.
Qed.

Lemma F2R_lt_inv (m m' e : Z) : F2R m e < F2R m' e -> (m < m')%Z.
Proof.
  intros H. unfold F2R in H. pose proof (bpow_gt_0 e). apply lt_IZR. nra.
Qed.

Lemma F2R_pow (k e : Z) : (0 <= k)%Z -> F2R (2 ^ k) e = bpow (k + e).
Proof. intros H. unfold F2R. rewrite bpow_add, (bpow_IZR k) by assumption. ring. Qed.

(** ** Digits *)

Lemma Zdigits2_bounds (m : Z) :
  (0 < m)%Z -> (2 ^ (Zdigits2 m - 1) <= m < 2 ^ Zdigits2 m)%Z.
Proof.
  destruct m as [|p|p]; try lia. intros _. cbn [Zdigits2]. rewrite digits2_size.
  pose proof (Pos.size_gt p) as G. pose proof (Pos.size_le p) as L.
  assert (E : (2 ^ Z.pos (Pos.size p) = Z.pos (2 ^ Pos.size p))%Z)
    by now rewrite Pos2Z.inj_pow.
  split.
  - assert (2 ^ Z.pos (Pos.size p) = 2 * 2 ^ (Z.pos (Pos.size p) - 1))%Z as E2.
    { rewrite <- Z.pow_succ_r by lia. f_equal. lia. }
    rewrite E in E2. lia.
  - rewrite E. lia.
Qed.

Lemma Zdigits2_nonneg (m : Z) : (0 <= Zdigits2 m)%Z.
Proof. destruct m; cbn; lia. Qed.

Lemma Zdigits2_pos (m : Z) : (0 < m)%Z -> (0 < Zdigits2 m)%Z.
Proof. destruct m; cbn; lia. Qed.

Lemma Zdigits2_ge (m k : Z) : (0 <= k)%Z -> (2 ^ k <= m)%Z -> (k < Zdigits2 m)%Z.
Proof.
  intros K H. assert (0 < m)%Z.
  { assert (0 < 2 ^ k)%Z by (apply Z.pow_pos_nonneg; lia). lia. }
  destruct (Zdigits2_bounds m ltac:(assumption)) as [_ U].
  destruct (Z_lt_le_dec k (Zdigits2 m)) as [|G]; [assumption|].
  assert (2 ^ Zdigits2 m <= 2 ^ k)%Z by (apply Z.pow_le_mono_r; lia). lia.
Qed.

Lemma Zdigits2_le (m k : Z) : (0 <= k)%Z -> (0 <= m < 2 ^ k)%Z -> (Zdigits2 m <= k)%Z.
Proof.
  intros K [L H]. destruct (Z.eq_dec m 0) as [->|N]; [cbn; lia|].
  destruct (Zdigits2_bounds m ltac:(lia)) as [B _].
  destruct (Z_le_gt_dec (Zdigits2 m) k) as [|G]; [assumption|].
  assert (2 ^ k <= 2 ^ (Zdigits2 m - 1))%Z by (apply Z.pow_le_mono_r; lia). lia.
Qed.

Lemma Zdigits2_div_pow (m n : Z) :
  (0 < m)%Z -> (0 <= n < Zdigits2 m)%Z -> Zdigits2 (m / 2 ^ n) = (Zdigits2 m - n)%Z.
Proof.
  intros M N. destruct (Zdigits2_bounds m M) as [L U].
  assert (P : (0 < 2 ^ n)%Z) by (apply Z.pow_pos_nonneg; lia).
  assert (A : (2 ^ (Zdigits2 m - n - 1) <= m / 2 ^ n)%Z).
  { apply Z.div_le_lower_bound; [assumption|].
    rewrite <- Z.pow_add_r by lia. replace (n + (Zdigits2 m - n - 1))%Z with (Zdigits2 m - 1)%Z by lia.
    assumption. }
  assert (B : (m / 2 ^ n < 2 ^ (Zdigits2 m - n))%Z).
  { apply Z.div_lt_upper_bound; [assumption|].
    rewrite <- Z.pow_add_r by lia. replace (n + (Zdigits2 m - n))%Z with (Zdigits2 m) by lia.
    assumption. }
  apply Z.le_antisymm.
  - apply Zdigits2_le; [lia|]. split; [apply Z.div_pos; lia | assumption].
  - pose proof (Zdigits2_ge (m / 2 ^ n) (Zdigits2 m - n - 1) ltac:(lia) A). lia.
Qed.

(** ** Shifting *)

Lemma shr_1_m (r : shr_record) :
  (0 <= shr_m r)%Z -> shr_m (shr_1 r) = (shr_m r / 2)%Z.
Proof.
  destruct r as [m b s]. cbn [shr_m]. intros H. unfold shr_1.
  destruct m as [|p|p]; [reflexivity | | lia].
  destruct p as [p|p|]; cbn [shr_m].
  - rewrite Pos2Z.inj_xI. apply Z.div_unique with 1%Z; lia.
  - rewrite Pos2Z.inj_xO. apply Z.div_unique with 0%Z; lia.
  - reflexivity.
Qed.

Lemma shr_1_nonneg (r : shr_record) : (0 <= shr_m r)%Z -> (0 <= shr_m (shr_1 r))%Z.
Proof.
  intros H. rewrite shr_1_m by assumption. apply Z.div_pos; lia.
Qed.

Lemma iter_pos_shr_m (p : positive) (r : shr_record) :
  (0 <= shr_m r)%Z ->
  shr_m (SpecFloat.iter_pos shr_1 p r) = (shr_m r / 2 ^ Z.pos p)%Z.
Proof.
  revert r. induction p as [p IH|p IH|]; intros r H; cbn [SpecFloat.iter_pos].
  - assert (H1 := shr_1_nonneg r H).
    assert (H2 : (0 <= shr_m (SpecFloat.iter_pos shr_1 p (shr_1 r)))%Z).
    { rewrite IH by assumption. apply Z.div_pos; [assumption|]. apply Z.pow_pos_nonneg; lia. }
    rewrite IH, IH, shr_1_m by assumption.
    rewrite !Z.div_div by (try apply Z.pow_pos_nonneg; try apply Z.pow_nonzero; lia).
    f_equal. replace (Z.pos p~1) with (1 + Z.pos p + Z.pos p)%Z by lia.
    rewrite !Z.pow_add_r by lia. change (2 ^ 1)%Z with 2%Z. ring.
  - assert (H2 : (0 <= shr_m (SpecFloat.iter_pos shr_1 p r))%Z).
    { rewrite IH by assumption. apply Z.div_pos; [assumption|]. apply Z.pow_pos_nonneg; lia. }
    rewrite IH, IH by assumption.
    rewrite !Z.div_div by (try apply Z.pow_pos_nonneg; try apply Z.pow_nonzero; lia).
    f_equal. replace (Z.pos p~0) with (Z.pos p + Z.pos p)%Z by lia.
    now rewrite !Z.pow_add_r by lia.
  - now rewrite shr_1_m.
Qed.

Lemma shr_spec (r : shr_record) (e n : Z) :
  (0 <= shr_m r)%Z -> (0 <= n)%Z ->
  shr_m (fst (shr r e n)) = (shr_m r / 2 ^ n)%Z /\ snd (shr r e n) = (e + n)%Z.
Proof.
  intros H N. unfold shr. destruct n as [|p|p]; try lia; cbn [fst snd].
  - rewrite Z.div_1_r. split; [reflexivity | lia].
  - split; [now apply iter_pos_shr_m | reflexivity].
Qed.

Lemma round_nearest_even_bounds (m : Z) (l : location) :
  (m <= round_nearest_even m l <= m + 1)%Z.
Proof.
  unfold round_nearest_even. destruct l as [|[]]; try lia. destruct (Z.even m); lia.
Qed.

Lemma fexp_eq (e : Z) : fexp prec emax e = Z.max (e - 53) (-1074).
Proof. reflexivity. Qed.


Lemma shr_record_of_loc_m (m : Z) (l : location) : shr_m (shr_record_of_loc m l) = m.
Proof. destruct l as [|[]]; reflexivity. Qed.

Lemma shr_fexp_spec (m e : Z) (l : location) :
  (0 <= m)%Z -> (e <= fexp prec emax (Zdigits2 m + e))%Z ->
  shr_m (fst (shr_fexp prec emax m e l))
    = (m / 2 ^ (fexp prec emax (Zdigits2 m + e) - e))%Z /\
  snd (shr_fexp prec emax m e l) = fexp prec emax (Zdigits2 m + e).
Proof.
  intros M H. unfold shr_fexp.
  destruct (shr_spec (shr_record_of_loc m l) e (fexp prec emax (Zdigits2 m + e) - e))
    as [A B]; [rewrite shr_record_of_loc_m; assumption | lia |].
  rewrite shr_record_of_loc_m in A. split; [assumption | lia].
Qed.

Lemma shr_fexp_id (m e : Z) (l : location) :
  (fexp prec emax (Zdigits2 m + e) <= e)%Z ->
  shr_fexp prec emax m e l = (shr_record_of_loc m l, e).
Proof.
  intros H. unfold shr_fexp, shr.
  destruct (fexp prec emax (Zdigits2 m + e) - e)%Z eqn:E; try reflexivity. lia.
Qed.

Lemma shifted_digits (mx ex : Z) :
  (0 <= mx)%Z -> (ex <= fexp prec emax (Zdigits2 mx + ex))%Z ->
  let e1 := fexp prec emax (Zdigits2 mx + ex) in
  let m' := (mx / 2 ^ (e1 - ex))%Z in
  (0 <= m' < 2 ^ 53)%Z /\ (m' < 2 ^ 52 -> e1 = (-1074)%Z)%Z /\ (-1074 <= e1)%Z.
Proof.
  intros M H e1 m'. subst e1 m'. rewrite fexp_eq in *.
  set (d := Zdigits2 mx) in *. set (e1 := Z.max (d + ex - 53) (-1074)) in *.
  assert (P : (0 < 2 ^ (e1 - ex))%Z) by (apply Z.pow_pos_nonneg; lia).
  destruct (Z.eq_dec mx 0) as [->|N].
  { rewrite Z.div_0_l by lia. cbn in d. subst d. lia. }
  destruct (Zdigits2_bounds mx ltac:(lia)) as [L U]. fold d in L, U.
  destruct (Z_lt_le_dec (e1 - ex) d) as [S|S].
  - pose proof (Zdigits2_div_pow mx (e1 - ex) ltac:(lia) ltac:(fold d; lia)) as E.
    fold d in E.
    assert (Q : (0 < mx / 2 ^ (e1 - ex))%Z).
    { apply Z.div_str_pos. split; [assumption|].
      apply Z.le_trans with (2 ^ (d - 1))%Z; [|assumption].
      apply Z.pow_le_mono_r; lia. }
    destruct (Zdigits2_bounds _ Q) as [L' U']. rewrite E in L', U'.
    split; [split; [lia|]|split; [|lia]].
    + apply Z.lt_le_trans with (1 := U'). apply Z.pow_le_mono_r; lia.
    + intros T. pose proof (Zdigits2_le _ 52 ltac:(lia) (conj (Z.lt_le_incl _ _ Q) T)). lia.
  - assert (mx / 2 ^ (e1 - ex) = 0)%Z as ->.
    { apply Z.div_small. split; [lia|]. apply Z.lt_le_trans with (1 := U).
      apply Z.pow_le_mono_r; lia. }
    lia.
Qed.

Lemma renormalize (m e : Z) :
  (0 < m <= 2 ^ 53)%Z -> (-1074 <= e)%Z ->
  exists m2 e2,
    shr_m (fst (shr_fexp prec emax m e loc_Exact)) = Z.pos m2 /\
    snd (shr_fexp prec emax m e loc_Exact) = e2 /\
    F2R (Z.pos m2) e2 = F2R m e /\
    (e2 = e \/ (e2 = (e + 1)%Z /\ m = (2 ^ 53)%Z)).
Proof.
  intros [P U] E. destruct (Z.eq_dec m (2 ^ 53)) as [->|N].
  - exists (2 ^ 52)%positive, (e + 1)%Z.
    destruct (shr_fexp_spec (2 ^ 53) e loc_Exact) as [A B];
      [lia | rewrite fexp_eq; change (Zdigits2 (2 ^ 53)) with 54%Z; lia |].
    rewrite fexp_eq in A, B. change (Zdigits2 (2 ^ 53)) with 54%Z in A, B.
    replace (Z.max (54 + e - 53) (-1074)) with (e + 1)%Z in A, B by lia.
    replace (e + 1 - e)%Z with 1%Z in A by lia.
    split; [rewrite A; reflexivity|]. split; [assumption|]. split; [|right; split; reflexivity].
    change (Z.pos (2 ^ 52)) with (2 ^ 52)%Z. rewrite !F2R_pow by lia. f_equal. lia.
  - assert (D : (Zdigits2 m <= 53)%Z) by (apply Zdigits2_le; lia).
    destruct m as [|p|p]; try lia. exists p, e.
    rewrite shr_fexp_id by (rewrite fexp_eq; lia). cbn [fst snd shr_record_of_loc shr_m].
    repeat split. now left.
Qed.

Lemma binary_round_aux_bounds (sx : bool) (mx ex : Z) (lx : location) :
  (0 <= mx)%Z -> (ex <= fexp prec emax (Zdigits2 mx + ex))%Z ->
  let e1 := fexp prec emax (Zdigits2 mx + ex) in
  let m' := (mx / 2 ^ (e1 - ex))%Z in
  match binary_round_aux prec emax sx mx ex lx with
  | S754_zero s => s = sx /\ m' = 0%Z
  | S754_finite s m e =>
      s = sx /\ F2R m' e1 <= F2R (Z.pos m) e <= F2R (m' + 1) e1
  | S754_infinity s => s = sx /\ bpow 1024 <= F2R (m' + 1) e1
  | S754_nan => False
  end.
Proof.
  intros M H e1 m'. pose proof (shifted_digits mx ex M H) as SD. cbv zeta in SD.
  fold e1 in SD. fold m' in SD. destruct SD as [[M0 M1] [Sub Emin]].
  unfold binary_round_aux.
  destruct (shr_fexp_spec mx ex lx M H) as [A B]. fold e1 in A, B. fold m' in A.
  destruct (shr_fexp prec emax mx ex lx) as [mrs' e']. cbn [fst snd] in A, B. subst e'.
  rewrite A.
  pose proof (round_nearest_even_bounds m' (loc_of_shr_record mrs')) as Rn.
  set (m'' := round_nearest_even m' (loc_of_shr_record mrs')) in *.
  destruct (Z.eq_dec m'' 0) as [Zr|NZ].
  - rewrite Zr. assert (m' = 0%Z) by lia.
    assert (e1 = (-1074)%Z) by (apply Sub; lia).
    rewrite shr_fexp_id by (rewrite fexp_eq; cbn; lia). cbn. split; [reflexivity | assumption].
  - destruct (renormalize m'' e1 ltac:(lia) Emin) as [m2 [e2 [A2 [B2 [V C]]]]].
    destruct (shr_fexp prec emax m'' e1 loc_Exact) as [mrs'' e'']. cbn [fst snd] in A2, B2.
    subst e''. rewrite A2.
    assert (V1 : F2R m' e1 <= F2R (Z.pos m2) e2) by (rewrite V; apply F2R_le; lia).
    assert (V2 : F2R (Z.pos m2) e2 <= F2R (m' + 1) e1) by (rewrite V; apply F2R_le; lia).
    destruct (e2 <=? emax - prec)%Z eqn:O.
    + split; [reflexivity | split; assumption].
    + split; [reflexivity|]. apply Z.leb_gt in O. change (emax - prec)%Z with 971%Z in O.
      destruct C as [-> | [-> ->]].
      * assert (2 ^ 52 <= m')%Z by (destruct (Z_lt_le_dec m' (2 ^ 52)); [specialize (Sub l) |]; lia).
        apply Rle_trans with (F2R (2 ^ 52) e1); [|apply F2R_le; lia].
        rewrite F2R_pow by lia. apply bpow_le. lia.
      * apply Rle_trans with (F2R (2 ^ 53) e1); [|apply F2R_le; lia].
        rewrite F2R_pow by lia. apply bpow_le. lia.
Qed.

Lemma floor_grid (N k mx ex : Z) :
  (0 < N < 2 ^ 53)%Z -> (-1074 <= k)%Z -> (0 <= mx)%Z ->
  (ex <= fexp prec emax (Zdigits2 mx + ex))%Z ->
  F2R N k < F2R (mx + 1) ex ->
  let e1 := fexp prec emax (Zdigits2 mx + ex) in
  F2R N k <= F2R (mx / 2 ^ (e1 - ex)) e1.
Proof.
  intros [N0 N1] K M H L e1.
  pose proof (shifted_digits mx ex M H) as SD. cbv zeta in SD.
  fold e1 in SD. destruct SD as [[M0 M1] [Sub Emin]].
  assert (P : (0 < 2 ^ (e1 - ex))%Z) by (apply Z.pow_pos_nonneg; fold e1 in H; lia).
  destruct (Z_le_gt_dec e1 k) as [G|G].
  - fold e1 in H.
    assert (Ek : F2R N k = F2R (N * 2 ^ (k - e1) * 2 ^ (e1 - ex)) ex).
    { rewrite !F2R_shift by lia. f_equal. lia. }
    assert (Ek' : F2R N k = F2R (N * 2 ^ (k - e1)) e1).
    { rewrite F2R_shift by lia. f_equal. lia. }
    rewrite Ek in L. apply F2R_lt_inv in L. rewrite Ek'. apply F2R_le.
    apply Z.div_le_lower_bound; [assumption|]. lia.
  - assert (2 ^ 52 <= mx / 2 ^ (e1 - ex))%Z.
    { destruct (Z_lt_le_dec (mx / 2 ^ (e1 - ex)) (2 ^ 52)) as [l|]; [specialize (Sub l) |]; lia. }
    apply Rle_trans with (F2R (2 ^ 52) e1); [|apply F2R_le; assumption].
    apply Rle_trans with (F2R (2 ^ 53) k); [apply F2R_le; lia|].
    rewrite !F2R_pow by lia. apply bpow_le. lia.
Qed.

Lemma round_up_bound (mx ex : Z) :
  (0 <= mx)%Z -> (ex <= fexp prec emax (Zdigits2 mx + ex))%Z ->
  let e1 := fexp prec emax (Zdigits2 mx + ex) in
  F2R (mx / 2 ^ (e1 - ex) + 1) e1 <= F2R mx ex + bpow e1.
Proof.
  intros M H e1. fold e1 in H.
  assert (P : (0 < 2 ^ (e1 - ex))%Z) by (apply Z.pow_pos_nonneg; lia).
  pose proof (Z.mul_div_le mx _ P) as D.
  assert (F2R (mx / 2 ^ (e1 - ex)) e1 <= F2R mx ex).
  { replace e1 with (ex + (e1 - ex))%Z at 2 by lia. rewrite <- F2R_shift by lia.
    apply F2R_le. lia. }
  unfold F2R in *. rewrite plus_IZR. lra.
Qed.

(** ** Lower bounds through the operations *)

Lemma F2R_pos (m : positive) (e : Z) : 0 < F2R (Z.pos m) e.
Proof.
  unfold F2R. pose proof (bpow_gt_0 e).
  assert (1 <= IZR (Z.pos m)) by (apply IZR_le; lia). nra.
Qed.

Lemma round_lower (N k mx ex : Z) (lx : location) :
  (0 < N < 2 ^ 53)%Z -> (-1074 <= k)%Z -> (0 <= mx)%Z ->
  (ex <= fexp prec emax (Zdigits2 mx + ex))%Z ->
  F2R N k < F2R (mx + 1) ex ->
  lower (F2R N k) (binary_round_aux prec emax false mx ex lx).
Proof.
  intros HN K M H L.
  pose proof (floor_grid N k mx ex HN K M H L) as G. cbv zeta in G.
  pose proof (binary_round_aux_bounds false mx ex lx M H) as B. cbv zeta in B.
  assert (P : 0 < F2R N k).
  { unfold F2R. pose proof (bpow_gt_0 k).
    assert (1 <= IZR N) by (apply IZR_le; lia). nra. }
  destruct (binary_round_aux prec emax false mx ex lx) as [s|s| |s m e]; cbn.
  - destruct B as [_ B]. rewrite B in G. unfold F2R in G at 2. lra.
  - destruct B as [-> _]. exact I.
  - exact B.
  - destruct B as [-> [B _]]. lra.
Qed.

Lemma bounded_facts (m : positive) (e : Z) :
  SpecFloat.bounded prec emax m e = true ->
  (-1074 <= e <= 971)%Z /\ (0 < Zdigits2 (Z.pos m) <= 53)%Z /\
  (e = (-1074)%Z \/ Zdigits2 (Z.pos m) = 53%Z) /\
  fexp prec emax (Zdigits2 (Z.pos m) + e) = e.
Proof.
  unfold SpecFloat.bounded, canonical_mantissa. intros H. apply andb_true_iff in H.
  destruct H as [C B]. apply Z.eqb_eq in C. apply Z.leb_le in B.
  change (emax - prec)%Z with 971%Z in B.
  change (Z.pos (digits2_pos m)) with (Zdigits2 (Z.pos m)) in C.
  pose proof (Zdigits2_pos (Z.pos m) ltac:(lia)).
  rewrite fexp_eq in *. lia.
Qed.

Lemma bounded_value (m : positive) (e : Z) :
  SpecFloat.bounded prec emax m e = true ->
  bpow (Zdigits2 (Z.pos m) + e - 1) <= F2R (Z.pos m) e < bpow (Zdigits2 (Z.pos m) + e).
Proof.
  intros _. destruct (Zdigits2_bounds (Z.pos m) ltac:(lia)) as [L U].
  pose proof (Zdigits2_pos (Z.pos m) ltac:(lia)) as D.
  split.
  - replace (Zdigits2 (Z.pos m) + e - 1)%Z with ((Zdigits2 (Z.pos m) - 1) + e)%Z by lia.
    rewrite <- F2R_pow by lia. now apply F2R_le.
  - rewrite <- F2R_pow by lia. now apply F2R_lt.
Qed.

(** *** Squares *)

Lemma square_grid (m : positive) (e : Z) :
  SpecFloat.bounded prec emax m e = true ->
  (e + e <= fexp prec emax (Zdigits2 (Z.pos (m * m)) + (e + e)))%Z
  /\ (2 ^ (2 * Zdigits2 (Z.pos m) - 2) <= Z.pos (m * m))%Z.
Proof.
  intros B. destruct (bounded_facts m e B) as [E [D [C _]]].
  destruct (Zdigits2_bounds (Z.pos m) ltac:(lia)) as [L _].
  assert (S : (2 ^ (2 * Zdigits2 (Z.pos m) - 2) <= Z.pos (m * m))%Z).
  { replace (2 * Zdigits2 (Z.pos m) - 2)%Z
      with ((Zdigits2 (Z.pos m) - 1) + (Zdigits2 (Z.pos m) - 1))%Z by lia.
    rewrite Z.pow_add_r by lia. rewrite Pos2Z.inj_mul.
    assert (0 < 2 ^ (Zdigits2 (Z.pos m) - 1))%Z by (apply Z.pow_pos_nonneg; lia).
    nia. }
  split; [|exact S].
  pose proof (Zdigits2_ge (Z.pos (m * m)) (2 * Zdigits2 (Z.pos m) - 2) ltac:(lia) S).
  rewrite fexp_eq. lia.
Qed.

Lemma mul_square_sign (s : bool) (m : positive) (e : Z) :
  SpecFloat.bounded prec emax m e = true ->
  match SFmul prec emax (S754_finite s m e) (S754_finite s m e) with
  | S754_zero false | S754_infinity false => True
  | S754_finite false m' e' => True
  | _ => False
  end.
Proof.
  intros B. cbn [SFmul]. rewrite xorb_nilpotent.
  destruct (square_grid m e B) as [G _].
  pose proof (binary_round_aux_bounds false (Z.pos (m * m)) (e + e) loc_Exact
                ltac:(lia) G) as A. cbv zeta in A.
  destruct (binary_round_aux _ _ _ _ _ _) as [t|t| |t m' e']; try tauto;
    destruct A as [-> _]; exact I.
Qed.

Lemma mul_square_lower (s : bool) (m : positive) (e : Z) :
  SpecFloat.bounded prec emax m e = true ->
  (-1074 <= 2 * (Zdigits2 (Z.pos m) + e) - 2)%Z ->
  lower (F2R 1 (2 * (Zdigits2 (Z.pos m) + e) - 2))
    (SFmul prec emax (S754_finite s m e) (S754_finite s m e)).
Proof.
  intros B K. cbn [SFmul]. rewrite xorb_nilpotent.
  destruct (square_grid m e B) as [G S].
  apply round_lower; try assumption; try lia.
  apply Rle_lt_trans with (F2R (Z.pos (m * m)) (e + e)); [|apply F2R_lt; lia].
  apply Rle_trans with (F2R (2 ^ (2 * Zdigits2 (Z.pos m) - 2)) (e + e));
    [|now apply F2R_le].
  pose proof (Zdigits2_pos (Z.pos m) ltac:(lia)).
  rewrite F2R_pow by lia. unfold F2R. rewrite Rmult_1_l. apply bpow_le. lia.
Qed.

(** *** Sums *)

Lemma Zdigits2_mul_pow (m k : Z) :
  (0 < m)%Z -> (0 <= k)%Z -> Zdigits2 (m * 2 ^ k) = (Zdigits2 m + k)%Z.
Proof.
  intros M K. destruct (Zdigits2_bounds m M) as [L U].
  pose proof (Zdigits2_pos m M) as D.
  assert (P : (0 < 2 ^ k)%Z) by (apply Z.pow_pos_nonneg; lia).
  apply Z.le_antisymm.
  - apply Zdigits2_le; [lia|]. split; [nia|].
    rewrite Z.pow_add_r by lia. nia.
  - assert (A : (2 ^ (Zdigits2 m + k - 1) <= m * 2 ^ k)%Z).
    { replace (Zdigits2 m + k - 1)%Z with ((Zdigits2 m - 1) + k)%Z by lia.
      rewrite Z.pow_add_r by lia. nia. }
    pose proof (Zdigits2_ge (m * 2 ^ k) (Zdigits2 m + k - 1) ltac:(lia) A). lia.
Qed.

Lemma shl_align_spec (m : positive) (e t : Z) :
  F2R (Z.pos (fst (shl_align m e t))) (snd (shl_align m e t)) = F2R (Z.pos m) e
  /\ snd (shl_align m e t) = Z.min e t
  /\ (Zdigits2 (Z.pos (fst (shl_align m e t))) + snd (shl_align m e t)
      = Zdigits2 (Z.pos m) + e)%Z.
Proof.
  unfold shl_align. destruct (t - e)%Z as [|d|d] eqn:E; cbn [fst snd].
  - repeat split; lia.
  - repeat split; lia.
  - rewrite iter_xO. split; [|split].
    + rewrite F2R_shift by lia. f_equal. lia.
    + lia.
    + rewrite Zdigits2_mul_pow by lia. lia.
Qed.

Lemma binary_round_lower (N k : Z) (m : positive) (e : Z) :
  (0 < N < 2 ^ 53)%Z -> (-1074 <= k)%Z ->
  F2R N k <= F2R (Z.pos m) e ->
  lower (F2R N k) (binary_round prec emax false m e).
Proof.
  intros HN K L. unfold binary_round.
  destruct (shl_align_spec m e (fexp prec emax (Z.pos (digits2_pos m) + e)))
    as [V [X D]].
  destruct (shl_align m e _) as [mz ez]. cbn [fst snd] in V, X, D.
  apply round_lower; try assumption; try lia.
  - rewrite D. change (Zdigits2 (Z.pos m)) with (Z.pos (digits2_pos m)). lia.
  - rewrite <- V in L. apply Rle_lt_trans with (1 := L). apply F2R_lt. lia.
Qed.

Lemma add_lower (j j' k : Z) (x y : spec_float) :
  (0 < j)%Z -> (0 < j')%Z -> (j + j' < 2 ^ 53)%Z -> (-1074 <= k)%Z ->
  lower (F2R j k) x -> lower (F2R j' k) y ->
  lower (F2R (j + j') k) (SFadd prec emax x y).
Proof.
  intros J J' B K.
  destruct x as [s|[]| |[] m1 e1]; cbn [lower]; try tauto;
    destruct y as [s'|[]| |[] m2 e2]; cbn [lower]; try tauto.
  intros L1 L2. cbn [SFadd cond_Zopp].
  destruct (shl_align_spec m1 e1 (Z.min e1 e2)) as [V1 [X1 _]].
  destruct (shl_align_spec m2 e2 (Z.min e1 e2)) as [V2 [X2 _]].
  change (IntDef.Z.min e1 e2) with (Z.min e1 e2).
  destruct (shl_align m1 e1 _) as [a1 z1]. destruct (shl_align m2 e2 _) as [a2 z2].
  cbn [fst snd] in *.
  replace z1 with (Z.min e1 e2) in V1 by lia.
  replace z2 with (Z.min e1 e2) in V2 by lia.
  change (Z.pos a1 + Z.pos a2)%Z with (Z.pos (a1 + a2)). cbn [binary_normalize].
  apply binary_round_lower; try lia.
  rewrite Pos2Z.inj_add. unfold F2R in *. rewrite !plus_IZR. lra.
Qed.


(** *** Quotients *)

Lemma shifted_mantissa (m s : Z) :
  (0 <= s)%Z ->
  match s with
  | 0%Z => m
  | Z.pos _ => IntDef.Z.shiftl m s
  | Z.neg _ => 0%Z
  end = (m * 2 ^ s)%Z.
Proof.
  intros S. destruct s as [|p|p]; [lia | | lia].
  change (IntDef.Z.shiftl m (Z.pos p)) with (Z.shiftl m (Z.pos p)).
  now rewrite Z.shiftl_mul_pow2.
Qed.

Lemma div_core_spec (m1 m2 : positive) (e1 e2 : Z) :
  exists q e' l,
    SFdiv_core_binary prec emax (Z.pos m1) e1 (Z.pos m2) e2 = (q, e', l)
    /\ (0 <= q)%Z
    /\ (e' <= fexp prec emax (Zdigits2 q + e'))%Z
    /\ F2R q e' * F2R (Z.pos m2) e2 <= F2R (Z.pos m1) e1
    /\ F2R (Z.pos m1) e1 < F2R (q + 1) e' * F2R (Z.pos m2) e2.
Proof.
  unfold SFdiv_core_binary. cbv zeta.
  set (d1 := Zdigits2 (Z.pos m1)). set (d2 := Zdigits2 (Z.pos m2)).
  change (IntDef.Z.min ?a ?b) with (Z.min a b).
  set (e' := Z.min (fexp prec emax (d1 + e1 - (d2 + e2))) (e1 - e2)).
  set (s := (e1 - e2 - e')%Z).
  assert (S : (0 <= s)%Z) by (unfold s, e'; lia).
  rewrite (shifted_mantissa (Z.pos m1) s S).
  change (IntDef.Z.div_eucl ?a ?b) with (Z.div_eucl a b).
  pose proof (Z_div_mod (Z.pos m1 * 2 ^ s) (Z.pos m2) ltac:(lia)) as DM.
  destruct (Z.div_eucl (Z.pos m1 * 2 ^ s) (Z.pos m2)) as [q r].
  destruct DM as [DM [R0 R1]].
  assert (P : (0 < 2 ^ s)%Z) by (apply Z.pow_pos_nonneg; lia).
  assert (Q : (0 <= q)%Z) by nia.
  exists q, e', (new_location (Z.pos m2) r).
  split; [reflexivity|]. split; [exact Q|].
  assert (V : F2R (Z.pos m1) e1 = F2R (Z.pos m1 * 2 ^ s) e' * bpow e2).
  { rewrite F2R_shift by assumption. unfold F2R. rewrite Rmult_assoc, <- bpow_add.
    do 2 f_equal. unfold s. lia. }
  split; [|split].
  - destruct (Zdigits2_bounds (Z.pos m1) ltac:(lia)) as [L1 _].
    destruct (Zdigits2_bounds (Z.pos m2) ltac:(lia)) as [_ U2].
    fold d1 in L1. fold d2 in U2.
    pose proof (Zdigits2_pos (Z.pos m1) ltac:(lia)) as D1. fold d1 in D1.
    pose proof (Zdigits2_pos (Z.pos m2) ltac:(lia)) as D2. fold d2 in D2.
    destruct (Z_le_gt_dec 0 (d1 - 1 + s - d2)) as [G|G].
    + assert (A : (2 ^ (d1 - 1 + s - d2) <= q)%Z).
      { assert (T : (2 ^ (d1 - 1 + s - d2) * Z.pos m2 <= Z.pos m1 * 2 ^ s)%Z).
        { apply Z.le_trans with (2 ^ (d1 - 1 + s - d2) * 2 ^ d2)%Z.
          - assert (0 < 2 ^ (d1 - 1 + s - d2))%Z by (apply Z.pow_pos_nonneg; lia). nia.
          - rewrite <- Z.pow_add_r by lia.
            replace (d1 - 1 + s - d2 + d2)%Z with ((d1 - 1) + s)%Z by lia.
            rewrite Z.pow_add_r by lia. nia. }
        assert (0 < 2 ^ (d1 - 1 + s - d2))%Z by (apply Z.pow_pos_nonneg; lia).
        nia. }
      pose proof (Zdigits2_ge q (d1 - 1 + s - d2) G A) as DQ.
      clear - DQ G. subst s e'. rewrite !fexp_eq in *. lia.
    + pose proof (Zdigits2_nonneg q) as DQ.
      clear - DQ G. subst s e'. rewrite !fexp_eq in *. lia.
  - rewrite V. unfold F2R. rewrite DM.
    pose proof (bpow_gt_0 e'). pose proof (bpow_gt_0 e2).
    rewrite plus_IZR, !mult_IZR.
    assert (0 <= IZR r) by (apply IZR_le; lia).
    assert (0 < bpow e' * bpow e2) by nra. nra.
  - rewrite V. unfold F2R. rewrite DM.
    pose proof (bpow_gt_0 e'). pose proof (bpow_gt_0 e2).
    rewrite !plus_IZR, !mult_IZR.
    assert (IZR r < IZR (Z.pos m2)) by (apply IZR_lt; lia).
    assert (0 < bpow e' * bpow e2) by nra. nra.
Qed.

Lemma div_lower (N k : Z) (m1 m2 : positive) (e1 e2 : Z) :
  (0 < N < 2 ^ 53)%Z -> (-1074 <= k)%Z ->
  F2R N k * F2R (Z.pos m2) e2 <= F2R (Z.pos m1) e1 ->
  lower (F2R N k)
    (SFdiv prec emax (S754_finite false m1 e1) (S754_finite false m2 e2)).
Proof.
  intros HN K L. cbn [SFdiv xorb].
  destruct (div_core_spec m1 m2 e1 e2) as [q [e' [l [E [Q [G [_ U]]]]]]].
  rewrite E. apply round_lower; try assumption.
  pose proof (F2R_pos m2 e2). nra.
Qed.

Lemma div_upper (s1 s2 : bool) (m1 m2 : positive) (e1 e2 : Z) :
  F2R (Z.pos m1) e1 < 2 * F2R (Z.pos m2) e2 ->
  match SFdiv prec emax (S754_finite s1 m1 e1) (S754_finite s2 m2 e2) with
  | S754_zero _ => True
  | S754_finite _ m e => F2R (Z.pos m) e < 3
  | _ => False
  end.
Proof.
  intros H. cbn [SFdiv].
  destruct (div_core_spec m1 m2 e1 e2) as [q [e' [l [E [Q [G [L _]]]]]]].
  rewrite E.
  pose proof (binary_round_aux_bounds (xorb s1 s2) q e' l Q G) as B. cbv zeta in B.
  pose proof (round_up_bound q e' Q G) as U. cbv zeta in U.
  pose proof (F2R_pos m2 e2) as Y.
  assert (X : F2R q e' < 2) by nra.
  assert (D : (Zdigits2 q + e' <= 1)%Z).
  { destruct (Z.eq_dec q 0) as [->|NZ].
    - cbn [Zdigits2] in *. rewrite fexp_eq in G. lia.
    - destruct (Zdigits2_bounds q ltac:(lia)) as [Lq _].
      pose proof (Zdigits2_pos q ltac:(lia)).
      destruct (Z_le_gt_dec (Zdigits2 q + e') 1) as [|T]; [assumption|].
      assert (bpow 1 <= F2R q e').
      { apply Rle_trans with (F2R (2 ^ (Zdigits2 q - 1)) e'); [|now apply F2R_le].
        rewrite F2R_pow by lia. apply bpow_le. lia. }
      change (bpow 1) with (2 * 1) in *. lra. }
  assert (W : bpow (fexp prec emax (Zdigits2 q + e')) <= 1).
  { change 1 with (bpow 0). apply bpow_le. rewrite fexp_eq. lia. }
  destruct (binary_round_aux _ _ _ _ _ _) as [t|t| |t m e]; try tauto.
  - destruct B as [_ B].
    assert (bpow 2 <= bpow 1024) by (apply bpow_le; lia).
    change (bpow 2) with (2 * (2 * 1)) in *. lra.
  - destruct B as [_ [_ B]]. lra.
Qed.

(** *** Square roots *)

Lemma sqrt_grid_arith (d e dq : Z) :
  (0 < d)%Z ->
  ((d - 1 + (e - 2 * Z.min (Z.max ((d + e + 1) / 2 - 53) (-1074)) (e / 2))) / 2
   < dq)%Z ->
  (Z.min (Z.max ((d + e + 1) / 2 - 53) (-1074)) (e / 2)
   <= Z.max (dq + Z.min (Z.max ((d + e + 1) / 2 - 53) (-1074)) (e / 2) - 53)
        (-1074))%Z.
Proof.
  intros D. set (h := ((d + e + 1) / 2)%Z).
  set (e' := Z.min (Z.max (h - 53) (-1074)) (e / 2)).
  assert ((d - 1 + (e - 2 * e')) / 2 = h - 1 - e')%Z as ->.
  { unfold h. clearbody e'. Z.div_mod_to_equations. lia. }
  unfold e'. lia.
Qed.

Lemma sqrt_core_spec (m : positive) (e : Z) :
  exists q e' l,
    SFsqrt_core_binary prec emax (Z.pos m) e = (q, e', l)
    /\ (0 <= q)%Z
    /\ (e' <= fexp prec emax (Zdigits2 q + e'))%Z
    /\ F2R (Z.pos m) e < F2R (q + 1) e' * F2R (q + 1) e'.
Proof.
  unfold SFsqrt_core_binary. cbv zeta.
  set (d := Zdigits2 (Z.pos m)).
  change (IntDef.Z.min ?a ?b) with (Z.min a b).
  change (IntDef.Z.div2 ?a) with (Z.div2 a).
  rewrite !Z.div2_div.
  set (e' := Z.min (fexp prec emax ((d + e + 1) / 2)) (e / 2)).
  set (s := (e - 2 * e')%Z).
  assert (S : (0 <= s)%Z) by (unfold s, e'; Z.div_mod_to_equations; lia).
  rewrite (shifted_mantissa (Z.pos m) s S).
  change (IntDef.Z.sqrtrem ?a) with (Z.sqrtrem a).
  pose proof (Z.sqrtrem_spec (Z.pos m * 2 ^ s) ltac:(lia)) as SR.
  destruct (Z.sqrtrem (Z.pos m * 2 ^ s)) as [q r].
  destruct SR as [SR [R0 R1]].
  assert (P : (0 < 2 ^ s)%Z) by (apply Z.pow_pos_nonneg; lia).
  assert (Q : (0 <= q)%Z).
  { destruct (Z_le_gt_dec 0 q); [assumption | nia]. }
  eexists q, e', _. split; [reflexivity|]. split; [exact Q|].
  split.
  - destruct (Zdigits2_bounds (Z.pos m) ltac:(lia)) as [L1 _]. fold d in L1.
    pose proof (Zdigits2_pos (Z.pos m) ltac:(lia)) as D1. fold d in D1.
    set (u := ((d - 1 + s) / 2)%Z).
    assert (U0 : (0 <= u)%Z) by (unfold u; apply Z.div_pos; lia).
    assert (U1 : (u + u <= d - 1 + s)%Z) by (unfold u; Z.div_mod_to_equations; lia).
    assert (A : (2 ^ u <= q)%Z).
    { assert (T : (2 ^ u * 2 ^ u <= Z.pos m * 2 ^ s)%Z).
      { rewrite <- Z.pow_add_r by lia.
        apply Z.le_trans with (2 ^ (d - 1 + s))%Z;
          [apply Z.pow_le_mono_r; lia|].
        rewrite Z.pow_add_r by lia. nia. }
      assert (0 < 2 ^ u)%Z by (apply Z.pow_pos_nonneg; lia).
      destruct (Z_le_gt_dec (2 ^ u) q); [assumption | nia]. }
    pose proof (Zdigits2_ge q u U0 A) as DQ.
    clear - DQ D1. subst u s e'. rewrite !fexp_eq in *.
    exact (sqrt_grid_arith d e (Zdigits2 q) D1 DQ).
  - assert (V : F2R (Z.pos m) e = F2R (Z.pos m * 2 ^ s) e' * bpow e').
    { rewrite F2R_shift by assumption. unfold F2R. rewrite Rmult_assoc, <- bpow_add.
      do 2 f_equal. unfold s. lia. }
    rewrite V. unfold F2R. pose proof (bpow_gt_0 e').
    assert (K : IZR (Z.pos m * 2 ^ s) < IZR (q + 1) * IZR (q + 1))
      by (rewrite <- mult_IZR; apply IZR_lt; nia).
    replace (IZR (q + 1) * bpow e' * (IZR (q + 1) * bpow e'))
      with (IZR (q + 1) * IZR (q + 1) * (bpow e' * bpow e')) by ring.
    rewrite Rmult_assoc. apply Rmult_lt_compat_r; [nra | exact K].
Qed.

Lemma sqrt_lower (t : Z) (m : positive) (e : Z) :
  (-1074 <= t)%Z -> bpow (2 * t) <= F2R (Z.pos m) e ->
  lower (F2R 1 t) (SFsqrt prec emax (S754_finite false m e)).
Proof.
  intros T L. cbn [SFsqrt].
  destruct (sqrt_core_spec m e) as [q [e' [l [E [Q [G U]]]]]].
  rewrite E. apply round_lower; try assumption; try lia.
  assert (B : bpow (2 * t) = F2R 1 t * F2R 1 t).
  { replace (2 * t)%Z with (t + t)%Z by lia. rewrite bpow_add. unfold F2R. ring. }
  assert (0 < F2R 1 t) by (unfold F2R; pose proof (bpow_gt_0 t); lra).
  assert (0 < F2R (q + 1) e').
  { unfold F2R. pose proof (bpow_gt_0 e').
    assert (1 <= IZR (q + 1)) by (apply IZR_le; lia). nra. }
  destruct (Rlt_le_dec (F2R 1 t) (F2R (q + 1) e')) as [|C]; [assumption|].
  exfalso. nra.
Qed.

(** *** The threshold *)

Lemma three_not_below (x : spec_float) :
  SpecFloat.valid_binary prec emax x = true ->
  match x with
  | S754_zero _ => True
  | S754_finite _ m e => F2R (Z.pos m) e < 3
  | _ => False
  end ->
  SFltb (S754_finite false 6755399441055744 (-51)) (SFabs x) = false.
Proof.
  intros V H. destruct x as [s|s| |s m e]; try tauto; try reflexivity.
  cbn [SFabs]. unfold SFltb. cbn [SFcompare]. cbn [SpecFloat.valid_binary] in V.
  destruct (bounded_facts m e V) as [E [D [C _]]].
  assert (T : F2R 6755399441055744 (-51) = 3).
  { change 6755399441055744%Z with (3 * 2 ^ 51)%Z. rewrite F2R_shift by lia.
    unfold F2R. cbn. lra. }
  destruct (Z.compare_spec (-51) e) as [<- | Lt | Gt]; try reflexivity.
  - rewrite Pos.compare_cont_spec. cbn [Pos.switch_Eq].
    destruct (Pos.compare_spec 6755399441055744 m) as [|Lt|]; try reflexivity.
    exfalso. assert (F2R 6755399441055744 (-51) < F2R (Z.pos m) (-51))
      by (apply F2R_lt; lia). lra.
  - exfalso. destruct (Zdigits2_bounds (Z.pos m) ltac:(lia)) as [L _].
    assert (bpow 2 <= F2R (Z.pos m) e).
    { apply Rle_trans with (F2R (2 ^ (Zdigits2 (Z.pos m) - 1)) e); [|now apply F2R_le].
      rewrite F2R_pow by lia. apply bpow_le. lia. }
    change (bpow 2) with (2 * (2 * 1)) in *. lra.
Qed.

(** *** Differences, both ways round *)

Lemma binary_round_opp (m : positive) (e : Z) :
  binary_round prec emax true m e = SFopp (binary_round prec emax false m e).
Proof.
  unfold binary_round. destruct (shl_align m e _) as [mz ez].
  unfold binary_round_aux. destruct (shr_fexp prec emax (Z.pos mz) ez loc_Exact) as [r1 e1].
  destruct (shr_fexp prec emax _ e1 loc_Exact) as [r2 e2].
  destruct (shr_m r2); try reflexivity.
  destruct (e2 <=? emax - prec)%Z; reflexivity.
Qed.

Lemma binary_normalize_opp (m e : Z) :
  m <> 0%Z ->
  binary_normalize prec emax (- m) e false
  = SFopp (binary_normalize prec emax m e false).
Proof.
  intros N. destruct m as [|p|p]; [congruence | |]; cbn [Z.opp binary_normalize].
  - apply binary_round_opp.
  - rewrite binary_round_opp. now destruct (binary_round prec emax false p e) as [[]|[]| |[] ? ?].
Qed.

Lemma SFsub_swap (x y : spec_float) :
  match SFsub prec emax x y with
  | S754_finite s m e => SFsub prec emax y x = S754_finite (negb s) m e
  | S754_infinity s => SFsub prec emax y x = S754_infinity (negb s)
  | _ => True
  end.
Proof.
  destruct x as [sx|sx| |sx mx ex], y as [sy|sy| |sy my ey];
    try (destruct sx, sy; reflexivity); try (destruct sx; reflexivity);
    try (destruct sy; reflexivity); try exact I.
  cbn [SFsub]. change (IntDef.Z.min ?a ?b) with (Z.min a b).
  rewrite (Z.min_comm ey ex).
  set (A := cond_Zopp sx (Z.pos (fst (shl_align mx ex (Z.min ex ey))))).
  set (B := cond_Zopp sy (Z.pos (fst (shl_align my ey (Z.min ex ey))))).
  destruct (Z.eq_dec (A - B) 0) as [E|N].
  - rewrite E. exact I.
  - replace (B - A)%Z with (- (A - B))%Z by lia.
    rewrite (binary_normalize_opp _ _ N).
    destruct (binary_normalize prec emax (A - B) (Z.min ex ey) false)
      as [s|s| |s m e]; try exact I; reflexivity.
Qed.

Lemma binary_normalize_value (p : positive) :
  (Z.pos p < 2 ^ 53)%Z ->
  exists m e,
    binary_normalize prec emax (Z.pos p) 0 false = S754_finite false m e
    /\ F2R (Z.pos m) e = IZR (Z.pos p).
Proof.
  intros B. destruct (binary_normalize_exact p B) as [m [e [N [E V]]]].
  exists m, e. split; [exact N|]. rewrite V, F2R_shift by lia.
  replace (e + - e)%Z with 0%Z by lia. unfold F2R. cbn. lra.
Qed.

End RoundingFacts.

(* ================================================================== *)
(** * Facts about the reductions *)

Module ReductionFacts.
Import Float64 Pandas FloatFacts.
Local Open Scope float_scope.

Lemma count_le_length (x : list float) : (count x <= List.length x)%nat.
Proof. unfold count. apply filter_length_le. Qed.

Lemma count_zeros (x : list float) :
  Forall (fun v => is_zero v = true) x -> count x = List.length x.
Proof.
  unfold count. induction 1 as [|v x Hv _ IH]; simpl; [reflexivity|].
  rewrite (is_zero_not_nan v Hv). simpl. now rewrite IH.
Qed.

(** A series of at most one value has no sample deviation. *)
Lemma std_short (x : list float) : (List.length x <= 1)%nat -> std x = nan.
Proof.
  intros H. unfold std, var_ddof.
  pose proof (count_le_length x) as L.
  destruct (Nat.leb_spec (count x) 1) as [_|G]; [reflexivity | lia].
Qed.

Section Constant.
Context (v : float) (x : list float).
Hypothesis constant : Forall (eq v) x.
Hypothesis exact_mean : mean x = v.

Lemma var_constant : zero_or_nan (var_ddof 1 x) = true.
Proof.
  unfold var_ddof. destruct (Nat.leb_spec (count x) 1) as [_|G];
    [reflexivity|].
  assert (A : nansum x / float_of_nat (count x) = v).
  { pose proof exact_mean as M. unfold mean in M.
    destruct (Nat.eqb_spec (count x) 0); [lia | exact M]. }
  rewrite A. apply div_zero_or_nan_l, fsum_zero_or_nan.
  apply Forall_map. eapply Forall_impl; [|exact constant].
  intros w <-. destruct (is_nan v); [reflexivity|].
  apply mul_zero_or_nan; apply sub_diag_zero_or_nan.
Qed.

Lemma std_constant : zero_or_nan (std x) = true.
Proof. apply sqrt_zero_or_nan, var_constant. Qed.

End Constant.

Section Zeros.
Context (r : list float).
Hypothesis zeros : Forall (fun v => is_zero v = true) r.

Lemma nansum_zeros : is_zero (nansum r) = true.
Proof.
  unfold nansum. apply fsum_is_zero, Forall_map.
  eapply Forall_impl; [|exact zeros].
  intros v Hv. now rewrite (is_zero_not_nan v Hv).
Qed.

(** Whatever the number of records, the deviation of an all-zero series
    is zero or NaN. *)
Lemma std_zeros_zero_or_nan : zero_or_nan (std r) = true.
Proof.
  unfold std, var_ddof. apply sqrt_zero_or_nan.
  destruct (count r <=? 1)%nat; [reflexivity|].
  apply div_zero_or_nan_l, fsum_zero_or_nan, Forall_map.
  eapply Forall_impl; [|exact zeros].
  intros v Hv. rewrite (is_zero_not_nan v Hv).
  assert (D : zero_or_nan (nansum r / float_of_nat (count r) - v) = true).
  { apply sub_zero_or_nan.
    - apply div_zero_or_nan_l, is_zero_zero_or_nan, nansum_zeros.
    - now apply is_zero_zero_or_nan. }
  now apply mul_zero_or_nan.
Qed.

(** With at least two records the deviation is exactly [+0]. *)
Lemma std_zeros :
  (2 <= List.length r)%nat -> (Z.of_nat (List.length r) < 2 ^ 53)%Z ->
  std r = zero.
Proof.
  intros H2 HB. unfold std, var_ddof. rewrite (count_zeros r zeros).
  destruct (Nat.leb_spec (List.length r) 1) as [L|_]; [lia|].
  destruct (float_of_nat_pos (List.length r)) as [m [e E]]; [lia | lia |].
  destruct (float_of_nat_pos (List.length r - 1)) as [m' [e' E']];
    [lia | lia |].
  assert (S : fsum
                (map (fun v => if is_nan v then 0
                               else (nansum r / float_of_nat (List.length r) - v)
                                    * (nansum r / float_of_nat (List.length r) - v))
                     r) = zero).
  { apply fsum_zeros, Forall_map. eapply Forall_impl; [|exact zeros].
    intros v Hv. rewrite (is_zero_not_nan v Hv). symmetry.
    apply square_is_zero, sub_is_zero; [|exact Hv].
    eapply div_is_zero; [apply nansum_zeros | exact E]. }
  rewrite S, (zero_div_positive _ m' e' E'). reflexivity.
Qed.

End Zeros.

End ReductionFacts.

(* ================================================================== *)
(** * Facts about frames *)

Module PandasFacts.
Import Float64 Pandas.

Lemma existsb_eqb_In (c : string) (l : list string) :
  existsb (String.eqb c) l = true <-> In c l.
Proof.
  rewrite existsb_exists. split.
  - intros [x [Hin Heq]]. apply String.eqb_eq in Heq. now subst.
  - intros Hin. exists c. split; [assumption | apply String.eqb_refl].
Qed.

Lemma lookup_assign_same (c : string) (s : Series) (l : list (string * Series)) :
  lookup c (assign c s l) = Some s.
Proof.
  induction l as [|[k old] rest IH]; simpl.
  - now rewrite String.eqb_refl.
  - destruct (String.eqb c k) eqn:E; simpl; rewrite E; [reflexivity | exact IH].
Qed.

Lemma lookup_assign_other (c c' : string) (s : Series)
    (l : list (string * Series)) :
  c' <> c -> lookup c' (assign c s l) = lookup c' l.
Proof.
  intros Hne. apply String.eqb_neq in Hne.
  induction l as [|[k old] rest IH]; simpl.
  - now rewrite Hne.
  - destruct (String.eqb c k) eqn:E; simpl.
    + apply String.eqb_eq in E. subst k. now rewrite Hne.
    + now rewrite IH.
Qed.

Lemma getitem_setitem_same (d : DataFrame) (c : string) (s : Series) :
  getitem (setitem d c s) c = Some s.
Proof. apply lookup_assign_same. Qed.

Lemma getitem_setitem_other (d : DataFrame) (c c' : string) (s : Series) :
  c' <> c -> getitem (setitem d c s) c' = getitem d c'.
Proof. apply lookup_assign_other. Qed.

Lemma columns_assign (c : string) (s : Series) (l : list (string * Series)) :
  map fst (assign c s l)
  = if existsb (String.eqb c) (map fst l) then map fst l else map fst l ++ [c].
Proof.
  induction l as [|[k old] rest IH]; simpl; [reflexivity|].
  destruct (String.eqb c k); simpl; [reflexivity|].
  rewrite IH. now destruct (existsb (String.eqb c) (map fst rest)).
Qed.

Lemma columns_setitem (d : DataFrame) (c : string) (s : Series) :
  columns (setitem d c s)
  = if has_column d c then columns d else columns d ++ [c].
Proof. apply columns_assign. Qed.

Lemma has_column_setitem_other (d : DataFrame) (c c' : string) (s : Series) :
  c' <> c -> has_column (setitem d c s) c' = has_column d c'.
Proof.
  intros Hne. unfold has_column. rewrite columns_setitem.
  destruct (has_column d c); [reflexivity|].
  rewrite existsb_app. simpl.
  apply String.eqb_neq in Hne. rewrite Hne. now rewrite !orb_false_r.
Qed.

Lemma has_column_lookup (c : string) (l : list (string * Series)) :
  existsb (String.eqb c) (map fst l) = true -> exists s, lookup c l = Some s.
Proof.
  induction l as [|[k old] rest IH]; simpl; [discriminate|].
  destruct (String.eqb c k); simpl; eauto.
Qed.

Lemma has_column_getitem (d : DataFrame) (c : string) :
  has_column d c = true -> getitem d c = Some (series_column d c).
Proof.
  intros H. apply has_column_lookup in H. destruct H as [s Hs].
  unfold series_column, getitem. now rewrite Hs.
Qed.

Lemma select_block (d : DataFrame) (cols : list string) :
  (forall c, In c cols -> has_column d c = true) ->
  select d cols = Some (block d cols).
Proof.
  induction cols as [|c rest IH]; intros H; simpl; [reflexivity|].
  rewrite (has_column_getitem d c) by (apply H; now left).
  rewrite IH by (intros; apply H; now right). reflexivity.
Qed.

Lemma select_frame_block (d : DataFrame) (cols : list string) :
  (forall c, In c cols -> has_column d c = true) ->
  select_frame d cols = Some (frame_block d cols).
Proof.
  induction cols as [|c rest IH]; intros H; simpl; [reflexivity|].
  rewrite (has_column_getitem d c) by (apply H; now left).
  rewrite IH by (intros; apply H; now right). reflexivity.
Qed.

Lemma series_column_setitem_other (d : DataFrame) (c c' : string) (s : Series) :
  c' <> c -> series_column (setitem d c s) c' = series_column d c'.
Proof. intros H. unfold series_column. now rewrite getitem_setitem_other. Qed.

Lemma float_column_setitem_other (d : DataFrame) (c c' : string) (s : Series) :
  c' <> c -> float_column (setitem d c s) c' = float_column d c'.
Proof. intros H. unfold float_column. now rewrite series_column_setitem_other. Qed.

Lemma block_setitem_other (d : DataFrame) (c : string) (s : Series)
    (cols : list string) :
  ~ In c cols -> block (setitem d c s) cols = block d cols.
Proof.
  intros H. unfold block. apply map_ext_in. intros c' Hin.
  apply float_column_setitem_other. intros ->. contradiction.
Qed.

Lemma frame_block_setitem_other (d : DataFrame) (c : string) (s : Series)
    (cols : list string) :
  ~ In c cols -> frame_block (setitem d c s) cols = frame_block d cols.
Proof.
  intros H. unfold frame_block. apply map_ext_in. intros c' Hin.
  rewrite series_column_setitem_other; [reflexivity|].
  intros ->. contradiction.
Qed.

Lemma map2_length {A B C} (f : A -> B -> C) (a : list A) (b : list B) :
  List.length (map2 f a b) = Nat.min (List.length a) (List.length b).
Proof.
  revert b. induction a as [|x a IH]; intros [|y b]; simpl; auto.
Qed.

Lemma map2_nth_error {A B C} (f : A -> B -> C) (a : list A) (b : list B)
    (i : nat) (x : A) (y : B) :
  nth_error a i = Some x -> nth_error b i = Some y ->
  nth_error (map2 f a b) i = Some (f x y).
Proof.
  revert b i. induction a as [|x0 a IH]; intros [|y0 b] [|i]; simpl;
    try discriminate.
  - now intros [= ->] [= ->].
  - apply IH.
Qed.

End PandasFacts.

(* ================================================================== *)
(** * Executing the script *)

Module ScriptFacts.
Import Float64 Pandas Sklearn Script PandasFacts.
Local Open Scope script_scope.

(** Membership of two concrete name lists at once is contradictory. *)
Ltac names_differ :=
  simpl; intros H1 H2;
  repeat (destruct H1 as [<- | H1]; [| try contradiction]);
  repeat (destruct H2 as [H2 | H2]; [discriminate H2 |]);
  try contradiction.

Lemma present_In (cols cands : list string) (c : string) :
  In c (present cols cands) <-> In c cands /\ In c cols.
Proof. unfold present. rewrite filter_In, existsb_eqb_In. tauto. Qed.

Lemma present_has_column (d : DataFrame) (cands : list string) (c : string) :
  In c (present (columns d) cands) -> has_column d c = true.
Proof. rewrite present_In. intros [_ H]. now apply existsb_eqb_In. Qed.

Lemma present_setitem (d : DataFrame) (c : string) (s : Series)
    (cands : list string) :
  ~ In c cands ->
  present (columns (setitem d c s)) cands = present (columns d) cands.
Proof.
  intros H. unfold present. apply filter_ext_in. intros c' Hin.
  apply (has_column_setitem_other d c c' s). intros ->. contradiction.
Qed.

Lemma filter_Subsequence {A : Type} (p : A -> bool) (l : list A) :
  Subsequence (filter p l) l.
Proof.
  induction l as [|a l IH]; simpl; [constructor|].
  destruct (p a); now constructor.
Qed.

Lemma present_same_members (cols cols' cands : list string) :
  (forall c, In c cols <-> In c cols') ->
  present cols cands = present cols' cands.
Proof.
  intros H. unfold present. apply filter_ext. intros c.
  apply eq_true_iff_eq. rewrite !existsb_eqb_In. apply H.
Qed.

(** ** One statement at a time *)

Section Steps.
Context {A B : Type}.

Lemma step_columns (k : list string -> Script B) (s : State) :
  bind get_columns k s = k (columns (df s)) s.
Proof. reflexivity. Qed.

Lemma step_nrows (k : nat -> Script B) (s : State) :
  bind get_nrows k s = k (nrows (df s)) s.
Proof. reflexivity. Qed.

Lemma step_when_false (b : bool) (m : Script unit) (k : unit -> Script B)
    (s : State) :
  b = false -> bind (when b m) k s = k tt s.
Proof. intros ->. reflexivity. Qed.

Lemma step_when_raise (b : bool) (e : Exception) (k : unit -> Script B)
    (s : State) :
  b = true -> bind (when b (raise e)) k s = (inl e, s).
Proof. intros ->. reflexivity. Qed.

Lemma step_emit (e : Event) (k : unit -> Script B) (s : State) :
  bind (emit e) k s = k tt (mkState (df s) (trace s ++ [e])).
Proof. reflexivity. Qed.

Lemma step_call_ok (c : Call) (r : Error + A) (a : A) (k : A -> Script B)
    (s : State) :
  r = inr a ->
  bind (call c r) k s = k a (mkState (df s) (trace s ++ [Called c])).
Proof. intros ->. reflexivity. Qed.

Lemma step_call_raise (c : Call) (r : Error + A) (e : Error)
    (k : A -> Script B) (s : State) :
  r = inl e ->
  bind (call c r) k s
  = (inl (SklearnError c e), mkState (df s) (trace s ++ [Called c])).
Proof. intros ->. reflexivity. Qed.

Lemma step_setcol (c : string) (v : Series) (k : unit -> Script B) (s : State) :
  bind (setcol c v) k s
  = k tt (mkState (setitem (df s) c v) (trace s ++ [SetColumn c v])).
Proof. reflexivity. Qed.

Lemma step_getcol (c : string) (v : Series) (k : Series -> Script B)
    (s : State) :
  getitem (df s) c = Some v -> bind (getcol c) k s = k v s.
Proof. intros H. unfold bind, getcol. now rewrite H. Qed.

Lemma step_get_block (cols : list string) (k : list (list float) -> Script B)
    (s : State) :
  (forall c, In c cols -> has_column (df s) c = true) ->
  bind (get_block cols) k s = k (block (df s) cols) s.
Proof. intros H. unfold bind, get_block. now rewrite select_block. Qed.

Lemma step_get_frame (cols : list string)
    (k : list (string * Series) -> Script B) (s : State) :
  (forall c, In c cols -> has_column (df s) c = true) ->
  bind (get_frame cols) k s = k (frame_block (df s) cols) s.
Proof. intros H. unfold bind, get_frame. now rewrite select_frame_block. Qed.

Lemma step_ints (v : list Z) (k : list Z -> Script B) (s : State) :
  bind (ints_of (Ints v)) k s = k v s.
Proof. reflexivity. Qed.

End Steps.

(** ** Column names of the script are pairwise distinct where it matters *)

Lemma derived_not_candidate (c : string) :
  In c derived_cols -> ~ In c candidate_cols.
Proof. unfold derived_cols, candidate_cols. names_differ. Qed.

Lemma derived_not_predictor (c : string) :
  In c derived_cols -> ~ In c reg_candidates.
Proof. unfold derived_cols, reg_candidates. names_differ. Qed.

Lemma key_cols_has_column (d : DataFrame) (c : string) :
  In c (key_cols d) -> has_column d c = true.
Proof. apply present_has_column. Qed.

Lemma key_cols_not_derived (d : DataFrame) (c : string) :
  In c derived_cols -> ~ In c (key_cols d).
Proof.
  intros H Hin. apply present_In in Hin.
  exact (derived_not_candidate c H (proj1 Hin)).
Qed.

Lemma reg_inputs_not_derived (d : DataFrame) (c : string) :
  In c derived_cols -> ~ In c (reg_inputs d).
Proof.
  intros H Hin. apply present_In in Hin.
  exact (derived_not_predictor c H (proj1 Hin)).
Qed.


Lemma has_column_setitem_mono (d : DataFrame) (c c' : string) (s : Series) :
  has_column d c' = true -> has_column (setitem d c s) c' = true.
Proof.
  intros H. unfold has_column at 1. rewrite columns_setitem.
  destruct (has_column d c); [assumption|].
  rewrite existsb_app. unfold has_column in H. rewrite H. reflexivity.
Qed.

Lemma In_derived (c : string) :
  existsb (String.eqb c) derived_cols = true -> In c derived_cols.
Proof. apply existsb_eqb_In. Qed.

(** Side conditions of the steps. *)
Ltac is_derived := apply In_derived; reflexivity.
Ltac columns_kept :=
  let c := fresh "c" in let Hc := fresh "Hc" in
  cbn [df]; intros c Hc; repeat apply has_column_setitem_mono;
  first [ apply key_cols_has_column; exact Hc
        | apply (present_has_column _ reg_candidates); exact Hc ].
Ltac blocks_kept :=
  rewrite ?block_setitem_other by
    first [ apply key_cols_not_derived; is_derived
          | apply reg_inputs_not_derived; is_derived ];
  rewrite ?frame_block_setitem_other by
    first [ apply key_cols_not_derived; is_derived
          | apply reg_inputs_not_derived; is_derived ].
Ltac next := cbv beta zeta; cbn [df trace app nrows setitem].

Ltac read_derived :=
  erewrite step_getcol by
    (cbn [df]; rewrite ?getitem_setitem_other by discriminate;
     apply getitem_setitem_same);
  next.

(** The statements up to the first call into scikit-learn. *)
Ltac run_zscore_stage d :=
  unfold run, main;
  rewrite step_columns; next; fold (key_cols d);
  rewrite step_when_false by (destruct (key_cols d); [congruence | reflexivity]);
  rewrite step_nrows; next;
  rewrite step_get_block by columns_kept; next;
  rewrite step_setcol; next;
  rewrite step_get_block by columns_kept; next;
  blocks_kept.

Ltac call_returns H := erewrite step_call_ok by exact H; next.
Ltac call_raises H := erewrite step_call_raise by exact H; next.

(** The density detector, its three calls returning. *)
Ltac run_density_stage d S F P :=
  run_zscore_stage d;
  call_returns S; call_returns F;
  rewrite step_get_block by columns_kept; next; blocks_kept;
  call_returns P;
  rewrite step_setcol; next.

Section Runs.
Context (sk : Api) (global : Rng sk) (d : DataFrame).

Lemma run_no_sensor :
  key_cols d = [] ->
  run sk global d
  = (inl (ValueError (NoSensorColumns (columns d))), mkState d []).
Proof.
  intros H. unfold run, main.
  rewrite step_columns. cbv beta zeta. cbn [df trace].
  fold (key_cols d). rewrite H. reflexivity.
Qed.

Lemma guard_after_density (s1 s2 : Series) :
  ((List.length
      (present (columns (setitem (setitem d "z_flag" s1) "iso_flag" s2))
         reg_candidates) <? 2)%nat
   || negb (existsb (String.eqb "TEY")
              (columns (setitem (setitem d "z_flag" s1) "iso_flag" s2))))
  = negb (residual_inputs_ok d).
Proof.
  unfold residual_inputs_ok. rewrite negb_involutive.
  rewrite !present_setitem by (apply derived_not_predictor; is_derived).
  fold (reg_inputs d).
  change (existsb (String.eqb "TEY")
            (columns (setitem (setitem d "z_flag" s1) "iso_flag" s2)))
    with (has_column (setitem (setitem d "z_flag" s1) "iso_flag" s2) "TEY").
  rewrite !has_column_setitem_other by discriminate. reflexivity.
Qed.

(** What the outcome of the density detector says about its calls. *)
Lemma density_raises (c : Call) (e : Error) :
  density sk global d = inl (c, e) ->
  (c = ScalerFitTransform
   /\ scaler_fit_transform sk (to_rows (nrows d) (block d (key_cols d)))
      = inl e)
  \/ (c = ForestFit
      /\ exists scaled,
           scaler_fit_transform sk (to_rows (nrows d) (block d (key_cols d)))
           = inr scaled
           /\ fit_forest sk iso global scaled = inl e)
  \/ (c = ForestPredict
      /\ exists scaled model,
           scaler_fit_transform sk (to_rows (nrows d) (block d (key_cols d)))
           = inr scaled
           /\ fit_forest sk iso global scaled = inr model
           /\ predict_forest sk model
                (to_rows (nrows d) (block d (key_cols d))) = inl e).
Proof.
  unfold density, key_rows, predict_forest.
  destruct (scaler_fit_transform sk _) as [e1|scaled];
    [intros [= <- <-]; now left|].
  destruct (fit_forest sk iso global scaled) as [e2|model] eqn:F;
    [intros [= <- <-]; right; left; eauto|].
  destruct (iso_check sk model _) as [e3|] eqn:P; [|discriminate].
  intros [= <- <-]. right; right. split; [reflexivity|].
  exists scaled, model. rewrite P. auto.
Qed.

Lemma density_returns (flags : list Z) :
  density sk global d = inr flags ->
  exists scaled model,
    scaler_fit_transform sk (to_rows (nrows d) (block d (key_cols d)))
    = inr scaled
    /\ fit_forest sk iso global scaled = inr model
    /\ iso_check sk model (key_rows d) = None
    /\ predict_forest sk model (to_rows (nrows d) (block d (key_cols d)))
       = inr (map (iso_predict sk model)
                  (to_rows (nrows d) (block d (key_cols d))))
    /\ outliers (map (iso_predict sk model)
                    (to_rows (nrows d) (block d (key_cols d)))) = flags
    /\ flags = iso_flag_of sk model (key_rows d)
    /\ iso_flag sk global d = flags.
Proof.
  intros D. assert (I : iso_flag sk global d = flags)
    by (unfold iso_flag; now rewrite D).
  revert D. unfold density, key_rows, predict_forest.
  destruct (scaler_fit_transform sk _) as [e1|scaled]; [discriminate|].
  destruct (fit_forest sk iso global scaled) as [e2|model] eqn:F;
    [discriminate|].
  destruct (iso_check sk model _) as [e3|] eqn:P; [discriminate|].
  intros [= <-]. exists scaled, model.
  split; [reflexivity|]. split; [exact F|]. split; [exact P|].
  split; [now rewrite P|]. split; [|split; [reflexivity | exact I]].
  unfold outliers, iso_flag_of. now rewrite map_map.
Qed.

Lemma regression_raises (c : Call) (e : Error) :
  regression sk d = inl (c, e) ->
  (c = RegressionFit
   /\ reg_fit sk (to_rows (nrows d) (block d (reg_inputs d)))
        (to_floats (series_column d "TEY")) = inl e)
  \/ (c = RegressionPredict
      /\ exists model,
           reg_fit sk (to_rows (nrows d) (block d (reg_inputs d)))
             (to_floats (series_column d "TEY")) = inr model
           /\ predict_regression sk model
                (to_rows (nrows d) (block d (reg_inputs d))) = inl e).
Proof.
  unfold regression, X, y, float_column, predict_regression.
  destruct (reg_fit sk _ _) as [e1|model]; [intros [= <- <-]; now left|].
  destruct (reg_check sk model _) as [e2|] eqn:P; [|discriminate].
  intros [= <- <-]. right. split; [reflexivity|].
  exists model. rewrite P. auto.
Qed.

Lemma regression_returns (pred : list float) :
  regression sk d = inr pred ->
  exists model,
    reg_fit sk (to_rows (nrows d) (block d (reg_inputs d)))
      (to_floats (series_column d "TEY")) = inr model
    /\ reg_check sk model (X d) = None
    /\ predict_regression sk model
         (to_rows (nrows d) (block d (reg_inputs d))) = inr pred
    /\ pred = map (reg_predict sk model) (X d)
    /\ TEY_pred sk d = pred.
Proof.
  intros D. assert (I : TEY_pred sk d = pred)
    by (unfold TEY_pred; now rewrite D).
  revert D. unfold regression, X, y, float_column, predict_regression.
  destruct (reg_fit sk _ _) as [e1|model]; [discriminate|].
  destruct (reg_check sk model _) as [e2|] eqn:P; [discriminate|].
  intros [= <-]. exists model.
  split; [reflexivity|]. split; [exact P|]. split; [now rewrite P|].
  split; [reflexivity | exact I].
Qed.

(** A call of the density detector raises: the Z-score flag is assigned,
    nothing else. *)
Lemma run_density_raises (c : Call) (e : Error) :
  key_cols d <> [] -> density sk global d = inl (c, e) ->
  run sk global d
  = (inl (SklearnError c e),
     mkState (frame_after_zscore d)
             (SetColumn "z_flag" (Ints (z_flag d)) :: attempted c)).
Proof.
  intros H D. run_zscore_stage d.
  destruct (density_raises c e D)
    as [[-> S] | [[-> [scaled [S F]]] | [-> [scaled [model [S [F P]]]]]]].
  - call_raises S. reflexivity.
  - call_returns S. call_raises F. reflexivity.
  - call_returns S. call_returns F.
    rewrite step_get_block by columns_kept. next. blocks_kept.
    call_raises P. reflexivity.
Qed.

Lemma run_residual_guard (flags : list Z) :
  key_cols d <> [] -> density sk global d = inr flags ->
  residual_inputs_ok d = false ->
  run sk global d
  = (inl (ValueError ResidualInputs),
     mkState (frame_after_density sk global d)
             (effects_after_density sk global d)).
Proof.
  intros H D G.
  destruct (density_returns flags D)
    as [scaled [model [S [F [_ [P [O [_ I]]]]]]]].
  run_density_stage d S F P. rewrite O.
  rewrite step_columns. next.
  rewrite step_when_raise by (rewrite guard_after_density, G; reflexivity).
  unfold frame_after_density, effects_after_density. now rewrite I.
Qed.

Lemma residual_inputs_ok_spec :
  residual_inputs_ok d = true
  <-> (2 <= List.length (reg_inputs d))%nat /\ has_column d "TEY" = true.
Proof.
  unfold residual_inputs_ok.
  rewrite negb_true_iff, orb_false_iff, negb_false_iff, Nat.ltb_ge. tauto.
Qed.

Lemma series_column_same (f : DataFrame) (c : string) (v : Series) :
  series_column (setitem f c v) c = v.
Proof. unfold series_column. now rewrite getitem_setitem_same. Qed.

Lemma has_column_setitem_same (f : DataFrame) (c : string) (v : Series) :
  has_column (setitem f c v) c = true.
Proof.
  unfold has_column at 1. rewrite columns_setitem.
  destruct (has_column f c) eqn:E; [exact E|].
  rewrite existsb_app. simpl. rewrite String.eqb_refl. now rewrite orb_true_r.
Qed.

Lemma report_columns_present (c : string) :
  In c (["anomaly"; "z_flag"; "iso_flag"; "res_flag"] ++ key_cols d
        ++ ["TEY_pred"; "residual"]) ->
  has_column (frame_at_end sk global d) c = true.
Proof.
  unfold frame_at_end, frame_after_density.
  rewrite !in_app_iff. simpl.
  intros [[<-|[<-|[<-|[<-|[]]]]] | [Hk | [<-|[<-|[]]]]];
    repeat first [ apply has_column_setitem_same
                 | apply has_column_setitem_mono ].
  now apply key_cols_has_column.
Qed.

Lemma report_at_end :
  frame_block (frame_at_end sk global d)
    (["anomaly"; "z_flag"; "iso_flag"; "res_flag"] ++ key_cols d
     ++ ["TEY_pred"; "residual"])
  = report sk global d.
Proof.
  unfold report, frame_block at 1. rewrite !map_app.
  assert (K : map (fun c => (c, series_column (frame_at_end sk global d) c))
                (key_cols d) = frame_block d (key_cols d)).
  { change (frame_block (frame_at_end sk global d) (key_cols d)
            = frame_block d (key_cols d)).
    unfold frame_at_end, frame_after_density.
    now rewrite !frame_block_setitem_other
      by (apply key_cols_not_derived; is_derived). }
  rewrite K. unfold frame_at_end, frame_after_density. cbn [map].
  repeat (rewrite ?series_column_same;
          rewrite ?series_column_setitem_other by discriminate).
  reflexivity.
Qed.

(** The statements from the guard of line 78 to the regression's first
    call, the density detector having returned. *)
Ltac run_regression_stage d S F P O I G :=
  run_density_stage d S F P; rewrite O, <- I;
  rewrite step_columns; next;
  rewrite step_when_false by (rewrite guard_after_density, G; reflexivity);
  rewrite !present_setitem by (apply derived_not_predictor; is_derived);
  fold (reg_inputs d);
  rewrite step_get_block by columns_kept; next; blocks_kept;
  rewrite (step_getcol "TEY" (series_column d "TEY"))
    by (cbn [df]; rewrite !getitem_setitem_other by discriminate;
        apply has_column_getitem;
        apply (proj1 (residual_inputs_ok_spec) G));
  next.

(** A call of the regression raises: both flags of the first two
    detectors are assigned, nothing else. *)
Lemma run_regression_raises (flags : list Z) (c : Call) (e : Error) :
  key_cols d <> [] -> density sk global d = inr flags ->
  residual_inputs_ok d = true -> regression sk d = inl (c, e) ->
  run sk global d
  = (inl (SklearnError c e),
     mkState (frame_after_density sk global d)
             (effects_after_density sk global d ++ attempted c)).
Proof.
  intros H D G R.
  destruct (density_returns flags D)
    as [scaled [model [S [F [_ [P [O [_ I]]]]]]]].
  run_regression_stage d S F P O I G.
  destruct (regression_raises c e R) as [[-> Fit] | [-> [reg [Fit Pr]]]].
  - call_raises Fit. reflexivity.
  - call_returns Fit. call_raises Pr. reflexivity.
Qed.

Lemma run_complete (flags : list Z) (pred : list float) :
  key_cols d <> [] -> density sk global d = inr flags ->
  residual_inputs_ok d = true -> regression sk d = inr pred ->
  run sk global d
  = (inr tt,
     mkState (frame_at_end sk global d) (effects_at_end sk global d)).
Proof.
  intros H D G R. pose proof (proj1 residual_inputs_ok_spec G) as [_ T].
  destruct (density_returns flags D)
    as [scaled [model [S [F [_ [P [O [_ I]]]]]]]].
  destruct (regression_returns pred R) as [reg [Fit [_ [Pr [_ IP]]]]].
  run_regression_stage d S F P O I G.
  call_returns Fit. call_returns Pr. rewrite <- IP.
  rewrite step_setcol. next.
  rewrite (step_getcol "TEY" (series_column d "TEY"))
    by (cbn [df]; rewrite !getitem_setitem_other by discriminate;
        now apply has_column_getitem).
  next. read_derived. rewrite step_setcol. next.
  read_derived. rewrite step_setcol. next.
  read_derived. rewrite step_ints. next.
  read_derived. rewrite step_ints. next.
  read_derived. rewrite step_ints. next.
  rewrite step_setcol. next.
  match goal with
  | |- bind _ _ (mkState ?f ?t) = _ =>
      change f with (frame_at_end sk global d)
  end.
  rewrite step_get_frame by (cbn [df]; apply report_columns_present).
  cbn [df]. pose proof report_at_end as Rep. cbn [app] in Rep. rewrite Rep.
  reflexivity.
Qed.
(** ** Reading the frame a run ends with *)

Lemma z_flag_at_end :
  int_column (frame_at_end sk global d) "z_flag" = z_flag d.
Proof.
  unfold int_column, frame_at_end, frame_after_density.
  rewrite !getitem_setitem_other by discriminate.
  now rewrite getitem_setitem_same.
Qed.

Lemma iso_flag_at_end :
  int_column (frame_at_end sk global d) "iso_flag" = iso_flag sk global d.
Proof.
  unfold int_column, frame_at_end, frame_after_density.
  rewrite !getitem_setitem_other by discriminate.
  now rewrite getitem_setitem_same.
Qed.

Lemma res_flag_at_end :
  int_column (frame_at_end sk global d) "res_flag" = res_flag sk d.
Proof.
  unfold int_column, frame_at_end.
  rewrite !getitem_setitem_other by discriminate.
  now rewrite getitem_setitem_same.
Qed.

Lemma anomaly_at_end :
  int_column (frame_at_end sk global d) "anomaly" = anomaly sk global d.
Proof.
  unfold int_column, frame_at_end. now rewrite getitem_setitem_same.
Qed.

Lemma TEY_pred_at_end :
  float_column (frame_at_end sk global d) "TEY_pred" = TEY_pred sk d.
Proof.
  unfold float_column, frame_at_end.
  rewrite !series_column_setitem_other by discriminate.
  now rewrite series_column_same.
Qed.

Lemma residual_at_end :
  float_column (frame_at_end sk global d) "residual" = residual sk d.
Proof.
  unfold float_column, frame_at_end.
  rewrite !series_column_setitem_other by discriminate.
  now rewrite series_column_same.
Qed.

Lemma source_column_at_end (c : string) :
  ~ In c derived_cols ->
  getitem (frame_at_end sk global d) c = getitem d c.
Proof.
  intros H. unfold frame_at_end, frame_after_density.
  rewrite !getitem_setitem_other; try reflexivity;
    intros ->; apply H; is_derived.
Qed.

Lemma source_column_after_density (c : string) :
  ~ In c derived_cols ->
  getitem (frame_after_density sk global d) c = getitem d c.
Proof.
  intros H. unfold frame_after_density.
  rewrite !getitem_setitem_other; try reflexivity;
    intros ->; apply H; is_derived.
Qed.

Lemma z_flag_after_density :
  int_column (frame_after_density sk global d) "z_flag" = z_flag d.
Proof.
  unfold int_column, frame_after_density.
  rewrite getitem_setitem_other by discriminate.
  now rewrite getitem_setitem_same.
Qed.

Lemma iso_flag_after_density :
  int_column (frame_after_density sk global d) "iso_flag"
  = iso_flag sk global d.
Proof.
  unfold int_column, frame_after_density.
  now rewrite getitem_setitem_same.
Qed.

(** Assignments only append columns, and only derived ones. *)
Lemma columns_extend_refl (f : DataFrame) :
  exists added, columns f = columns f ++ added /\ incl added derived_cols.
Proof. exists []. split; [now rewrite app_nil_r | intros c []]. Qed.

Lemma columns_extend_setitem (f f' : DataFrame) (c : string) (v : Series) :
  In c derived_cols ->
  (exists added, columns f' = columns f ++ added /\ incl added derived_cols) ->
  exists added,
    columns (setitem f' c v) = columns f ++ added /\ incl added derived_cols.
Proof.
  intros Hc [added [E I]]. rewrite columns_setitem.
  destruct (has_column f' c).
  - exists added. auto.
  - exists (added ++ [c]). rewrite E, app_assoc. split; [reflexivity|].
    apply incl_app; [assumption|]. intros x [<- | []]. exact Hc.
Qed.

Lemma columns_after_density :
  exists added,
    columns (frame_after_density sk global d) = columns d ++ added
    /\ incl added derived_cols.
Proof.
  unfold frame_after_density.
  repeat (apply columns_extend_setitem; [is_derived|]).
  apply columns_extend_refl.
Qed.

Lemma columns_at_end :
  exists added,
    columns (frame_at_end sk global d) = columns d ++ added
    /\ incl added derived_cols.
Proof.
  unfold frame_at_end, frame_after_density.
  repeat (apply columns_extend_setitem; [is_derived|]).
  apply columns_extend_refl.
Qed.

(** Every assignment of a run is still what the frame holds at the end. *)
Lemma assignments_after_density :
  Forall (fun a => getitem (frame_after_density sk global d) (fst a)
                   = Some (snd a))
         (assignments (effects_after_density sk global d)).
Proof.
  unfold frame_after_density. repeat constructor; cbn [fst snd];
    rewrite ?getitem_setitem_other by discriminate;
    apply getitem_setitem_same.
Qed.

Lemma assignments_at_end :
  Forall (fun a => getitem (frame_at_end sk global d) (fst a) = Some (snd a))
         (assignments (effects_at_end sk global d)).
Proof.
  unfold frame_at_end, frame_after_density. repeat constructor; cbn [fst snd];
    rewrite ?getitem_setitem_other by discriminate;
    apply getitem_setitem_same.
Qed.

(** Reading the frame the run stops with when a density call raises. *)
Lemma source_column_after_zscore (c : string) :
  ~ In c derived_cols ->
  getitem (frame_after_zscore d) c = getitem d c.
Proof.
  intros H. unfold frame_after_zscore.
  rewrite getitem_setitem_other; [reflexivity|].
  intros ->. apply H. is_derived.
Qed.

Lemma z_flag_after_zscore :
  int_column (frame_after_zscore d) "z_flag" = z_flag d.
Proof.
  unfold int_column, frame_after_zscore. now rewrite getitem_setitem_same.
Qed.

Lemma columns_after_zscore :
  exists added,
    columns (frame_after_zscore d) = columns d ++ added
    /\ incl added derived_cols.
Proof.
  unfold frame_after_zscore.
  apply columns_extend_setitem; [is_derived|].
  apply columns_extend_refl.
Qed.

Lemma assignments_app (t1 t2 : list Event) :
  assignments (t1 ++ t2) = assignments t1 ++ assignments t2.
Proof.
  induction t1 as [|[c v|c|p r] t1 IH]; simpl; [reflexivity| |assumption..].
  now rewrite IH.
Qed.

Lemma assignments_attempted (c : Call) : assignments (attempted c) = [].
Proof. now destruct c. Qed.

Lemma calls_app (t1 t2 : list Event) :
  calls (t1 ++ t2) = calls t1 ++ calls t2.
Proof.
  induction t1 as [|[c v|c|p r] t1 IH]; simpl; [reflexivity|assumption| |assumption].
  now rewrite IH.
Qed.

Lemma attempted_no_report (c : Call) :
  existsb is_report (attempted c) = false.
Proof. now destruct c. Qed.

(** A run ends in exactly one of five ways. *)
Lemma run_cases :
  (key_cols d = [] /\
   run sk global d
   = (inl (ValueError (NoSensorColumns (columns d))), mkState d []))
  \/ (key_cols d <> [] /\
      exists c e,
        density sk global d = inl (c, e) /\
        run sk global d
        = (inl (SklearnError c e),
           mkState (frame_after_zscore d)
                   (SetColumn "z_flag" (Ints (z_flag d)) :: attempted c)))
  \/ (key_cols d <> [] /\ residual_inputs_ok d = false /\
      (exists flags, density sk global d = inr flags) /\
      run sk global d
      = (inl (ValueError ResidualInputs),
         mkState (frame_after_density sk global d)
                 (effects_after_density sk global d)))
  \/ (key_cols d <> [] /\ residual_inputs_ok d = true /\
      (exists flags, density sk global d = inr flags) /\
      exists c e,
        regression sk d = inl (c, e) /\
        run sk global d
        = (inl (SklearnError c e),
           mkState (frame_after_density sk global d)
                   (effects_after_density sk global d ++ attempted c)))
  \/ (key_cols d <> [] /\ residual_inputs_ok d = true /\
      (exists flags, density sk global d = inr flags) /\
      (exists pred, regression sk d = inr pred) /\
      run sk global d
      = (inr tt,
         mkState (frame_at_end sk global d) (effects_at_end sk global d))).
Proof.
  destruct (key_cols d) as [|k rest] eqn:K.
  - left. split; [reflexivity|]. now apply run_no_sensor.
  - assert (N : key_cols d <> []) by (rewrite K; discriminate).
    rewrite <- K. right.
    destruct (density sk global d) as [[c e]|flags] eqn:D.
    { left. split; [assumption|]. exists c, e. split; [reflexivity|].
      now apply run_density_raises. }
    right. destruct (residual_inputs_ok d) eqn:G.
    + right. destruct (regression sk d) as [[c e]|pred] eqn:R.
      * left. repeat split; eauto. exists c, e. split; [reflexivity|].
        now apply (run_regression_raises flags).
      * right. repeat split; eauto. now apply (run_complete flags pred).
    + left. repeat split; eauto. now apply (run_residual_guard flags).
Qed.

(** A run that ends normally has passed both guards. *)
Lemma run_returns :
  fst (run sk global d) = inr tt ->
  key_cols d <> [] /\ residual_inputs_ok d = true /\
  run sk global d
  = (inr tt, mkState (frame_at_end sk global d) (effects_at_end sk global d)).
Proof.
  intros R.
  destruct run_cases
    as [[_ E] | [[_ [c [e [_ E]]]] | [[_ [_ [_ E]]]
        | [[_ [_ [_ [c [e [_ E]]]]]] | [K [G [_ [_ E]]]]]]]];
    rewrite E in R; try discriminate R.
  auto.
Qed.

(** And all five scikit-learn calls have returned. *)
Lemma run_returns_calls :
  fst (run sk global d) = inr tt ->
  (exists flags, density sk global d = inr flags)
  /\ (exists pred, regression sk d = inr pred).
Proof.
  intros R.
  destruct run_cases
    as [[_ E] | [[_ [c [e [_ E]]]] | [[_ [_ [_ E]]]
        | [[_ [_ [_ [c [e [_ E]]]]]] | [K [G [D [P E]]]]]]]];
    rewrite E in R; try discriminate R.
  auto.
Qed.

(** A run completes exactly when both guards pass and the five calls
    return. *)
Lemma run_completes_iff :
  fst (run sk global d) = inr tt
  <-> key_cols d <> [] /\ residual_inputs_ok d = true
      /\ (exists flags, density sk global d = inr flags)
      /\ (exists pred, regression sk d = inr pred).
Proof.
  split.
  - intros R. destruct (run_returns R) as [K [G _]].
    destruct (run_returns_calls R) as [D P]. auto.
  - intros [K [G [[flags D] [pred P]]]].
    now rewrite (run_complete flags pred K D G P).
Qed.

(** Once a sensor column resolves, the Z-score flag is in the frame the
    run stops with, however it ends. *)
Lemma z_flag_assigned :
  key_cols d <> [] ->
  int_column (final_frame (run sk global d)) "z_flag" = z_flag d.
Proof.
  intros K. unfold final_frame.
  destruct run_cases
    as [[K0 _] | [[_ [c [e [_ E]]]] | [[_ [_ [_ E]]]
        | [[_ [_ [_ [c [e [_ E]]]]]] | [_ [_ [_ [_ E]]]]]]]];
    [contradiction | rewrite E ..]; cbn [snd df].
  - apply z_flag_after_zscore.
  - apply z_flag_after_density.
  - apply z_flag_after_density.
  - apply z_flag_at_end.
Qed.

(** And so is the density flag, once the detector's three calls have
    returned. *)
Lemma iso_flag_assigned (flags : list Z) :
  key_cols d <> [] -> density sk global d = inr flags ->
  int_column (final_frame (run sk global d)) "iso_flag" = flags.
Proof.
  intros K D. unfold final_frame.
  assert (I : iso_flag sk global d = flags)
    by (unfold iso_flag; now rewrite D).
  destruct run_cases
    as [[K0 _] | [[_ [c [e [D' _]]]] | [[_ [_ [_ E]]]
        | [[_ [_ [_ [c [e [_ E]]]]]] | [_ [_ [_ [_ E]]]]]]]];
    [contradiction | congruence | rewrite E ..]; cbn [snd df];
    rewrite <- I.
  - apply iso_flag_after_density.
  - apply iso_flag_after_density.
  - apply iso_flag_at_end.
Qed.

End Runs.
End ScriptFacts.

(* ================================================================== *)
(** * Shapes of the derived columns *)

Module ShapeFacts.
Import Float64 Pandas Sklearn Script.
Import FloatFacts ReductionFacts PandasFacts ScriptFacts.

Lemma astype_int_bit (b : list bool) (i : nat) (z : Z) :
  nth_error (astype_int b) i = Some z -> z = 0%Z \/ z = 1%Z.
Proof.
  unfold astype_int. rewrite nth_error_map.
  destruct (nth_error b i) as [[|]|]; simpl; intros [= <-]; auto.
Qed.

Lemma or_of_bits (z s r : Z) :
  (z = 0 \/ z = 1)%Z -> (s = 0 \/ s = 1)%Z -> (r = 0 \/ r = 1)%Z ->
  (Z.lor (Z.lor z s) r = 1 <-> z = 1 \/ s = 1 \/ r = 1)%Z
  /\ (Z.lor (Z.lor z s) r = 0 <-> z = 0 /\ s = 0 /\ r = 0)%Z.
Proof. intros [-> | ->] [-> | ->] [-> | ->]; simpl; lia. Qed.

Lemma to_rows_length (n : nat) (cols : list (list float)) :
  List.length (to_rows n cols) = n.
Proof. unfold to_rows. now rewrite length_map, length_seq. Qed.

Lemma z_flag_length (d : DataFrame) : List.length (z_flag d) = nrows d.
Proof.
  unfold z_flag, z_flag_of, astype_int, any_axis1.
  now rewrite !length_map, length_seq.
Qed.

Lemma iso_flag_length (sk : Api) (g : Rng sk) (d : DataFrame) :
  (exists flags, density sk g d = inr flags) ->
  List.length (iso_flag sk g d) = nrows d.
Proof.
  intros [flags D].
  destruct (density_returns sk g d flags D)
    as [scaled [model [_ [_ [_ [_ [_ [E I]]]]]]]].
  rewrite I, E. unfold iso_flag_of, astype_int, key_rows.
  now rewrite !length_map, to_rows_length.
Qed.

Lemma TEY_pred_length (sk : Api) (d : DataFrame) :
  (exists pred, regression sk d = inr pred) ->
  List.length (TEY_pred sk d) = nrows d.
Proof.
  intros [pred R].
  destruct (regression_returns sk d pred R) as [model [_ [_ [_ [E I]]]]].
  rewrite I, E. unfold X. now rewrite length_map, to_rows_length.
Qed.

Lemma column_length (d : DataFrame) (c : string) :
  well_formed d -> has_column d c = true ->
  List.length (float_column d c) = nrows d.
Proof.
  unfold well_formed, has_column, columns, float_column, series_column, getitem.
  destruct d as [n l]. simpl. induction l as [|[k s] rest IH]; simpl.
  - discriminate.
  - intros W H. apply Forall_cons_iff in W. destruct W as [Hs Hrest].
    simpl in Hs.
    destruct (String.eqb c k); simpl in *.
    + destruct s; simpl in *; [assumption | now rewrite length_map].
    + now apply IH.
Qed.

Lemma residual_length (sk : Api) (d : DataFrame) :
  well_formed d -> has_column d "TEY" = true ->
  (exists pred, regression sk d = inr pred) ->
  List.length (residual sk d) = nrows d.
Proof.
  intros W T R. unfold residual, y.
  rewrite map2_length, (TEY_pred_length sk d R), (column_length d "TEY" W T).
  apply Nat.min_id.
Qed.

Lemma res_flag_length (sk : Api) (d : DataFrame) :
  List.length (res_flag sk d) = List.length (residual sk d).
Proof. unfold res_flag, res_flag_of, astype_int. now rewrite !length_map. Qed.

Lemma anomaly_length (sk : Api) (g : Rng sk) (d : DataFrame) :
  well_formed d -> has_column d "TEY" = true ->
  (exists flags, density sk g d = inr flags) ->
  (exists pred, regression sk d = inr pred) ->
  List.length (anomaly sk g d) = nrows d.
Proof.
  intros W T D R. unfold anomaly, anomaly_of.
  rewrite !map2_length, z_flag_length, (iso_flag_length sk g d D),
    res_flag_length, (residual_length sk d W T R).
  now rewrite !Nat.min_id.
Qed.

Lemma res_flag_of_nth (three_sigma : float) (residual : list float)
    (i : nat) (r : float) :
  nth_error residual i = Some r ->
  exists b,
    nth_error (res_flag_of three_sigma residual) i = Some b
    /\ (b = 1%Z <-> gtb (abs r) three_sigma = true)
    /\ (b = 0%Z <-> gtb (abs r) three_sigma = false).
Proof.
  intros H. unfold res_flag_of, astype_int.
  rewrite !nth_error_map, H. simpl.
  exists (Z.b2z (gtb (abs r) three_sigma)). split; [reflexivity|].
  destruct (gtb (abs r) three_sigma); simpl; split; split;
    intros; congruence.
Qed.

Lemma nth_map_true {A : Type} (f : A -> bool) (l : list A) (i : nat) :
  nth i (map f l) false = true
  <-> exists v, nth_error l i = Some v /\ f v = true.
Proof.
  revert i. induction l as [|a l IH]; intros [|i]; simpl.
  - split; [discriminate | intros [v [H _]]; discriminate].
  - split; [discriminate | intros [v [H _]]; discriminate].
  - split; [eauto | intros [v [[= <-] H]]; exact H].
  - apply IH.
Qed.

Lemma any_axis1_nth (n : nat) (cols : list (list bool)) (i : nat) :
  (i < n)%nat ->
  nth_error (any_axis1 n cols) i
  = Some (existsb (fun c => nth i c false) cols).
Proof.
  intros H. unfold any_axis1.
  rewrite nth_error_map, nth_error_seq.
  destruct (Nat.ltb_spec i n); [reflexivity | lia].
Qed.

Lemma z_flag_of_nth (d : DataFrame) (cols : list string) (i : nat) :
  (i < nrows d)%nat ->
  nth_error (z_flag_of (nrows d) (map zscore (block d cols))) i
  = Some (Z.b2z (z_bit d cols i)).
Proof.
  intros H. unfold z_flag_of, astype_int.
  now rewrite nth_error_map, any_axis1_nth.
Qed.

Lemma z_bit_true (d : DataFrame) (cols : list string) (i : nat) :
  z_bit d cols i = true
  <-> exists c v,
        In c cols /\ nth_error (float_column d c) i = Some v
        /\ gtb (abs ((v - mean (float_column d c))
                     / std (float_column d c))%float) z_thresh = true.
Proof.
  unfold z_bit, block. rewrite existsb_exists. split.
  - intros [bs [Hin Hnth]].
    apply in_map_iff in Hin. destruct Hin as [zs [<- Hin]].
    apply in_map_iff in Hin. destruct Hin as [x [<- Hin]].
    apply in_map_iff in Hin. destruct Hin as [c [<- Hin]].
    unfold zscore in Hnth. rewrite map_map in Hnth.
    apply nth_map_true in Hnth. destruct Hnth as [v [Hv Hgt]].
    exists c, v. auto.
  - intros [c [v [Hin [Hv Hgt]]]].
    exists (map (fun v => gtb (abs v) z_thresh)
                (zscore (float_column d c))).
    split.
    + do 2 apply in_map. now apply in_map.
    + unfold zscore. rewrite map_map. apply nth_map_true. eauto.
Qed.

(** A constant column whose mean is computed exactly scores NaN
    everywhere. *)
Lemma zscore_constant (v : float) (x : list float) :
  Forall (eq v) x -> mean x = v -> Forall (eq nan) (zscore x).
Proof.
  intros C M. unfold zscore. apply Forall_map.
  eapply Forall_impl; [|exact C]. intros w <-. symmetry.
  apply div_zero_or_nan_nan.
  - rewrite M. apply sub_diag_zero_or_nan.
  - now apply (std_constant v).
Qed.

Lemma nan_scores_silent (z : list float) (i : nat) :
  Forall (eq nan) z ->
  nth i (map (fun s => gtb (abs s) z_thresh) z) false = false.
Proof.
  intros N. destruct (nth i _ false) eqn:E; [|reflexivity].
  apply nth_map_true in E. destruct E as [s [Hs Hgt]].
  apply nth_error_In in Hs. rewrite Forall_forall in N.
  rewrite <- (N s Hs) in Hgt. now rewrite gtb_abs_nan in Hgt.
Qed.

(** A column whose scores are all NaN can be left out of the detector. *)
Lemma z_bit_drop (d : DataFrame) (c : string) (cols : list string) (i : nat) :
  Forall (eq nan) (zscore (float_column d c)) ->
  z_bit d cols i
  = z_bit d (filter (fun c' => negb (String.eqb c' c)) cols) i.
Proof.
  intros N. unfold z_bit, block.
  induction cols as [|c' rest IH]; simpl; [reflexivity|].
  destruct (String.eqb_spec c' c) as [-> | Hne]; simpl.
  - rewrite (nan_scores_silent _ i N). exact IH.
  - now rewrite IH.
Qed.

End ShapeFacts.

(* ================================================================== *)
(** * Further facts about binary64 comparisons *)

Module CompareFacts.
Import Float64 FloatFacts.
Local Open Scope float_scope.

(** Numeric equality is symmetric. *)
Lemma SFeqb_sym (x y : spec_float) : SFeqb x y = SFeqb y x.
Proof.
  unfold SFeqb.
  destruct x as [s| s | |s m e], y as [t| t | |t n f]; simpl;
    try reflexivity; try (destruct s, t; reflexivity);
    try (destruct s; reflexivity); try (destruct t; reflexivity).
  destruct s, t; try reflexivity;
    rewrite (Z.compare_antisym f e); destruct (f ?= e)%Z; simpl;
      try reflexivity;
      pose proof (Pos.compare_cont_antisym n m Eq) as A; simpl in A;
      rewrite <- A; destruct (Pos.compare_cont Eq n m); reflexivity.
Qed.

Lemma eqb_sym (x y : float) : (x =? y) = (y =? x).
Proof. rewrite !FloatAxioms.eqb_spec. apply SFeqb_sym. Qed.

(** [|r| > t] says that [r] lies strictly beyond [t] or strictly before
    [-t]. *)
Lemma gtb_abs_split (r t : float) :
  gtb (abs r) t = (t <? r) || (r <? - t).
Proof.
  unfold gtb. rewrite !ltb_spec, abs_spec, opp_spec. unfold SFltb.
  destruct (Prim2SF t) as [st| st | |st mt et],
           (Prim2SF r) as [sr| sr | |sr mr er]; simpl;
    try reflexivity;
    try (destruct st, sr; reflexivity);
    try (destruct st; reflexivity); try (destruct sr; reflexivity).
  destruct st, sr; simpl; rewrite ?orb_true_r, ?orb_false_r;
    try reflexivity.
  rewrite (Z.compare_antisym et er). destruct (et ?= er)%Z; simpl;
    try reflexivity.
  pose proof (Pos.compare_cont_antisym mt mr Eq) as A. simpl in A.
  rewrite <- A. destruct (Pos.compare_cont Eq mt mr); reflexivity.
Qed.

(** NaN operands give NaN. *)
Lemma is_nan_sub_l (x y : float) : is_nan x = true -> x - y = nan.
Proof.
  intros H. apply is_nan_spec in H. apply Prim2SF_nan.
  rewrite sub_spec, H. reflexivity.
Qed.

Lemma is_nan_div_l (x y : float) : is_nan x = true -> x / y = nan.
Proof.
  intros H. apply is_nan_spec in H. apply Prim2SF_nan.
  rewrite div_spec, H. reflexivity.
Qed.

Lemma is_nan_div_r (x y : float) : is_nan y = true -> x / y = nan.
Proof.
  intros H. apply is_nan_spec in H. apply Prim2SF_nan.
  rewrite div_spec, H. destruct (Prim2SF x); reflexivity.
Qed.

Lemma is_nan_mul_r (x y : float) : is_nan y = true -> x * y = nan.
Proof.
  intros H. apply is_nan_spec in H. apply Prim2SF_nan.
  rewrite mul_spec, H. destruct (Prim2SF x); reflexivity.
Qed.

Lemma gtb_nan_r (x t : float) : is_nan t = true -> gtb x t = false.
Proof.
  intros H. apply is_nan_spec in H. unfold gtb.
  rewrite ltb_spec, H. reflexivity.
Qed.

Lemma eqb_refl_or_nan (x : float) : (x =? x) || (is_nan x && is_nan x) = true.
Proof. unfold is_nan. destruct (x =? x); reflexivity. Qed.

End CompareFacts.
(* ================================================================== *)
(** * The detectors' formulas *)

Module DetectorFacts.
Import Float64 Pandas Sklearn Script.
Import FloatFacts ReductionFacts CompareFacts PandasFacts ScriptFacts
  ShapeFacts.
Local Open Scope float_scope.

(** [Series.mean()] and [Series.std()] written out. *)
Lemma mean_written_out (x : list float) :
  mean x
  = let n := List.length (filter (fun t => negb (is_nan t)) x) in
    let total := fsum (map (fun t => if is_nan t then 0 else t) x) in
    if (n =? 0)%nat then nan else total / float_of_nat n.
Proof. reflexivity. Qed.

Lemma std_written_out (x : list float) :
  std x
  = let n := List.length (filter (fun t => negb (is_nan t)) x) in
    let total := fsum (map (fun t => if is_nan t then 0 else t) x) in
    let m := if (n =? 0)%nat then nan else total / float_of_nat n in
    let ss :=
      fsum (map (fun t => if is_nan t then 0 else (m - t) * (m - t)) x) in
    if (n <=? 1)%nat then nan else sqrt (ss / float_of_nat (n - 1)).
Proof.
  unfold std, var_ddof, count, nansum. cbv zeta.
  destruct (Nat.leb_spec (List.length (filter (fun t => negb (is_nan t)) x)) 1)
    as [L|L]; [reflexivity|].
  destruct (Nat.eqb_spec (List.length (filter (fun t => negb (is_nan t)) x)) 0)
    as [E|E]; [lia | reflexivity].
Qed.

(** Rows of a block, column by column. *)
Lemma to_rows_nth (n : nat) (cols : list (list float)) (i : nat) :
  (i < n)%nat ->
  nth_error (to_rows n cols) i = Some (map (fun c => nth i c nan) cols).
Proof.
  intros H. unfold to_rows, row.
  rewrite nth_error_map, nth_error_seq.
  destruct (Nat.ltb_spec i n); [reflexivity | lia].
Qed.

(** A zero or NaN deviation never scores beyond the threshold, whatever
    it is divided by. *)
Lemma zero_div_silent (a s : float) :
  zero_or_nan a = true -> gtb (abs (a / s)) z_thresh = false.
Proof.
  intros H. apply zero_or_nan_spec in H. unfold gtb.
  rewrite ltb_spec, abs_spec, div_spec.
  change (Prim2SF z_thresh) with (S754_finite false 6755399441055744 (-51)).
  inversion H as [b E|E]; destruct (Prim2SF s) as [t| t | |t m e];
    reflexivity.
Qed.

(** ** A column that holds one value *)

Lemma zscore_uniform (v : float) (x : list float) :
  Forall (eq v) x ->
  zscore x = map (fun _ => (v - mean x) / std x) x.
Proof.
  intros C. unfold zscore. apply map_ext_in. intros w Hw.
  rewrite Forall_forall in C. now rewrite <- (C w Hw).
Qed.

Lemma quiet_scores_silent (z : list float) (i : nat) :
  Forall (fun s => gtb (abs s) z_thresh = false) z ->
  nth i (map (fun s => gtb (abs s) z_thresh) z) false = false.
Proof.
  intros N. destruct (nth i _ false) eqn:E; [|reflexivity].
  apply nth_map_true in E. destruct E as [s [Hs Hgt]].
  apply nth_error_In in Hs. rewrite Forall_forall in N.
  now rewrite (N s Hs) in Hgt.
Qed.

(** A column none of whose scores exceeds the threshold can be left out
    of the detector. *)
Lemma z_bit_drop_quiet (d : DataFrame) (c : string) (cols : list string)
    (i : nat) :
  Forall (fun s => gtb (abs s) z_thresh = false) (zscore (float_column d c)) ->
  z_bit d cols i
  = z_bit d (filter (fun c' => negb (String.eqb c' c)) cols) i.
Proof.
  intros N. unfold z_bit, block.
  induction cols as [|c' rest IH]; simpl; [reflexivity|].
  destruct (String.eqb_spec c' c) as [-> | Hne]; simpl.
  - rewrite (quiet_scores_silent _ i N). exact IH.
  - now rewrite IH.
Qed.

(** A column all of whose scores exceed the threshold flags every
    record it has. *)
Lemma z_bit_loud (d : DataFrame) (c : string) (cols : list string) (i : nat) :
  In c cols -> (i < List.length (float_column d c))%nat ->
  Forall (fun s => gtb (abs s) z_thresh = true) (zscore (float_column d c)) ->
  z_bit d cols i = true.
Proof.
  intros Hin Hi L. apply z_bit_true.
  destruct (nth_error (float_column d c) i) as [v|] eqn:E;
    [|apply nth_error_None in E; lia].
  exists c, v. split; [assumption|]. split; [exact E|].
  rewrite Forall_forall in L. apply L. unfold zscore.
  apply in_map_iff. exists v. split; [reflexivity|].
  eapply nth_error_In; exact E.
Qed.

Lemma NoDup_names (l : list string) :
  (fix distinct (l : list string) : bool :=
     match l with
     | [] => true
     | c :: rest => negb (existsb (String.eqb c) rest) && distinct rest
     end) l = true ->
  NoDup l.
Proof.
  induction l as [|c rest IH]; intros H; [constructor|].
  apply andb_true_iff in H. destruct H as [H1 H2].
  constructor; [|now apply IH].
  intros Hin. apply existsb_eqb_In in Hin. rewrite Hin in H1. discriminate.
Qed.

End DetectorFacts.

(* ================================================================== *)
(** * The score of a column that holds one value *)

Module ConstantColumnFacts.
Import Reals Lra.
Import Float64 Dyadic Pandas Script.
Import FloatFacts SummationFacts ReductionFacts RoundingFacts DetectorFacts.
Local Open Scope float_scope.

Lemma add_at_least (j j' k : Z) (x y : float) :
  (0 < j)%Z -> (0 < j')%Z -> (j + j' < 2 ^ 53)%Z -> (-1074 <= k)%Z ->
  at_least j k x -> at_least j' k y -> at_least (j + j') k (x + y).
Proof. unfold at_least. rewrite add_spec. apply add_lower. Qed.

Lemma fsum_at_least (k : Z) (q : float) (l : list float) :
  (-1074 <= k)%Z -> l <> [] -> (Z.of_nat (List.length l) < 2 ^ 53)%Z ->
  Forall (eq q) l -> at_least 1 k q ->
  at_least (Z.of_nat (List.length l)) k (fsum l).
Proof.
  intros K N B C H.
  apply (fsum_counted (fun j y => at_least (Z.of_nat j) k y) (List.length l));
    try assumption; try lia.
  - intros j j' x y J J' Bj Hx Hy. rewrite Nat2Z.inj_add.
    apply add_at_least; try lia; assumption.
  - eapply Forall_impl; [|exact C]. intros y <-. exact H.
Qed.

Lemma float_of_nat_value (n : nat) :
  (1 <= n)%nat -> (Z.of_nat n < 2 ^ 53)%Z ->
  exists m e,
    Prim2SF (float_of_nat n) = S754_finite false m e
    /\ F2R (Z.pos m) e = IZR (Z.of_nat n).
Proof.
  intros H1 H2. unfold float_of_nat, float_of_int.
  destruct (Z.of_nat n) as [|p|p] eqn:E; try lia.
  destruct (binary_normalize_value p H2) as [m [e [N V]]].
  destruct (binary_normalize_small p H2) as [m' [e' [N' V']]].
  rewrite N in N'. injection N' as <- <-.
  exists m, e. split; [|exact V]. rewrite N. now apply Prim2SF_SF2Prim.
Qed.

(** The deviation of [n] copies of a square that is at least [2^(2t)] is
    at least [2^t]. *)
Lemma root_at_least (q : float) (l : list float) (n : nat) (t : Z) :
  (2 <= n)%nat -> (Z.of_nat n < 2 ^ 53)%Z -> List.length l = n ->
  Forall (eq q) l -> (-1074 <= 2 * t)%Z -> at_least 1 (2 * t) q ->
  at_least 1 t (PrimFloat.sqrt (fsum l / float_of_nat (n - 1))).
Proof.
  intros N B L C T H.
  assert (S : at_least (Z.of_nat n) (2 * t) (fsum l)).
  { rewrite <- L. apply fsum_at_least with q; try assumption; try lia.
    intros ->. cbn [List.length] in L. lia. }
  destruct (float_of_nat_value (n - 1)) as [mc [ec [Ec Vc]]]; try lia.
  assert (V : at_least 1 (2 * t) (fsum l / float_of_nat (n - 1))).
  { unfold at_least in *. rewrite div_spec, Ec.
    destruct (Prim2SF (fsum l)) as [s|[]| |[] m e]; cbn [lower] in S;
      try tauto; try exact I.
    apply div_lower; try lia. rewrite Vc.
    assert (IZR (Z.of_nat (n - 1)) <= IZR (Z.of_nat n))%R
      by (apply IZR_le; lia).
    assert (0 <= IZR (Z.of_nat (n - 1)))%R by (apply IZR_le; lia).
    pose proof (bpow_gt_0 (2 * t)). unfold F2R in *. nra. }
  unfold at_least in *. rewrite sqrt_spec.
  destruct (Prim2SF (fsum l / float_of_nat (n - 1))) as [s|[]| |[] m e];
    cbn [lower] in V; try tauto; try exact I.
  apply sqrt_lower; [lia|]. unfold F2R in V at 1. lra.
Qed.

(** A deviation below twice the standard deviation scores below 3. *)
Lemma quiet_quotient (dev s : float) (sd : bool) (md : positive) (ed t : Z) :
  Prim2SF dev = S754_finite sd md ed ->
  (F2R (Z.pos md) ed < 2 * bpow t)%R -> at_least 1 t s ->
  gtb (abs (dev / s)) z_thresh = false.
Proof.
  intros D U H. unfold gtb. rewrite ltb_spec, abs_spec.
  change (Prim2SF z_thresh) with (S754_finite false 6755399441055744 (-51)).
  apply three_not_below; [apply Prim2SF_valid|].
  rewrite div_spec, D. unfold at_least in H.
  destruct (Prim2SF s) as [b|[]| |[] m e]; cbn [lower] in H; try tauto;
    try exact I.
  apply div_upper. unfold F2R in H at 1. lra.
Qed.

Lemma sub_swap (v m : float) :
  match Prim2SF (v - m) with
  | S754_finite s md ed => Prim2SF (m - v) = S754_finite (negb s) md ed
  | S754_infinity s => Prim2SF (m - v) = S754_infinity (negb s)
  | _ => True
  end.
Proof. rewrite !sub_spec. apply SFsub_swap. Qed.

Lemma infinite_root (q : float) (l : list float) (n : nat) :
  (2 <= n)%nat -> (Z.of_nat n < 2 ^ 53)%Z -> List.length l = n ->
  Forall (eq q) l -> Prim2SF q = S754_infinity false ->
  Prim2SF (PrimFloat.sqrt (fsum l / float_of_nat (n - 1)))
  = S754_infinity false.
Proof.
  intros N B L C H.
  assert (S : Prim2SF (fsum l) = S754_infinity false).
  { apply (fsum_closed (fun y => Prim2SF y = S754_infinity false)).
    - intros x y Hx Hy. now rewrite add_spec, Hx, Hy.
    - intros ->. cbn [List.length] in L. lia.
    - eapply Forall_impl; [|exact C]. now intros y <-. }
  destruct (float_of_nat_pos (n - 1)) as [mc [ec Ec]]; try lia.
  now rewrite sqrt_spec, div_spec, S, Ec.
Qed.

Lemma zero_root (l : list float) (n : nat) :
  (2 <= n)%nat -> (Z.of_nat n < 2 ^ 53)%Z ->
  Forall (eq zero) l ->
  PrimFloat.sqrt (fsum l / float_of_nat (n - 1)) = zero.
Proof.
  intros N B C. rewrite (fsum_zeros l C).
  destruct (float_of_nat_pos (n - 1)) as [mc [ec Ec]]; try lia.
  now rewrite (zero_div_positive _ mc ec Ec).
Qed.

(** The decision on [n] equal values [v] whose mean came out as [avg]. *)
Lemma constant_score (v avg : float) (l : list float) (n : nat) :
  (2 <= n)%nat -> (Z.of_nat n < 2 ^ 53)%Z -> List.length l = n ->
  Forall (eq ((avg - v) * (avg - v))) l ->
  let s := PrimFloat.sqrt (fsum l / float_of_nat (n - 1)) in
  gtb (abs ((v - avg) / s)) z_thresh = true
  <-> is_zero s = true /\ zero_or_nan (v - avg) = false.
Proof.
  intros N B L C s. split.
  - intros G.
    destruct (zero_or_nan (v - avg)) eqn:Z0;
      [rewrite zero_div_silent in G by exact Z0; discriminate|].
    split; [|reflexivity].
    pose proof (sub_swap v avg) as W.
    pose proof (Prim2SF_valid (v - avg)) as Vd.
    assert (NZ : ~ sf_zero_or_nan (Prim2SF (v - avg))).
    { intros A. apply zero_or_nan_spec in A. congruence. }
    destruct (Prim2SF (v - avg)) as [sd|sd| |sd md ed] eqn:D.
    + exfalso. apply NZ. constructor.
    + exfalso.
      assert (Q : Prim2SF ((avg - v) * (avg - v)) = S754_infinity false)
        by (rewrite mul_spec, W; now destruct sd).
      pose proof (infinite_root _ l n N B L C Q) as R. fold s in R.
      unfold gtb in G. rewrite ltb_spec, abs_spec, div_spec, D, R in G.
      now destruct sd.
    + exfalso. apply NZ. constructor.
    + cbn [SpecFloat.valid_binary] in Vd.
      assert (Q : Prim2SF ((avg - v) * (avg - v))
                  = SFmul prec emax (S754_finite (negb sd) md ed)
                      (S754_finite (negb sd) md ed))
        by now rewrite mul_spec, W.
      pose proof (bounded_value md ed Vd) as [_ U].
      set (E := (Zdigits2 (Z.pos md) + ed)%Z) in *.
      assert (K : exists t, (-1074 <= 2 * t)%Z
                  /\ (F2R (Z.pos md) ed < 2 * bpow t)%R
                  /\ (at_least 1 (2 * t) ((avg - v) * (avg - v))
                      \/ (avg - v) * (avg - v) = zero)).
      { destruct (Z_le_gt_dec (-1074) (2 * E - 2)) as [Big|Small].
        - exists (E - 1)%Z. split; [lia|]. split.
          + replace E with (1 + (E - 1))%Z in U by lia.
            rewrite bpow_add in U. change (bpow 1) with (2 * 1)%R in U. lra.
          + left. unfold at_least. rewrite Q.
            replace (2 * (E - 1))%Z with (2 * E - 2)%Z by lia.
            now apply mul_square_lower.
        - exists (-537)%Z. split; [lia|]. split.
          + assert (bpow E <= bpow (-537))%R by (apply bpow_le; lia).
            pose proof (bpow_gt_0 (-537)). lra.
          + pose proof (mul_square_sign (negb sd) md ed Vd) as Sg.
            pose proof (Prim2SF_valid ((avg - v) * (avg - v))) as Vq.
            rewrite <- Q in Sg. unfold at_least.
            destruct (Prim2SF ((avg - v) * (avg - v)))
              as [[]|[]| |[] mq xq] eqn:Pq; try tauto;
              [right; now apply Prim2SF_pzero|].
            left. cbn [lower SpecFloat.valid_binary] in *.
            destruct (bounded_facts mq xq Vq) as [Eq _].
            apply Rle_trans with (F2R 1 xq).
            * unfold F2R. pose proof (bpow_le (-1074) xq ltac:(lia)).
              change (2 * -537)%Z with (-1074)%Z. lra.
            * apply F2R_le. lia. }
      destruct K as [t [T [Ut [Hq|Hq]]]].
      * exfalso.
        pose proof (root_at_least _ l n t N B L C T Hq) as R. fold s in R.
        rewrite (quiet_quotient (v - avg) s sd md ed t D Ut R) in G.
        discriminate.
      * rewrite Hq in C. unfold s. rewrite (zero_root l n N B C).
        reflexivity.
  - intros [Zs Zd]. apply is_zero_spec in Zs. destruct Zs as [b Zs].
    assert (NZ : ~ sf_zero_or_nan (Prim2SF (v - avg))).
    { intros A. apply zero_or_nan_spec in A. congruence. }
    unfold gtb. rewrite ltb_spec, abs_spec, div_spec, Zs.
    destruct (Prim2SF (v - avg)) as [sd|sd| |sd md ed].
    + exfalso. apply NZ. constructor.
    + reflexivity.
    + exfalso. apply NZ. constructor.
    + reflexivity.
Qed.

Lemma count_constant (v : float) (x : list float) :
  is_nan v = false -> Forall (eq v) x -> count x = List.length x.
Proof.
  intros Nv C. unfold count. induction C as [|w x <- _ IH]; [reflexivity|].
  cbn [filter]. rewrite Nv. cbn [negb List.length]. now rewrite IH.
Qed.

Lemma nan_div_silent (a s : float) :
  is_nan s = true -> gtb (abs (a / s)) z_thresh = false.
Proof.
  intros H. apply is_nan_spec in H. unfold gtb.
  rewrite ltb_spec, abs_spec, div_spec, H.
  now destruct (Prim2SF a) as [b|b| |b m e].
Qed.

(** A column holding [v] throughout scores beyond the threshold exactly
    when its deviation has come out as zero while [v - mean] has not. *)
Lemma constant_column_decision (v : float) (x : list float) :
  Forall (eq v) x -> (Z.of_nat (List.length x) < 2 ^ 53)%Z ->
  gtb (abs ((v - mean x) / std x)) z_thresh = true
  <-> is_zero (std x) = true /\ zero_or_nan (v - mean x) = false.
Proof.
  intros C B.
  assert (Quiet : forall a s, gtb (abs (a / s)) z_thresh = false ->
            (is_zero s = true /\ zero_or_nan a = false -> False) ->
            gtb (abs (a / s)) z_thresh = true
            <-> is_zero s = true /\ zero_or_nan a = false).
  { intros a s Q F. rewrite Q. split; [discriminate | tauto]. }
  destruct (is_nan v) eqn:Nv.
  - assert (D : zero_or_nan (v - mean x) = true).
    { apply zero_or_nan_spec. rewrite sub_spec.
      apply is_nan_spec in Nv. rewrite Nv. constructor. }
    apply Quiet; [now apply zero_div_silent | intros [_ H]; congruence].
  - destruct (Nat.leb_spec (List.length x) 1) as [Short|Long].
    + rewrite (std_short x Short).
      apply Quiet; [now apply nan_div_silent | intros [H _]; discriminate].
    + unfold std, var_ddof, mean, nansum.
      rewrite (count_constant v x Nv C).
      destruct (Nat.leb_spec (List.length x) 1) as [|_]; [lia|].
      destruct (Nat.eqb_spec (List.length x) 0) as [|_]; [lia|].
      apply constant_score; try assumption; try lia.
      * apply length_map.
      * apply Forall_map. eapply Forall_impl; [|exact C].
        intros w <-. now rewrite Nv.
Qed.

End ConstantColumnFacts.

(* ================================================================== *)
(** * Properties of the pipeline *)

Import Float64 Pandas Sklearn Script.
Import FloatFacts ReductionFacts CompareFacts PandasFacts ScriptFacts
  ShapeFacts DetectorFacts ConstantColumnFacts.

(** Column names of a sample are pairwise distinct. *)
Ltac distinct_names := apply NoDup_names; reflexivity.

(** C1. On every run that completes, the [anomaly] column is the
    record-by-record bitwise OR of the [z_flag], [iso_flag] and [res_flag]
    columns of the final frame and nothing else: a record's verdict is 1
    exactly when one of its three flags is 1, and 0 exactly when all three
    are 0.  On a well-formed frame every record receives a verdict. *)
Theorem anomaly_is_or_of_flags (sk : Api) (global : Rng sk) (d : DataFrame) :
  fst (run sk global d) = inr tt ->
  let f := final_frame (run sk global d) in
  int_column f "anomaly"
  = map2 Z.lor
      (map2 Z.lor (int_column f "z_flag") (int_column f "iso_flag"))
      (int_column f "res_flag")
  /\ (forall i z s r,
        nth_error (int_column f "z_flag") i = Some z ->
        nth_error (int_column f "iso_flag") i = Some s ->
        nth_error (int_column f "res_flag") i = Some r ->
        nth_error (int_column f "anomaly") i = Some (Z.lor (Z.lor z s) r)
        /\ (Z.lor (Z.lor z s) r = 1 <-> z = 1 \/ s = 1 \/ r = 1)%Z
        /\ (Z.lor (Z.lor z s) r = 0 <-> z = 0 /\ s = 0 /\ r = 0)%Z)
  /\ (well_formed d -> List.length (int_column f "anomaly") = nrows d).
Proof.
  intros R. destruct (run_returns sk global d R) as [K [G E]].
  destruct (run_returns_calls sk global d R) as [D P].
  unfold final_frame. rewrite E. cbn [snd df].
  rewrite z_flag_at_end, iso_flag_at_end, res_flag_at_end, anomaly_at_end.
  split; [reflexivity|]. split.
  - intros i z s r Hz Hs Hr. split.
    + unfold anomaly, anomaly_of.
      apply map2_nth_error; [now apply map2_nth_error | assumption].
    + apply or_of_bits.
      * exact (astype_int_bit _ _ _ Hz).
      * destruct D as [flags D].
        destruct (density_returns sk global d flags D)
          as [scaled [model [_ [_ [_ [_ [_ [F I]]]]]]]].
        rewrite I, F in Hs. exact (astype_int_bit _ _ _ Hs).
      * exact (astype_int_bit _ _ _ Hr).
  - intros W. apply anomaly_length; try assumption.
    now apply (residual_inputs_ok_spec d).
Qed.

(** C1, on the eleven-record sample. *)
Lemma anomaly_is_or_of_flags_witness :
  let r := run Reference.api 0%Z Samples.eleven in
  fst r = inr tt
  /\ int_column (final_frame r) "anomaly"
     = map2 Z.lor
         (map2 Z.lor (int_column (final_frame r) "z_flag")
                     (int_column (final_frame r) "iso_flag"))
         (int_column (final_frame r) "res_flag").
Proof.
  split; [reflexivity|].
  apply (anomaly_is_or_of_flags Reference.api 0%Z Samples.eleven).
  reflexivity.
Defined.

(** C2. On every run that completes, on a dataset whose column names are
    distinct: [TEY] is read unchanged; the
    regressor is fitted once, on the rows of the predictor columns of all
    records and the whole [TEY] column, and [TEY_pred] is that model's
    prediction for every record; [residual] is [TEY - TEY_pred] record by
    record; [sigma_res] is one number, the standard deviation of the whole
    residual column (the square root of the sum of the squared differences
    to the column's mean over the number of values less one, NaN entries
    left out); and a record's [res_flag] is 1 exactly when
    [|residual| > 3 * sigma_res] and 0 otherwise. *)
Theorem residual_detector_contract (sk : Api) (global : Rng sk)
    (d : DataFrame) :
  NoDup (columns d) ->
  fst (run sk global d) = inr tt ->
  let f := final_frame (run sk global d) in
  let tey := float_column f "TEY" in
  let pred := float_column f "TEY_pred" in
  let res := float_column f "residual" in
  let n := List.length (filter (fun r => negb (is_nan r)) res) in
  let total := fsum (map (fun r => if is_nan r then 0 else r) res)%float in
  let m := (if (n =? 0)%nat then nan else total / float_of_nat n)%float in
  let ss :=
    fsum (map (fun r => if is_nan r then 0 else (m - r) * (m - r)) res)%float in
  let sigma_res :=
    (if (n <=? 1)%nat then nan else sqrt (ss / float_of_nat (n - 1)))%float in
  tey = float_column d "TEY"
  /\ reg_inputs d = filter (has_column d) ["AT"; "AP"; "RH"; "CDP"]
  /\ List.length (X d) = nrows d
  /\ (forall i, (i < nrows d)%nat ->
        nth_error (X d) i
        = Some (map (fun c => nth i (float_column d c) nan) (reg_inputs d)))
  /\ (exists model,
        reg_fit sk (X d) (float_column d "TEY") = inr model
        /\ pred = map (reg_predict sk model) (X d))
  /\ res = map2 sub tey pred
  /\ (forall i t p,
        nth_error tey i = Some t -> nth_error pred i = Some p ->
        nth_error res i = Some (t - p)%float)
  /\ int_column f "res_flag"
     = map (fun r => Z.b2z (3 * sigma_res <? abs r)%float) res
  /\ (forall i r,
        nth_error res i = Some r ->
        exists b,
          nth_error (int_column f "res_flag") i = Some b
          /\ (b = 1%Z <-> (3 * sigma_res <? abs r)%float = true)
          /\ (b = 0%Z <-> (3 * sigma_res <? abs r)%float = false)).
Proof.
  intros _ R. destruct (run_returns sk global d R) as [K [G E]].
  destruct (run_returns_calls sk global d R) as [_ [p P]].
  destruct (regression_returns sk d p P) as [model [Fit [_ [_ [Ep Ip]]]]].
  unfold final_frame. rewrite E. cbn [snd df].
  rewrite TEY_pred_at_end, residual_at_end, res_flag_at_end.
  assert (T : float_column (frame_at_end sk global d) "TEY"
              = float_column d "TEY").
  { unfold float_column, series_column.
    rewrite source_column_at_end; [reflexivity|].
    unfold derived_cols. simpl. intuition discriminate. }
  rewrite T.
  pose proof (std_written_out (residual sk d)) as S.
  cbv zeta in S |- *. rewrite <- S.
  split; [reflexivity|]. split; [reflexivity|].
  split; [apply to_rows_length|].
  split; [intros i Hi; unfold X, block; rewrite (to_rows_nth _ _ _ Hi);
          now rewrite map_map|].
  split; [exists model; split; [exact Fit | now rewrite Ip]|].
  split; [reflexivity|]. split.
  { intros i t q Ht Hq. unfold residual, y. now apply map2_nth_error. }
  split.
  { unfold res_flag, res_flag_of, astype_int. now rewrite map_map. }
  intros i r Hr.
  exact (res_flag_of_nth (three_sigma sk d) (residual sk d) i r Hr).
Qed.

(** C2, on the twelve-record sample: the regressor predicts 135 for every
    record, the last residual is 55, [sigma_res] is the square root of 300
    and the last record alone exceeds three times that. *)
Lemma residual_detector_contract_witness :
  let r := run Reference.api 0%Z Samples.outlier in
  let f := final_frame r in
  NoDup (columns Samples.outlier)
  /\ fst r = inr tt
  /\ float_column f "TEY_pred"
     = [135; 135; 135; 135; 135; 135; 135; 135; 135; 135; 135; 135]%float
  /\ float_column f "residual"
     = [-5; -5; -5; -5; -5; -5; -5; -5; -5; -5; -5; 55]%float
  /\ std (float_column f "residual") = 0x1.1520cd1372febp+4%float
  /\ three_sigma_of (float_column f "residual") = 0x1.9fb1339d2c7ep+5%float
  /\ int_column f "res_flag" = [0; 0; 0; 0; 0; 0; 0; 0; 0; 0; 0; 1]%Z
  /\ float_column f "residual"
     = map2 sub (float_column f "TEY") (float_column f "TEY_pred").
Proof.
  cbv zeta.
  assert (N : NoDup (columns Samples.outlier)) by distinct_names.
  split; [exact N|]. do 6 (split; [reflexivity|]).
  apply (residual_detector_contract Reference.api 0%Z Samples.outlier N).
  reflexivity.
Defined.

(** C3 fails on the code: the forest is fitted on the scaler's output but
    [predict] receives the raw [df[key_cols]].  For every implementation of
    the interface, once a sensor column resolves and the three calls of the
    detector return, the [iso_flag] column is the fitted model's label for
    the raw rows.  On the raw-scale sample, with the reference detector,
    that flags every record, while the same fitted model applied to the
    standardised matrix flags none. *)
Theorem iso_flag_scored_on_raw_rows :
  (forall (sk : Api) (global : Rng sk) (d : DataFrame)
          (scaled : list (list float)) (model : IsoModel sk),
      key_cols d <> [] ->
      let raw := key_rows d in
      scaler_fit_transform sk raw = inr scaled ->
      fit_forest sk iso global scaled = inr model ->
      iso_check sk model raw = None ->
      int_column (final_frame (run sk global d)) "iso_flag"
      = iso_flag_of sk model raw)
  /\ (let d := Samples.raw_scale in
      let raw := key_rows d in
      let f := final_frame (run Reference.api 0%Z d) in
      raw = [[1000; 130]; [1010; 130]; [1020; 130]; [1030; 130]]%float
      /\ exists scaled model,
           scaler_fit_transform Reference.api raw = inr scaled
           /\ fit_forest Reference.api iso 0%Z scaled = inr model
           /\ iso_check Reference.api model raw = None
           /\ int_column f "iso_flag" = [1; 1; 1; 1]%Z
           /\ iso_flag_of Reference.api model raw = [1; 1; 1; 1]%Z
           /\ iso_flag_of Reference.api model scaled = [0; 0; 0; 0]%Z).
Proof.
  split.
  - intros sk global d scaled model K raw S F P. subst raw.
    apply (iso_flag_assigned sk global d _ K).
    unfold density. now rewrite S, F, P.
  - cbv zeta. split; [reflexivity|].
    eexists _, _. repeat split; reflexivity.
Qed.

(** C4 as stated fails: with the population standard deviation the last
    record of the eleven-record sample scores above 3 on [TIT], yet the
    script, which divides by the sample deviation, flags no record. *)
Lemma population_std_counterexample :
  let d := Samples.eleven in
  let tit := float_column d "TIT" in
  let f := final_frame (run Reference.api 0%Z d) in
  In "TIT" (key_cols d)
  /\ map (fun s => gtb (abs s) z_thresh) (zscore_population tit)
     = [false; false; false; false; false; false; false; false; false;
        false; true]
  /\ int_column f "z_flag" = [0; 0; 0; 0; 0; 0; 0; 0; 0; 0; 0]%Z.
Proof. cbv zeta. split; [now left | split; reflexivity]. Qed.

(** C4, amended: the deviation is pandas' default, the sample standard
    deviation (normalised by N-1), and mean and deviation are taken over the
    non-NaN values of the whole column.  On a dataset whose column names
    are distinct, once a sensor column resolves, every record gets a
    [z_flag], and it is 1 exactly when, for at least one selected column,
    the absolute value of [(value - mean) / sample_std] exceeds 3.0; it
    is 0 otherwise.  Written out, with [n] the number of non-NaN values:
    the mean is their sum over [n], and the deviation the square root of
    the sum of their squared differences to the mean over [n - 1]. *)
Theorem z_flag_sample_std (sk : Api) (global : Rng sk) (d : DataFrame) :
  NoDup (columns d) ->
  key_cols d <> [] ->
  let f := final_frame (run sk global d) in
  List.length (int_column f "z_flag") = nrows d
  /\ forall i, (i < nrows d)%nat ->
       exists b,
         nth_error (int_column f "z_flag") i = Some (Z.b2z b)
         /\ (b = true <->
             exists c v,
               In c (key_cols d)
               /\ nth_error (float_column d c) i = Some v
               /\ let x := float_column d c in
                  let n := List.length (filter (fun t => negb (is_nan t)) x) in
                  let total :=
                    fsum (map (fun t => if is_nan t then 0 else t) x)%float in
                  let m :=
                    (if (n =? 0)%nat then nan
                     else total / float_of_nat n)%float in
                  let ss :=
                    fsum (map (fun t => if is_nan t then 0
                                        else (m - t) * (m - t)) x)%float in
                  let sample_std :=
                    (if (n <=? 1)%nat then nan
                     else sqrt (ss / float_of_nat (n - 1)))%float in
                  (3 <? abs ((v - m) / sample_std))%float = true).
Proof.
  intros _ K. cbv zeta.
  rewrite (z_flag_assigned sk global d K).
  split; [apply z_flag_length|].
  intros i Hi. exists (z_bit d (key_cols d) i). split.
  - now apply z_flag_of_nth.
  - rewrite z_bit_true. split.
    + intros [c [v [Hin [Hv Hs]]]]. exists c, v.
      split; [assumption|]. split; [assumption|].
      pose proof (std_written_out (float_column d c)) as S.
      cbv zeta in S. rewrite <- S. exact Hs.
    + intros [c [v [Hin [Hv Hs]]]]. exists c, v.
      split; [assumption|]. split; [assumption|].
      pose proof (std_written_out (float_column d c)) as S.
      cbv zeta in S. rewrite <- S in Hs. exact Hs.
Qed.

(** C4 amended, on the twelve-record sample: the last record scores about
    3.18 on [TIT] and is the only one flagged. *)
Lemma z_flag_sample_std_witness :
  let d := Samples.outlier in
  let f := final_frame (run Reference.api 0%Z d) in
  NoDup (columns d)
  /\ key_cols d <> []
  /\ mean (float_column d "TIT") = 1020%float
  /\ std (float_column d "TIT") = 0x1.1520cd1372febp+6%float
  /\ nth_error (zscore (float_column d "TIT")) 11
     = Some 0x1.96745ffa64646p+1%float
  /\ int_column f "z_flag" = [0; 0; 0; 0; 0; 0; 0; 0; 0; 0; 0; 1]%Z
  /\ List.length (int_column f "z_flag") = 12%nat.
Proof.
  cbv zeta.
  assert (N : NoDup (columns Samples.outlier)) by distinct_names.
  assert (K : key_cols Samples.outlier <> []) by discriminate.
  split; [exact N|]. split; [exact K|]. do 4 (split; [reflexivity|]).
  apply (z_flag_sample_std Reference.api 0%Z Samples.outlier N K).
Defined.

(** C5 as stated fails: on a frame with [TEY] and the single predictor [AT]
    the run does abort with the residual-model error and writes no report,
    but the Z-score and density detectors have run by then: both flag
    columns are assigned and the forest was fitted and asked to predict. *)
Lemma residual_precondition_counterexample :
  let d := Samples.one_predictor in
  let r := run Reference.api 0%Z d in
  has_column d "TEY" = true
  /\ reg_inputs d = ["AT"]
  /\ fst r = inl (ValueError ResidualInputs)
  /\ effects r
     = [SetColumn "z_flag" (Ints [0; 0; 0]%Z); Called ScalerFitTransform;
        Called ForestFit; Called ForestPredict;
        SetColumn "iso_flag" (Ints [1; 1; 1]%Z)]
  /\ existsb is_detector_effect (effects r) = true.
Proof. cbv zeta. repeat split; reflexivity. Qed.

(** C5, amended: when the dataset, its column names distinct, lacks [TEY]
    or has fewer than two of AT, AP, RH, CDP, the run ends in an
    exception, the regression is never fitted and no report is written.
    The guard sits in front of the
    residual detector only.  When no sensor column resolves, the
    resolver's error is raised first, before any effect.  When one does,
    the Z-score detector has assigned [z_flag] and the density detector
    has been entered by the time the run ends: either one of its three
    scikit-learn calls raises, and that exception ends the run with
    [iso_flag] not assigned, or they return, [iso_flag] is assigned and
    the residual-model [ValueError] is raised. *)
Theorem residual_precondition_abort (sk : Api) (global : Rng sk)
    (d : DataFrame) :
  NoDup (columns d) ->
  (List.length (reg_inputs d) < 2)%nat \/ has_column d "TEY" = false ->
  let r := run sk global d in
  (exists e, fst r = inl e)
  /\ existsb is_report (effects r) = false
  /\ existsb is_regression (effects r) = false
  /\ (key_cols d = [] ->
      r = (inl (ValueError (NoSensorColumns (columns d))), mkState d []))
  /\ (key_cols d <> [] ->
      (exists v rest,
          effects r = SetColumn "z_flag" v :: Called ScalerFitTransform :: rest)
      /\ ((fst r = inl (ValueError ResidualInputs)
           /\ map fst (assignments (effects r)) = ["z_flag"; "iso_flag"]
           /\ calls (effects r)
              = [ScalerFitTransform; ForestFit; ForestPredict])
          \/ (exists c e before,
                 fst r = inl (SklearnError c e)
                 /\ In c [ScalerFitTransform; ForestFit; ForestPredict]
                 /\ map fst (assignments (effects r)) = ["z_flag"]
                 /\ calls (effects r) = before ++ [c])))
  /\ (key_cols d <> [] ->
      (fst r = inl (ValueError ResidualInputs)
       <-> exists flags, density sk global d = inr flags)).
Proof.
  intros _ P. cbv zeta.
  assert (G : residual_inputs_ok d = false).
  { destruct (residual_inputs_ok d) eqn:G; [|reflexivity].
    apply residual_inputs_ok_spec in G. destruct G as [L T].
    destruct P as [P | P]; [lia | congruence]. }
  destruct (run_cases sk global d)
    as [[K E] | [[K [c [e [D E]]]] | [[K [_ [D E]]]
        | [[_ [G' _]] | [_ [G' _]]]]]];
    [| | | congruence | congruence];
    rewrite E; unfold effects; cbn [fst snd trace].
  - split; [eauto|]. split; [reflexivity|]. split; [reflexivity|].
    split; [reflexivity|]. split; intros K'; contradiction.
  - assert (C : In c [ScalerFitTransform; ForestFit; ForestPredict]).
    { destruct (density_raises sk global d c e D)
        as [[-> _] | [[-> _] | [-> _]]]; simpl; auto. }
    split; [eauto|].
    split; [now destruct c|].
    split; [destruct C as [<- | [<- | [<- | []]]]; reflexivity|].
    split; [intros K'; contradiction|]. split.
    + intros _. split.
      * exists (Ints (z_flag d)).
        destruct C as [<- | [<- | [<- | []]]]; cbn; eauto.
      * right.
        exists c, e,
          (match c with
           | ForestFit => [ScalerFitTransform]
           | ForestPredict => [ScalerFitTransform; ForestFit]
           | _ => []
           end).
        split; [reflexivity|]. split; [exact C|].
        destruct C as [<- | [<- | [<- | []]]]; split; reflexivity.
    + intros _. split; [discriminate|].
      intros [flags D']. congruence.
  - split; [eauto|]. split; [reflexivity|]. split; [reflexivity|].
    split; [intros K'; contradiction|]. split.
    + intros _. unfold effects_after_density.
      split; [eexists _, _; reflexivity|]. left. repeat split.
    + intros _. split; [intros _; exact D | reflexivity].
Qed.

(** C5 amended, on the file without records: [TEY] is there with the
    single predictor [AT], the scaler raises on the empty array, [z_flag]
    is assigned and [iso_flag] is not. *)
Lemma residual_precondition_abort_witness :
  let d := Samples.header_only in
  let r := run Reference.api 0%Z d in
  NoDup (columns d)
  /\ ((List.length (reg_inputs d) < 2)%nat \/ has_column d "TEY" = false)
  /\ key_cols d = ["TIT"; "TEY"]
  /\ fst r
     = inl (SklearnError ScalerFitTransform "Found array with 0 sample(s)")
  /\ effects r = [SetColumn "z_flag" (Ints []); Called ScalerFitTransform]
  /\ existsb is_report (effects r) = false.
Proof.
  cbv zeta.
  assert (P : (List.length (reg_inputs Samples.header_only) < 2)%nat
              \/ has_column Samples.header_only "TEY" = false).
  { left. vm_compute. lia. }
  assert (N : NoDup (columns Samples.header_only)) by distinct_names.
  split; [exact N|]. split; [exact P|]. do 3 (split; [reflexivity|]).
  apply (residual_precondition_abort Reference.api 0%Z Samples.header_only
           N P).
Defined.

(** C6 as stated fails: a column holding the same tiny value (0.1 * 2^-500)
    in all three records has a computed mean one unit in the last place
    away from that value, the squared deviations underflow to 0, the
    deviation is 0, and every score is [-inf]: all three records are
    flagged through the constant column (the other selected column, [TEY],
    scores NaN and flags nothing). *)
Lemma constant_column_counterexample :
  let d := Samples.tiny_constant in
  let x := float_column d "TIT" in
  let flagged := map (fun s => gtb (abs s) z_thresh) in
  key_cols d = ["TIT"; "TEY"]
  /\ x = [Samples.tiny; Samples.tiny; Samples.tiny]
  /\ std x = 0%float
  /\ zscore x = [neg_infinity; neg_infinity; neg_infinity]
  /\ flagged (zscore x) = [true; true; true]
  /\ flagged (zscore (float_column d "TEY")) = [false; false; false]
  /\ int_column (final_frame (run Reference.api 0%Z d)) "z_flag"
     = [1; 1; 1]%Z.
Proof. cbv zeta. repeat split; reflexivity. Qed.

(** C6, amended: a selected column whose values are all identical gives
    every record the same score, [(value - mean) / std], and dividing by a
    zero deviation raises nothing: [z_flag] is assigned, one flag per
    record.  So the column flags no record or every record.  With fewer
    than 2^53 records it flags every record exactly when the computed
    standard deviation is zero while [value - mean] is neither zero nor
    NaN, that is when the rounded mean misses the value and the squared
    difference underflows.  In every other case, among them a deviation
    [value - mean] that is zero or NaN, and a computed mean equal to the
    value (the score is then NaN), it flags none and [z_flag] is what the
    other selected columns give. *)
Theorem constant_column_gives_no_signal (sk : Api) (global : Rng sk)
    (d : DataFrame) (c : string) (v : float) :
  NoDup (columns d) ->
  In c (key_cols d) ->
  Forall (eq v) (float_column d c) ->
  let x := float_column d c in
  let n := List.length (filter (fun t => negb (is_nan t)) x) in
  let total := fsum (map (fun t => if is_nan t then 0 else t) x)%float in
  let m := (if (n =? 0)%nat then nan else total / float_of_nat n)%float in
  let ss :=
    fsum (map (fun t => if is_nan t then 0 else (m - t) * (m - t)) x)%float in
  let sample_std :=
    (if (n <=? 1)%nat then nan else sqrt (ss / float_of_nat (n - 1)))%float in
  let score := ((v - m) / sample_std)%float in
  let loud := (3 <? abs score)%float in
  let f := final_frame (run sk global d) in
  let others := filter (fun c' => negb (String.eqb c' c)) (key_cols d) in
  zscore x = map (fun _ => score) x
  /\ List.length (int_column f "z_flag") = nrows d
  /\ (zero_or_nan (v - m) = true -> loud = false)
  /\ (m = v -> score = nan)
  /\ ((Z.of_nat (List.length x) < 2 ^ 53)%Z ->
      (loud = true
       <-> is_zero sample_std = true /\ zero_or_nan (v - m) = false))
  /\ (loud = false ->
      int_column f "z_flag"
      = z_flag_of (nrows d) (map zscore (block d others)))
  /\ (loud = true -> well_formed d ->
      int_column f "z_flag" = repeat 1%Z (nrows d)).
Proof.
  intros _ Hin C. cbv zeta.
  pose proof (std_written_out (float_column d c)) as S. cbv zeta in S.
  rewrite <- S. clear S.
  pose proof (mean_written_out (float_column d c)) as M. cbv zeta in M.
  rewrite <- M. clear M.
  change (3 <? ?s)%float with (gtb s z_thresh).
  pose proof (zscore_uniform v _ C) as U.
  assert (K : key_cols d <> []) by (intros E; rewrite E in Hin; exact Hin).
  rewrite (z_flag_assigned sk global d K).
  split; [exact U|]. split; [apply z_flag_length|].
  split; [apply zero_div_silent|]. split.
  { intros M. apply div_zero_or_nan_nan.
    - rewrite M. apply sub_diag_zero_or_nan.
    - now apply (std_constant v). }
  split; [now apply constant_column_decision|].
  split.
  - intros Q. unfold z_flag, z_scores, z_flag_of, any_axis1. f_equal.
    apply map_ext. intros i. apply (z_bit_drop_quiet d c (key_cols d) i).
    rewrite U. apply Forall_map, Forall_forall. intros w _. exact Q.
  - intros L W.
    apply nth_error_ext. intros i.
    destruct (Nat.ltb_spec i (nrows d)) as [Hi|Hi].
    + unfold z_flag, z_scores. rewrite (z_flag_of_nth d _ i Hi).
      rewrite (z_bit_loud d c (key_cols d) i Hin).
      * now rewrite nth_error_repeat.
      * rewrite (column_length d c W (key_cols_has_column d c Hin)).
        exact Hi.
      * rewrite U. apply Forall_map, Forall_forall. intros w _. exact L.
    + rewrite (proj2 (nth_error_None _ _)) by (rewrite z_flag_length; lia).
      symmetry. apply nth_error_None. rewrite repeat_length. lia.
Qed.

(** C6 amended, on the sample whose [CDP] column is constantly 0.1: the
    computed mean is one unit in the last place above 0.1, the deviation
    is about 1.7e-17 and not zero, every record scores about -0.816 and
    none is flagged. *)
Lemma constant_column_gives_no_signal_witness :
  let d := Samples.steady in
  let x := float_column d "CDP" in
  NoDup (columns d)
  /\ In "CDP" (key_cols d)
  /\ Forall (eq Samples.tenth) x
  /\ mean x = 0x1.999999999999bp-4%float
  /\ std x = 0x1.3988e1409212ep-56%float
  /\ is_zero (std x) = false
  /\ int_column (final_frame (run Reference.api 0%Z d)) "z_flag"
     = [0; 0; 0]%Z
  /\ zscore x
     = map (fun _ => (-0x1.a20bd700c2c3fp-1)%float) x.
Proof.
  cbv zeta.
  assert (N : NoDup (columns Samples.steady)) by distinct_names.
  assert (Hin : In "CDP" (key_cols Samples.steady))
    by (vm_compute; tauto).
  assert (C : Forall (eq Samples.tenth) (float_column Samples.steady "CDP"))
    by (repeat constructor).
  split; [exact N|]. split; [exact Hin|]. split; [exact C|].
  do 4 (split; [reflexivity|]).
  apply (constant_column_gives_no_signal Reference.api 0%Z Samples.steady
           "CDP" Samples.tenth N Hin C).
Defined.

(** C7. The resolver keeps exactly the candidates among TIT, TAT, TEY, CDP,
    CO, NOx that are columns of the dataset, each once, in the order of the
    candidate list; that list depends on which columns the schema has, not
    on their order.  When it is empty the run stops at once with the
    [ValueError] whose message lists the available columns: the frame is
    untouched, no detector has run and no report is written. *)
Theorem column_resolver_contract (sk : Api) (global : Rng sk) (d : DataFrame) :
  candidate_cols = ["TIT"; "TAT"; "TEY"; "CDP"; "CO"; "NOx"]
  /\ (forall c, In c (key_cols d) <-> In c candidate_cols /\ In c (columns d))
  /\ Subsequence (key_cols d) candidate_cols
  /\ NoDup (key_cols d)
  /\ (forall d', (forall c, In c (columns d) <-> In c (columns d')) ->
                 key_cols d' = key_cols d)
  /\ (key_cols d = [] ->
      fst (run sk global d)
      = inl (ValueError (NoSensorColumns (columns d)))
      /\ final_frame (run sk global d) = d
      /\ effects (run sk global d) = []).
Proof.
  split; [reflexivity|]. split; [intros c; apply present_In|].
  split; [apply filter_Subsequence|]. split.
  - apply NoDup_filter. unfold candidate_cols.
    repeat (constructor; [simpl; intuition discriminate|]). constructor.
  - split.
    + intros d' H. symmetry. now apply present_same_members.
    + intros K. now rewrite (run_no_sensor sk global d K).
Qed.

(** C7, on the sample that has none of the candidate columns. *)
Lemma column_resolver_contract_witness :
  let d := Samples.no_sensor in
  key_cols d = []
  /\ fst (run Reference.api 0%Z d)
     = inl (ValueError (NoSensorColumns ["AT"; "AP"; "RH"])).
Proof.
  cbv zeta. split; [reflexivity|].
  apply (column_resolver_contract Reference.api 0%Z Samples.no_sensor).
  reflexivity.
Defined.

(** The declared order, not the schema's: [CDP] precedes [TEY] in the frame
    and follows it in the resolved list. *)
Lemma key_cols_in_declared_order :
  columns Samples.constant = ["TIT"; "CDP"; "TEY"; "AT"; "AP"]
  /\ key_cols Samples.constant = ["TIT"; "TEY"; "CDP"].
Proof. split; reflexivity. Qed.

(** Without a seed the forest draws from the process-wide generator. *)
Lemma unseeded_forest_uses_global (sk : Api) (c : float) (n : nat)
    (g : Rng sk) (M : list (list float)) :
  fit_forest sk (mkIsolationForest c RandomNone n) g M = iso_fit sk c n g M.
Proof. reflexivity. Qed.

(** The script's forest never does: its generator is the one seeded 42. *)
Lemma seeded_forest (sk : Api) (g : Rng sk) (M : list (list float)) :
  fit_forest sk iso g M
  = iso_fit sk (contamination iso) 200 (rng_of_seed sk 42) M.
Proof. reflexivity. Qed.

(** C8. Two runs on the same dataset give the same [iso_flag] for every
    record, and indeed the same outcome, frame and effects, whatever state
    the process-wide random generator is in at either run: the forest is
    seeded with the constant 42 and nothing else in the pipeline reads the
    generator. *)
Theorem run_deterministic (sk : Api) (g1 g2 : Rng sk) (d : DataFrame) :
  int_column (final_frame (run sk g1 d)) "iso_flag"
  = int_column (final_frame (run sk g2 d)) "iso_flag"
  /\ run sk g1 d = run sk g2 d.
Proof.
  assert (F : forall M, fit_forest sk iso g1 M = fit_forest sk iso g2 M).
  { intros M. now rewrite !seeded_forest. }
  assert (D : density sk g1 d = density sk g2 d).
  { unfold density. destruct (scaler_fit_transform sk (key_rows d));
      [reflexivity | now rewrite F]. }
  assert (I : iso_flag sk g1 d = iso_flag sk g2 d)
    by (unfold iso_flag; now rewrite D).
  assert (E : run sk g1 d = run sk g2 d).
  { destruct (run_cases sk g1 d)
      as [[K E1] | [[K [c [e [D1 E1]]]] | [[K [G [[fl D1] E1]]]
          | [[K [G [[fl D1] [c [e [R1 E1]]]]]]
            | [K [G [[fl D1] [[p R1] E1]]]]]]]].
    - now rewrite E1, (run_no_sensor sk g2 d K).
    - rewrite D in D1. now rewrite E1, (run_density_raises sk g2 d c e K D1).
    - rewrite D in D1. rewrite E1, (run_residual_guard sk g2 d fl K D1 G).
      unfold frame_after_density, effects_after_density. now rewrite I.
    - rewrite D in D1.
      rewrite E1, (run_regression_raises sk g2 d fl c e K D1 G R1).
      unfold frame_after_density, effects_after_density. now rewrite I.
    - rewrite D in D1. rewrite E1, (run_complete sk g2 d fl p K D1 G R1).
      unfold frame_at_end, effects_at_end, report, anomaly,
        frame_after_density, effects_after_density. now rewrite I. }
  now rewrite E.
Qed.

(** C9. Whatever way a run ends: every column whose name is not one of the
    six derived names, so every sensor and predictor column, holds the same
    values in the same record order as in the input; the index keeps its
    length; the input's columns keep their positions and only derived
    columns are appended.  The assignments of a run are to pairwise
    distinct derived names, in a completed run to each of [z_flag],
    [iso_flag], [TEY_pred], [residual], [res_flag], [anomaly] exactly once
    and in that order, and the value of each assignment is the value the
    column still has when the run ends. *)
Theorem source_columns_untouched (sk : Api) (global : Rng sk) (d : DataFrame) :
  let r := run sk global d in
  (forall c, ~ In c derived_cols -> getitem (final_frame r) c = getitem d c)
  /\ (forall c, In c candidate_cols \/ In c reg_candidates ->
                ~ In c derived_cols)
  /\ nrows (final_frame r) = nrows d
  /\ (exists added,
        columns (final_frame r) = columns d ++ added
        /\ incl added derived_cols)
  /\ NoDup (map fst (assignments (effects r)))
  /\ incl (map fst (assignments (effects r))) derived_cols
  /\ (fst r = inr tt -> map fst (assignments (effects r)) = derived_cols)
  /\ Forall (fun a => getitem (final_frame r) (fst a) = Some (snd a))
            (assignments (effects r)).
Proof.
  cbv zeta.
  assert (S : forall c, In c candidate_cols \/ In c reg_candidates ->
                        ~ In c derived_cols).
  { intros c [H | H] D;
      [exact (derived_not_candidate c D H)
      | exact (derived_not_predictor c D H)]. }
  unfold final_frame, effects.
  destruct (run_cases sk global d)
    as [[K E] | [[K [c [e [_ E]]]] | [[K [_ [_ E]]]
        | [[K [_ [_ [c [e [_ E]]]]]] | [K [_ [_ [_ E]]]]]]]];
    rewrite E; cbn [fst snd df trace];
    rewrite ?assignments_app, ?assignments_attempted, ?app_nil_r.
  - repeat split; auto.
    + apply columns_extend_refl.
    + constructor.
    + intros c [].
    + discriminate.
  - split; [intros c' H; now apply source_column_after_zscore|].
    split; [exact S|]. split; [reflexivity|].
    split; [apply columns_after_zscore|].
    cbn [assignments]. rewrite assignments_attempted. cbn [map fst].
    split; [repeat constructor; simpl; tauto|].
    split; [intros c' [<- | []]; is_derived|].
    split; [discriminate|].
    repeat constructor. cbn [fst snd]. apply getitem_setitem_same.
  - split; [intros c H; now apply source_column_after_density|].
    split; [exact S|]. split; [reflexivity|].
    split; [apply columns_after_density|].
    split.
    { cbn. repeat (constructor; [simpl; intuition discriminate|]).
      constructor. }
    split; [cbn; intros c [<- | [<- | []]]; is_derived|].
    split; [discriminate|]. apply assignments_after_density.
  - split; [intros c' H; now apply source_column_after_density|].
    split; [exact S|]. split; [reflexivity|].
    split; [apply columns_after_density|].
    split.
    { cbn. repeat (constructor; [simpl; intuition discriminate|]).
      constructor. }
    split; [cbn; intros c' [<- | [<- | []]]; is_derived|].
    split; [discriminate|]. apply assignments_after_density.
  - split; [intros c H; now apply source_column_at_end|].
    split; [exact S|]. split; [reflexivity|].
    split; [apply columns_at_end|].
    split.
    { cbn. repeat (constructor; [simpl; intuition discriminate|]).
      constructor. }
    split; [cbn; intros c H; exact H|].
    split; [reflexivity|]. apply assignments_at_end.
Qed.

(** C10 as stated fails: on a single-record dataset the fit is perfect (the
    residual is 0), but the sample standard deviation of one value is NaN,
    not 0; the record is not flagged all the same. *)
Lemma perfect_fit_single_record_counterexample :
  let r := run Reference.api 0%Z Samples.single in
  let res := float_column (final_frame r) "residual" in
  fst r = inr tt
  /\ res = [0%float]
  /\ std res = nan
  /\ is_zero (std res) = false
  /\ int_column (final_frame r) "res_flag" = [0%Z].
Proof. cbv zeta. repeat split; reflexivity. Qed.

(** C10, amended: when every record's residual is zero, no record receives
    [res_flag = 1], whatever the number of records; [sigma_res] is 0, and so
    is the threshold, when the dataset has at least two records (and fewer
    than 2^53, so that the count is an exact float); with a single record
    [sigma_res] is NaN. *)
Theorem perfect_fit_flags_nothing (sk : Api) (global : Rng sk)
    (d : DataFrame) :
  fst (run sk global d) = inr tt ->
  let f := final_frame (run sk global d) in
  let res := float_column f "residual" in
  let sigma_res := std res in
  Forall (fun v => is_zero v = true) res ->
  Forall (eq 0%Z) (int_column f "res_flag")
  /\ List.length (int_column f "res_flag") = List.length res
  /\ zero_or_nan sigma_res = true
  /\ ((2 <= List.length res)%nat -> (Z.of_nat (List.length res) < 2 ^ 53)%Z ->
      sigma_res = 0%float /\ three_sigma_of res = 0%float)
  /\ ((List.length res <= 1)%nat -> sigma_res = nan).
Proof.
  intros R. destruct (run_returns sk global d R) as [K [G E]].
  unfold final_frame. rewrite E. cbn [snd df].
  rewrite residual_at_end, res_flag_at_end. cbv zeta. intros Z0.
  pose proof (std_zeros_zero_or_nan _ Z0) as S.
  split.
  { unfold res_flag, res_flag_of, astype_int, three_sigma, three_sigma_of.
    rewrite map_map. apply Forall_map.
    eapply Forall_impl; [|exact Z0]. intros v Hv. cbv beta.
    rewrite (gtb_abs_zero v _ Hv (mul_zero_or_nan_r 3 _ S)). reflexivity. }
  split; [apply res_flag_length|]. split; [exact S|]. split.
  - intros H2 HB. unfold three_sigma_of.
    rewrite (std_zeros _ Z0 H2 HB). split; reflexivity.
  - apply std_short.
Qed.

(** C10 amended, on the raw-scale sample: [TEY] is constant and the
    reference regressor reproduces it on all four records. *)
Lemma perfect_fit_flags_nothing_witness :
  let r := run Reference.api 0%Z Samples.raw_scale in
  let res := float_column (final_frame r) "residual" in
  fst r = inr tt
  /\ Forall (fun v => is_zero v = true) res
  /\ Forall (eq 0%Z) (int_column (final_frame r) "res_flag")
  /\ std res = 0%float.
Proof.
  cbv zeta.
  assert (R : fst (run Reference.api 0%Z Samples.raw_scale) = inr tt)
    by reflexivity.
  assert (Z0 : Forall (fun v => is_zero v = true)
                 (float_column
                    (final_frame (run Reference.api 0%Z Samples.raw_scale))
                    "residual"))
    by (repeat constructor).
  destruct (perfect_fit_flags_nothing Reference.api 0%Z Samples.raw_scale
              R Z0) as [F [_ [_ [S _]]]].
  split; [exact R|]. split; [exact Z0|]. split; [exact F|].
  apply S; vm_compute; [lia | reflexivity].
Defined.


(* ================================================================== *)
(** * Facts about the cleaning statements *)

Module CleaningFacts.
Import Float64 Pandas Script Cleaning Plots.
Import FloatFacts CompareFacts PandasFacts.
Local Open Scope float_scope.

(** ** Forward fill *)

Lemma ffill_from_length (last : option float) (x : list float) :
  List.length (ffill_from last x) = List.length x.
Proof.
  revert last. induction x as [|v x IH]; intros last; simpl; [reflexivity|].
  destruct (is_nan v); [destruct last|]; simpl; now rewrite IH.
Qed.

(** The carried value is a valid one. *)
Definition valid_carry (last : option float) : Prop :=
  forall l, last = Some l -> is_nan l = false.

Lemma valid_carry_none : valid_carry None.
Proof. intros l H. discriminate H. Qed.

Lemma valid_carry_some (v : float) : is_nan v = false -> valid_carry (Some v).
Proof. intros H l [= <-]. exact H. Qed.

(** Entry [i] of the output is either the last valid input at or above it,
    or, when there is none, the carried value (NaN without one). *)
Lemma ffill_from_spec (last : option float) (x : list float) (i : nat)
    (w : float) :
  valid_carry last ->
  nth_error (ffill_from last x) i = Some w ->
  (exists j,
      (j <= i)%nat /\ nth_error x j = Some w /\ is_nan w = false
      /\ forall k u, (j < k <= i)%nat -> nth_error x k = Some u ->
                     is_nan u = true)
  \/ ((forall k u, (k <= i)%nat -> nth_error x k = Some u -> is_nan u = true)
      /\ match last with
         | Some l => w = l
         | None => is_nan w = true
         end).
Proof.
  revert last i. induction x as [|v x IH]; intros last i C H.
  - destruct i; discriminate H.
  - simpl in H. destruct (is_nan v) eqn:N.
    + (* a gap *)
      assert (Step : forall i' : nat,
                 nth_error (ffill_from last x) i' = Some w ->
                 (exists j,
                     (j <= S i')%nat /\ nth_error (v :: x) j = Some w
                     /\ is_nan w = false
                     /\ forall k u, (j < k <= S i')%nat ->
                                    nth_error (v :: x) k = Some u ->
                                    is_nan u = true)
                 \/ ((forall k u, (k <= S i')%nat ->
                                  nth_error (v :: x) k = Some u ->
                                  is_nan u = true)
                     /\ match last with
                        | Some l => w = l
                        | None => is_nan w = true
                        end)).
      { intros i' H'.
        destruct (IH last i' C H') as [[j [Hj [Hx [Hw Hg]]]] | [Hall Hl]].
        - left. exists (S j). repeat split; try assumption; [lia|].
          intros [|k] u Hk Hu; [lia|]. simpl in Hu.
          apply (Hg k u); [lia | exact Hu].
        - right. split; [|exact Hl].
          intros [|k] u Hk Hu; simpl in Hu.
          + now injection Hu as <-.
          + apply (Hall k u); [lia | exact Hu]. }
      assert (Head : forall k u, (k <= 0)%nat ->
                                 nth_error (v :: x) k = Some u ->
                                 is_nan u = true).
      { intros k u Hk Hu. assert (k = 0)%nat by lia. subst k.
        simpl in Hu. now injection Hu as <-. }
      destruct last as [l|]; destruct i as [|i]; simpl in H.
      * injection H as <-. right. split; [exact Head | reflexivity].
      * now apply Step.
      * injection H as <-. right. split; [exact Head | exact N].
      * now apply Step.
    + (* a valid value *)
      destruct i as [|i]; simpl in H.
      * injection H as <-. left. exists 0%nat.
        repeat split; auto. intros k u Hk. lia.
      * destruct (IH (Some v) i (valid_carry_some v N) H)
          as [[j [Hj [Hx [Hw Hg]]]] | [Hall Hl]].
        -- left. exists (S j). repeat split; try assumption; [lia|].
           intros [|k] u Hk Hu; [lia|]. simpl in Hu.
           apply (Hg k u); [lia | exact Hu].
        -- left. exists 0%nat. subst w. repeat split; auto; [lia|].
           intros [|k] u Hk Hu; [lia|]. simpl in Hu.
           apply (Hall k u); [lia | exact Hu].
Qed.

Lemma ffill_from_idempotent (last : option float) (x : list float) :
  valid_carry last ->
  ffill_from last (ffill_from last x) = ffill_from last x.
Proof.
  revert last. induction x as [|v x IH]; intros last C; simpl; [reflexivity|].
  destruct (is_nan v) eqn:N.
  - destruct last as [l|]; simpl.
    + rewrite (C l eq_refl). now rewrite (IH (Some l) C).
    + rewrite N. now rewrite (IH None C).
  - simpl. rewrite N. now rewrite (IH (Some v) (valid_carry_some v N)).
Qed.

(** ** Dropping duplicate records *)

Lemma cell_eqb_refl (a : Cell) : cell_eqb a a = true.
Proof.
  destruct a as [v|z]; simpl; [apply eqb_refl_or_nan | apply Z.eqb_refl].
Qed.

Lemma cell_eqb_sym (a b : Cell) : cell_eqb a b = cell_eqb b a.
Proof.
  destruct a as [x|x], b as [y|y]; simpl; try reflexivity.
  - now rewrite (eqb_sym x y), (andb_comm (is_nan x)).
  - apply Z.eqb_sym.
Qed.

Lemma record_eqb_refl (a : list Cell) : record_eqb a a = true.
Proof. induction a as [|x a IH]; simpl; [|rewrite cell_eqb_refl]; auto. Qed.

Lemma record_eqb_sym (a b : list Cell) : record_eqb a b = record_eqb b a.
Proof.
  revert b. induction a as [|x a IH]; intros [|y b]; simpl; try reflexivity.
  now rewrite cell_eqb_sym, IH.
Qed.

Lemma duplicated_from_length (kept rows : list (list Cell)) :
  List.length (duplicated_from kept rows) = List.length rows.
Proof.
  revert kept. induction rows as [|r rows IH]; intros kept; simpl;
    [reflexivity|].
  destruct (existsb (record_eqb r) kept); simpl; now rewrite IH.
Qed.

Lemma Subsequence_nil {A : Type} (l : list A) : Subsequence [] l.
Proof. induction l; constructor; assumption. Qed.

Lemma compress_Subsequence {A : Type} (mask : list bool) (l : list A) :
  Subsequence (compress mask l) l.
Proof.
  revert mask. induction l as [|x l IH]; intros [|b m]; simpl.
  - constructor.
  - constructor.
  - apply Subsequence_nil.
  - destruct b; [apply sub_keep | apply sub_skip]; apply IH.
Qed.

Lemma first_occurrences_distinct (kept rows : list (list Cell)) :
  distinct_from kept (first_occurrences kept rows).
Proof.
  unfold first_occurrences. revert kept.
  induction rows as [|r rows IH]; intros kept; simpl; [exact I|].
  destruct (existsb (record_eqb r) kept) eqn:E; simpl.
  - apply IH.
  - split; [exact E | apply IH].
Qed.

(** On distinct records the pass marks nothing. *)
Lemma distinct_not_duplicated (kept rows : list (list Cell)) :
  distinct_from kept rows ->
  duplicated_from kept rows = map (fun _ => false) rows.
Proof.
  revert kept. induction rows as [|r rows IH]; intros kept D; simpl;
    [reflexivity|].
  destruct D as [E D]. rewrite E. now rewrite (IH _ D).
Qed.

Lemma compress_all {A : Type} (l : list A) (mask : list bool) :
  Forall (eq true) mask -> (List.length l <= List.length mask)%nat ->
  compress mask l = l.
Proof.
  revert mask. induction l as [|x l IH]; intros [|b m] F L; simpl in *;
    try reflexivity; try lia.
  inversion F; subst. now rewrite IH by (assumption || lia).
Qed.

Lemma distinct_from_before (kept rows : list (list Cell)) (j : nat)
    (b : list Cell) :
  distinct_from kept rows -> nth_error rows j = Some b ->
  existsb (record_eqb b) (kept ++ firstn j rows) = false.
Proof.
  revert kept j. induction rows as [|r rows IH]; intros kept j D H.
  - destruct j; discriminate H.
  - destruct D as [E D]. destruct j as [|j]; simpl in H.
    + injection H as <-. simpl. now rewrite app_nil_r.
    + specialize (IH _ j D H). simpl.
      now rewrite <- app_assoc in IH.
Qed.

(** Every record of the input has an equal among the kept ones. *)
Lemma first_occurrences_cover (kept rows : list (list Cell))
    (r : list Cell) :
  In r rows ->
  existsb (record_eqb r) (kept ++ first_occurrences kept rows) = true.
Proof.
  unfold first_occurrences. revert kept.
  induction rows as [|r0 rows IH]; intros kept H; [contradiction|].
  simpl. destruct (existsb (record_eqb r0) kept) eqn:E; simpl.
  - destruct H as [<- | H].
    + rewrite existsb_app, E. reflexivity.
    + now apply IH.
  - destruct H as [<- | H].
    + rewrite existsb_app. simpl. rewrite record_eqb_refl.
      now rewrite orb_true_r.
    + specialize (IH (kept ++ [r0]) H).
      now rewrite <- app_assoc in IH.
Qed.

(** ** Selecting rows by a mask *)

Lemma positions_from_bounds (k : nat) (mask : list bool) (i : nat) :
  In i (positions_from k mask) -> (k <= i < k + List.length mask)%nat.
Proof.
  revert k. induction mask as [|b m IH]; intros k H; simpl in *;
    [contradiction|].
  destruct b; [destruct H as [<- | H]|];
    try lia; specialize (IH (S k) H); lia.
Qed.

Lemma positions_from_length (k : nat) (mask : list bool) :
  List.length (positions_from k mask) = count_true mask.
Proof.
  unfold count_true. revert k.
  induction mask as [|b m IH]; intros k; simpl; [reflexivity|].
  destruct b; simpl; now rewrite IH.
Qed.

Lemma compress_positions_from {A : Type} (k : nat) (mask : list bool)
    (l : list A) (d : A) :
  (List.length mask <= List.length l)%nat ->
  compress mask l = map (fun i => nth (i - k) l d) (positions_from k mask).
Proof.
  revert k l. induction mask as [|b m IH]; intros k [|x l] L;
    try reflexivity; try (simpl in L; lia).
  assert (E : map (fun i => nth (i - k) (x :: l) d) (positions_from (S k) m)
              = map (fun i => nth (i - S k) l d) (positions_from (S k) m)).
  { apply map_ext_in. intros i Hi. apply positions_from_bounds in Hi.
    replace (i - k)%nat with (S (i - S k)) by lia. reflexivity. }
  simpl in L.
  destruct b; cbn [compress positions_from map];
    rewrite E, <- (IH (S k) l) by lia;
    [now rewrite Nat.sub_diag | reflexivity].
Qed.

Lemma compress_positions {A : Type} (mask : list bool) (l : list A) (d : A) :
  (List.length mask <= List.length l)%nat ->
  compress mask l = map (fun i => nth i l d) (positions mask).
Proof.
  intros L. rewrite (compress_positions_from 0 mask l d L).
  apply map_ext. intros i. now rewrite Nat.sub_0_r.
Qed.

Lemma compress_length {A : Type} (mask : list bool) (l : list A) :
  List.length l = List.length mask ->
  List.length (compress mask l) = count_true mask.
Proof.
  intros L. destruct l as [|x l].
  - destruct mask; [reflexivity | discriminate L].
  - rewrite (compress_positions mask (x :: l) x) by lia.
    rewrite length_map. apply positions_from_length.
Qed.

Lemma count_true_le (mask : list bool) :
  (count_true mask <= List.length mask)%nat.
Proof. unfold count_true. apply filter_length_le. Qed.

Lemma nth_map_seq {A : Type} (f : nat -> A) (n i : nat) (d : A) :
  (i < n)%nat -> nth i (map f (seq 0 n)) d = f i.
Proof.
  intros H. rewrite (nth_indep _ d (f 0%nat)) by now rewrite length_map, length_seq.
  rewrite map_nth, seq_nth by assumption. reflexivity.
Qed.

Lemma nth_map_in {A B : Type} (f : A -> B) (l : list A) (i : nat) (d : B)
    (a : A) :
  (i < List.length l)%nat -> nth i (map f l) d = f (nth i l a).
Proof.
  intros H. rewrite (nth_indep _ d (f a)) by now rewrite length_map.
  apply map_nth.
Qed.

Lemma series_length_compress (mask : list bool) (s : Series) :
  series_length s = List.length mask ->
  series_length (compress_series mask s) = count_true mask.
Proof. destruct s; simpl; apply compress_length. Qed.

Lemma take_rows_well_formed (mask : list bool) (d : DataFrame) :
  well_formed d -> List.length mask = nrows d ->
  well_formed (take_rows mask d).
Proof.
  unfold well_formed, take_rows. simpl. intros W L.
  apply Forall_map. eapply Forall_impl; [|exact W].
  intros c Hc. simpl. apply series_length_compress. congruence.
Qed.

Lemma records_length (d : DataFrame) : List.length (records d) = nrows d.
Proof. unfold records. now rewrite length_map, length_seq. Qed.

(** The records of the selected frame are the selected records. *)
Lemma records_take_rows (mask : list bool) (d : DataFrame) :
  well_formed d -> List.length mask = nrows d ->
  records (take_rows mask d) = compress mask (records d).
Proof.
  intros W L.
  rewrite (compress_positions mask (records d) [])
    by (rewrite records_length; lia).
  apply (nth_ext _ _ [] []).
  - rewrite records_length, length_map. simpl.
    symmetry. apply positions_from_length.
  - rewrite records_length. simpl. intros k Hk.
    assert (Hp : (k < List.length (positions mask))%nat)
      by (unfold positions; now rewrite positions_from_length).
    rewrite (nth_map_in _ _ k [] 0%nat Hp).
    assert (Hin : In (nth k (positions mask) 0%nat) (positions mask))
      by now apply nth_In.
    apply positions_from_bounds in Hin.
    unfold records. rewrite !nth_map_seq by (simpl; lia).
    unfold record, take_rows. simpl. rewrite map_map.
    apply map_ext_in. intros c Hc. simpl.
    unfold well_formed in W. rewrite Forall_forall in W.
    specialize (W c Hc).
    destruct (snd c) as [v|v]; simpl in *.
    + rewrite (compress_positions mask v nan) by lia.
      now rewrite (nth_map_in _ _ k nan 0%nat Hp).
    + rewrite (compress_positions mask v 0%Z) by lia.
      now rewrite (nth_map_in _ _ k 0%Z 0%nat Hp).
Qed.

Lemma duplicated_length (d : DataFrame) :
  List.length (map negb (duplicated d)) = nrows d.
Proof.
  unfold duplicated.
  now rewrite length_map, duplicated_from_length, records_length.
Qed.

Lemma records_drop_duplicates (d : DataFrame) :
  well_formed d ->
  records (drop_duplicates d) = first_occurrences [] (records d).
Proof.
  intros W. unfold drop_duplicates.
  now rewrite (records_take_rows _ d W (duplicated_length d)).
Qed.

Lemma drop_duplicates_well_formed (d : DataFrame) :
  well_formed d -> well_formed (drop_duplicates d).
Proof.
  intros W. apply take_rows_well_formed; [exact W | apply duplicated_length].
Qed.

(** Selecting every row of a well-formed frame changes nothing. *)
Lemma take_all_rows (mask : list bool) (d : DataFrame) :
  well_formed d -> List.length mask = nrows d -> Forall (eq true) mask ->
  take_rows mask d = d.
Proof.
  intros W L F. destruct d as [n cols]. unfold take_rows. simpl in *.
  f_equal.
  - unfold count_true. rewrite <- L. clear L W.
    induction F as [|b m <- _ IH]; simpl; congruence.
  - unfold well_formed in W. simpl in W.
    rewrite <- (map_id cols) at 2. apply map_ext_in.
    intros [k s] Hc. rewrite Forall_forall in W.
    specialize (W _ Hc). simpl in *. f_equal.
    destruct s as [v|v]; simpl in *; f_equal;
      apply compress_all; (assumption || lia).
Qed.

(** ** Renaming *)

Lemma new_name_aliases (c : string) :
  (new_name rename_map c = "NOx"
   <-> c = "NOx (mg/m3)" \/ c = "NOX" \/ c = "NOx")
  /\ (new_name rename_map c = "TIT" <-> c = "TIT (°C)" \/ c = "TIT")
  /\ (new_name rename_map c = "TAT" <-> c = "TAT (°C)" \/ c = "TAT").
Proof.
  unfold rename_map. simpl.
  destruct (String.eqb_spec c "NOx (mg/m3)") as [-> | N1];
    [repeat split; intros; auto; intuition discriminate|].
  destruct (String.eqb_spec c "NOX") as [-> | N2];
    [repeat split; intros; auto; intuition discriminate|].
  destruct (String.eqb_spec c "TIT (°C)") as [-> | N3];
    [repeat split; intros; auto; intuition discriminate|].
  destruct (String.eqb_spec c "TAT (°C)") as [-> | N4];
    [repeat split; intros; auto; intuition discriminate|].
  repeat split; intros; auto; intuition congruence.
Qed.

Lemma new_name_outside (c : string) :
  ~ In c (map fst rename_map) -> new_name rename_map c = c.
Proof.
  unfold rename_map. simpl. intros H.
  destruct (String.eqb_spec c "NOx (mg/m3)") as [-> | N1]; [tauto|].
  destruct (String.eqb_spec c "NOX") as [-> | N2]; [tauto|].
  destruct (String.eqb_spec c "TIT (°C)") as [-> | N3]; [tauto|].
  destruct (String.eqb_spec c "TAT (°C)") as [-> | N4]; [tauto|].
  reflexivity.
Qed.

Lemma new_name_not_key (c : string) :
  ~ In (new_name rename_map c) (map fst rename_map).
Proof.
  unfold rename_map. simpl.
  destruct (String.eqb_spec c "NOx (mg/m3)") as [-> | N1];
    [intuition discriminate|].
  destruct (String.eqb_spec c "NOX") as [-> | N2]; [intuition discriminate|].
  destruct (String.eqb_spec c "TIT (°C)") as [-> | N3];
    [intuition discriminate|].
  destruct (String.eqb_spec c "TAT (°C)") as [-> | N4];
    [intuition discriminate|].
  intuition congruence.
Qed.

Lemma new_name_idempotent (c : string) :
  new_name rename_map (new_name rename_map c) = new_name rename_map c.
Proof. apply new_name_outside, new_name_not_key. Qed.

Lemma columns_rename (m : list (string * string)) (d : DataFrame) :
  columns (rename m d) = map (new_name m) (columns d).
Proof. unfold columns, rename. simpl. now rewrite !map_map. Qed.

Lemma lookup_unique (k : string) (s : Series) (l : list (string * Series)) :
  NoDup (map fst l) -> In (k, s) l -> lookup k l = Some s.
Proof.
  induction l as [|[k0 s0] l IH]; intros N H; [contradiction|].
  simpl in *. inversion N as [|? ? Hn N']; subst.
  destruct H as [[= -> ->] | H].
  - now rewrite String.eqb_refl.
  - destruct (String.eqb_spec k k0) as [-> | _]; [|now apply IH].
    exfalso. apply Hn. apply in_map_iff. now exists (k0, s).
Qed.

(** ** Forward fill of a frame *)

Lemma columns_ffill (d : DataFrame) : columns (ffill d) = columns d.
Proof. unfold columns, ffill. simpl. now rewrite map_map. Qed.

Lemma ffill_well_formed (d : DataFrame) :
  well_formed d -> well_formed (ffill d).
Proof.
  unfold well_formed, ffill. simpl. intros W. apply Forall_map.
  eapply Forall_impl; [|exact W]. intros [k s] H. simpl in *.
  destruct s; simpl in *; [|exact H].
  unfold ffill_values. now rewrite ffill_from_length.
Qed.

Lemma rename_well_formed (m : list (string * string)) (d : DataFrame) :
  well_formed d -> well_formed (rename m d).
Proof.
  unfold well_formed, rename. simpl. intros W. apply Forall_map.
  eapply Forall_impl; [|exact W]. intros c H. exact H.
Qed.

Lemma columns_drop_duplicates (d : DataFrame) :
  columns (drop_duplicates d) = columns d.
Proof. unfold columns, drop_duplicates, take_rows. simpl. now rewrite map_map. Qed.

Lemma columns_clean (raw : DataFrame) :
  columns (clean raw) = map (new_name rename_map) (columns raw).
Proof.
  unfold clean.
  now rewrite columns_rename, columns_ffill, columns_drop_duplicates.
Qed.

(** A filled column has no gap below a valid value. *)
Lemma ffill_values_no_gap (x : list float) (i j : nat) (a b : float) :
  (i <= j)%nat ->
  nth_error (ffill_values x) i = Some a -> is_nan a = false ->
  nth_error (ffill_values x) j = Some b -> is_nan b = false.
Proof.
  intros L Ha Na Hb. unfold ffill_values in *.
  destruct (ffill_from_spec None x j b valid_carry_none Hb)
    as [[_ [_ [_ [Hv _]]]] | [Hall _]]; [exact Hv|].
  exfalso.
  destruct (ffill_from_spec None x i a valid_carry_none Ha)
    as [[k [Hk [Hx [_ _]]]] | [_ Hn]].
  - rewrite (Hall k a) in Na by (lia || assumption). discriminate.
  - congruence.
Qed.

Lemma clean_float_column (raw : DataFrame) (c : string) (v : list float) :
  In (c, Floats v) (data (clean raw)) ->
  exists v0, v = ffill_values v0.
Proof.
  unfold clean, rename, ffill. simpl. rewrite !map_map. intros H.
  apply in_map_iff in H. destruct H as [[k s] [E _]]. simpl in E.
  destruct s as [v0|v0]; simpl in E; [|discriminate].
  injection E as _ <-. eexists. reflexivity.
Qed.

(** The cleaned frame has one row per kept record. *)
Lemma clean_row_count (d : DataFrame) :
  well_formed d ->
  nrows (clean d) = List.length (first_occurrences [] (records d))
  /\ (nrows (clean d) <= nrows d)%nat.
Proof.
  intros W. rewrite <- (records_drop_duplicates d W), records_length.
  split; [reflexivity|].
  unfold clean. simpl.
  pose proof (count_true_le (map negb (duplicated d))) as L.
  rewrite duplicated_length in L. exact L.
Qed.

End CleaningFacts.

(* ================================================================== *)
(** * Properties of the cleaning statements *)

Import Cleaning Plots CompareFacts CleaningFacts.

Lemma lookup_map_series (f : Series -> Series) (c : string)
    (l : list (string * Series)) :
  lookup c (map (fun kc => (fst kc, f (snd kc))) l)
  = option_map f (lookup c l).
Proof.
  induction l as [|[k s] l IH]; simpl; [reflexivity|].
  destruct (String.eqb c k); [reflexivity | exact IH].
Qed.

Lemma nth_error_In_firstn {A : Type} (l : list A) (i j : nat) (a : A) :
  (i < j)%nat -> nth_error l i = Some a -> In a (firstn j l).
Proof.
  revert i j. induction l as [|x l IH]; intros [|i] [|j] L H;
    simpl in *; try discriminate; try lia.
  - left. now injection H.
  - right. apply (IH i j); [lia | exact H].
Qed.

Lemma existsb_false_In {A : Type} (f : A -> bool) (l : list A) (a : A) :
  existsb f l = false -> In a l -> f a = false.
Proof.
  intros E H. destruct (f a) eqn:F; [|reflexivity].
  assert (T : existsb f l = true) by (apply existsb_exists; eauto).
  congruence.
Qed.

(** X1. [df.ffill()] (line 36) on a float column keeps the length of the
    column and every valid value at its place; an entry of the result is
    NaN exactly when the column has no valid value at or above that
    position, and otherwise it is the nearest valid value at or above it.
    Filling twice is filling once.  In a frame, the column names are kept,
    each float column is filled on its own and an integer column is left
    as it is. *)
Theorem ffill_takes_nearest_valid_above (x : list float) :
  List.length (ffill_values x) = List.length x
  /\ ffill_values (ffill_values x) = ffill_values x
  /\ (forall i w,
        nth_error (ffill_values x) i = Some w ->
        (forall v, nth_error x i = Some v -> is_nan v = false -> w = v)
        /\ (is_nan w = true <->
            forall k u, (k <= i)%nat -> nth_error x k = Some u ->
                        is_nan u = true)
        /\ (is_nan w = false ->
            exists j,
              (j <= i)%nat /\ nth_error x j = Some w
              /\ forall k u, (j < k <= i)%nat -> nth_error x k = Some u ->
                             is_nan u = true))
  /\ (forall d,
        columns (ffill d) = columns d
        /\ nrows (ffill d) = nrows d
        /\ (forall c v, getitem d c = Some (Floats v) ->
                        getitem (ffill d) c = Some (Floats (ffill_values v)))
        /\ (forall c v, getitem d c = Some (Ints v) ->
                        getitem (ffill d) c = Some (Ints v))).
Proof.
  split; [apply ffill_from_length|].
  split; [apply ffill_from_idempotent, valid_carry_none|].
  split.
  - intros i w H.
    pose proof (ffill_from_spec None x i w valid_carry_none H) as S.
    split; [|split].
    + intros v Hv Nv.
      destruct S as [[j [Hj [Hx [Hw Hg]]]] | [Hall _]].
      * destruct (Nat.eq_dec j i) as [-> | Hne]; [congruence|].
        rewrite (Hg i v) in Nv by (lia || assumption). discriminate.
      * rewrite (Hall i v) in Nv by (lia || assumption). discriminate.
    + split.
      * intros Nw. destruct S as [[_ [_ [_ [Hw _]]]] | [Hall _]];
          [congruence | exact Hall].
      * intros Hall. destruct S as [[j [Hj [Hx [Hw _]]]] | [_ Nw]];
          [|exact Nw].
        rewrite (Hall j w Hj Hx) in Hw. discriminate.
    + intros Nw. destruct S as [[j [Hj [Hx [_ Hg]]]] | [_ Hn]];
        [eauto | congruence].
  - intros d. split; [apply columns_ffill|]. split; [reflexivity|].
    unfold getitem, ffill. cbn [data].
    split; intros c v H; rewrite lookup_map_series, H; reflexivity.
Qed.

(** X2. [df.drop_duplicates().reset_index(drop=True)] (line 35) on a
    well-formed frame keeps records in their original order, keeps no two
    equal records, and keeps an equal of every record it drops; the result
    is well formed, has the same columns and at most as many rows, one per
    kept record.  Records compare as pandas compares them: [0.0] equals
    [-0.0] and NaN equals NaN. *)
Theorem drop_duplicates_keeps_first_occurrences (d : DataFrame) :
  well_formed d ->
  let kept := records (drop_duplicates d) in
  Subsequence kept (records d)
  /\ (forall i j a b,
        (i < j)%nat -> nth_error kept i = Some a ->
        nth_error kept j = Some b ->
        record_eqb a b = false /\ record_eqb b a = false)
  /\ (forall r, In r (records d) ->
                exists k, In k kept /\ record_eqb r k = true)
  /\ well_formed (drop_duplicates d)
  /\ nrows (drop_duplicates d) = List.length kept
  /\ (nrows (drop_duplicates d) <= nrows d)%nat
  /\ columns (drop_duplicates d) = columns d.
Proof.
  intros W. cbv zeta. rewrite (records_drop_duplicates d W).
  split; [apply compress_Subsequence|]. split.
  - intros i j a b L Ha Hb.
    pose proof (distinct_from_before [] _ j b
                  (first_occurrences_distinct [] (records d)) Hb) as E.
    simpl in E.
    pose proof (existsb_false_In _ _ a E (nth_error_In_firstn _ i j a L Ha))
      as F.
    split; [now rewrite record_eqb_sym | exact F].
  - split.
    + intros r Hr. pose proof (first_occurrences_cover [] _ r Hr) as C.
      simpl in C. apply existsb_exists in C. destruct C as [k [Hk E]].
      eauto.
    + split; [now apply drop_duplicates_well_formed|].
      rewrite <- (records_drop_duplicates d W), records_length.
      split; [reflexivity|]. split; [|apply columns_drop_duplicates].
      pose proof (count_true_le (map negb (duplicated d))) as L.
      rewrite duplicated_length in L. exact L.
Qed.

(** X2, on the raw sample (its third record repeats the second). *)
Lemma drop_duplicates_keeps_first_occurrences_witness :
  well_formed Samples.raw_file
  /\ nrows (drop_duplicates Samples.raw_file) = 4%nat
  /\ Subsequence (records (drop_duplicates Samples.raw_file))
                 (records Samples.raw_file).
Proof.
  assert (W : well_formed Samples.raw_file)
    by (repeat constructor).
  split; [exact W|]. split; [reflexivity|].
  apply (drop_duplicates_keeps_first_occurrences Samples.raw_file W).
Defined.

(** X3. Dropping duplicates a second time changes nothing: on a well-formed
    frame the result of line 35 is a fixed point of [drop_duplicates]. *)
Theorem drop_duplicates_idempotent (d : DataFrame) :
  well_formed d ->
  drop_duplicates (drop_duplicates d) = drop_duplicates d.
Proof.
  intros W.
  pose proof (drop_duplicates_well_formed d W) as W'.
  unfold drop_duplicates at 1.
  apply take_all_rows; [exact W' | apply duplicated_length |].
  unfold duplicated. rewrite (records_drop_duplicates d W).
  rewrite (distinct_not_duplicated [] _
             (first_occurrences_distinct [] (records d))).
  rewrite map_map. apply Forall_map, Forall_forall. reflexivity.
Qed.

(** X3, on the raw sample. *)
Lemma drop_duplicates_idempotent_witness :
  well_formed Samples.raw_file
  /\ drop_duplicates (drop_duplicates Samples.raw_file)
     = drop_duplicates Samples.raw_file.
Proof.
  assert (W : well_formed Samples.raw_file)
    by (repeat constructor).
  split; [exact W|].
  apply (drop_duplicates_idempotent Samples.raw_file W).
Defined.

(** X4. [df.rename(columns=rename_map)] (lines 39-45) changes column names
    only: row count, column order and every column's values stay; the four
    raw headers take their standard names and any other name is kept;
    renaming again changes nothing.  When the new names are pairwise
    distinct, each column is read back under its new name. *)
Theorem rename_changes_names_only (d : DataFrame) :
  let d' := rename rename_map d in
  nrows d' = nrows d
  /\ map snd (data d') = map snd (data d)
  /\ columns d' = map (new_name rename_map) (columns d)
  /\ new_name rename_map "NOx (mg/m3)" = "NOx"
  /\ new_name rename_map "NOX" = "NOx"
  /\ new_name rename_map "TIT (°C)" = "TIT"
  /\ new_name rename_map "TAT (°C)" = "TAT"
  /\ (forall c, ~ In c ["NOx (mg/m3)"; "NOX"; "TIT (°C)"; "TAT (°C)"] ->
                new_name rename_map c = c)
  /\ rename rename_map d' = d'
  /\ (NoDup (columns d') ->
      forall c s, In (c, s) (data d) ->
                  getitem d' (new_name rename_map c) = Some s).
Proof.
  cbv zeta. split; [reflexivity|].
  split; [unfold rename; cbn [data]; now rewrite map_map|].
  split; [apply columns_rename|].
  do 4 (split; [reflexivity|]).
  split; [exact new_name_outside|]. split.
  - unfold rename. cbn [nrows data]. f_equal. rewrite map_map.
    apply map_ext. intros [k s]. cbn [fst snd].
    now rewrite new_name_idempotent.
  - intros N c s H. unfold getitem. apply lookup_unique; [exact N|].
    unfold rename. cbn [data]. apply in_map_iff. now exists (c, s).
Qed.

(** X5. After cleaning, the resolver finds a candidate sensor exactly when
    the raw file has a column that is renamed to it: NOx under any of
    "NOx (mg/m3)", "NOX" or "NOx", TIT and TAT with or without their
    degree suffix, and TEY, CDP and CO under their own names only. *)
Theorem renamed_sensors_resolve (raw : DataFrame) :
  (forall c, In c (key_cols (clean raw))
             <-> In c candidate_cols
                 /\ exists c0, In c0 (columns raw)
                               /\ new_name rename_map c0 = c)
  /\ (In "NOx" (key_cols (clean raw))
      <-> In "NOx (mg/m3)" (columns raw) \/ In "NOX" (columns raw)
          \/ In "NOx" (columns raw))
  /\ (In "TIT" (key_cols (clean raw))
      <-> In "TIT (°C)" (columns raw) \/ In "TIT" (columns raw))
  /\ (In "TAT" (key_cols (clean raw))
      <-> In "TAT (°C)" (columns raw) \/ In "TAT" (columns raw))
  /\ (forall c, In c ["TEY"; "CDP"; "CO"] ->
                (In c (key_cols (clean raw)) <-> In c (columns raw))).
Proof.
  assert (G : forall c, In c (key_cols (clean raw))
                        <-> In c candidate_cols
                            /\ exists c0, In c0 (columns raw)
                                          /\ new_name rename_map c0 = c).
  { intros c. unfold key_cols. rewrite present_In, columns_clean, in_map_iff.
    split; intros [H [c0 [A B]]]; split; eauto. }
  split; [exact G|].
  assert (K : forall c, In c candidate_cols ->
                (In c (key_cols (clean raw))
                 <-> exists c0, In c0 (columns raw)
                                /\ new_name rename_map c0 = c)).
  { intros c Hc. rewrite G. tauto. }
  split; [|split; [|split]].
  - rewrite K by (simpl; tauto). split.
    + intros [c0 [Hin E]]. apply new_name_aliases in E.
      destruct E as [-> | [-> | ->]]; auto.
    + intros [H | [H | H]]; eexists; (split; [exact H | reflexivity]).
  - rewrite K by (simpl; tauto). split.
    + intros [c0 [Hin E]]. apply new_name_aliases in E.
      destruct E as [-> | ->]; auto.
    + intros [H | H]; eexists; (split; [exact H | reflexivity]).
  - rewrite K by (simpl; tauto). split.
    + intros [c0 [Hin E]]. apply new_name_aliases in E.
      destruct E as [-> | ->]; auto.
    + intros [H | H]; eexists; (split; [exact H | reflexivity]).
  - intros c Hc.
    assert (Hcand : In c candidate_cols)
      by (simpl in Hc; simpl; intuition).
    rewrite (K c Hcand). split.
    + intros [c0 [Hin E]].
      assert (E0 : c0 = c); [|rewrite <- E0; exact Hin].
      destruct (in_dec string_dec c0 (map fst rename_map)) as [I | I].
      * exfalso. simpl in I, Hc.
        destruct I as [<- | [<- | [<- | [<- | []]]]]; simpl in E; subst c;
          intuition discriminate.
      * now rewrite (new_name_outside c0 I) in E.
    + intros H. exists c. split; [exact H|].
      apply new_name_outside. simpl in *.
      intuition (subst; discriminate).
Qed.

(** X6. Cleaning a table gives a table: every column of the cleaned frame
    has one value per row, there are as many columns as in the raw frame
    and one row per distinct raw record, so no more rows than before; and
    in every float column a valid value is never followed by a NaN, so
    the only gaps left are at the top of a column. *)
Theorem clean_gives_a_table (raw : DataFrame) :
  tabular raw ->
  tabular (clean raw)
  /\ nrows (clean raw) = List.length (first_occurrences [] (records raw))
  /\ (nrows (clean raw) <= nrows raw)%nat
  /\ List.length (columns (clean raw)) = List.length (columns raw)
  /\ (forall c v i j a b,
        In (c, Floats v) (data (clean raw)) ->
        (i <= j)%nat ->
        nth_error v i = Some a -> is_nan a = false ->
        nth_error v j = Some b -> is_nan b = false).
Proof.
  intros [W N].
  destruct (clean_row_count raw W) as [R L].
  split.
  - split.
    + unfold clean.
      now apply rename_well_formed, ffill_well_formed,
        drop_duplicates_well_formed.
    + unfold clean, rename, ffill, drop_duplicates, take_rows. simpl.
      destruct (data raw); [contradiction | discriminate].
  - split; [exact R|]. split; [exact L|]. split.
    + now rewrite columns_clean, length_map.
    + intros c v i j a b H Hij Ha Na Hb.
      destruct (clean_float_column raw c v H) as [v0 ->].
      exact (ffill_values_no_gap v0 i j a b Hij Ha Na Hb).
Qed.

(** X6, on the raw sample. *)
Lemma clean_gives_a_table_witness :
  tabular Samples.raw_file
  /\ nrows (clean Samples.raw_file) = 4%nat
  /\ columns (clean Samples.raw_file) = ["TIT"; "NOx"; "TEY"; "AT"; "AP"].
Proof.
  assert (T : tabular Samples.raw_file)
    by (split; [repeat constructor | discriminate]).
  split; [exact T|]. split; [|reflexivity].
  destruct (clean_gives_a_table Samples.raw_file T) as [_ [R _]].
  rewrite R. reflexivity.
Defined.

(* ================================================================== *)
(** * Further properties of the pipeline *)

Module ReportFacts.
Import Float64 Pandas Sklearn Script.
Import FloatFacts ReductionFacts PandasFacts ScriptFacts ShapeFacts.
Import CompareFacts.
Local Open Scope float_scope.

Lemma getitem_length (d : DataFrame) (c : string) (s : Series) :
  well_formed d -> getitem d c = Some s -> series_length s = nrows d.
Proof.
  unfold well_formed, getitem. destruct d as [n l]. simpl.
  induction l as [|[k s0] l IH]; simpl; [discriminate|].
  intros W H. apply Forall_cons_iff in W. destruct W as [Hs W].
  destruct (String.eqb c k).
  - injection H as <-. exact Hs.
  - now apply IH.
Qed.

Lemma frame_block_In (f : DataFrame) (cols : list string) (c : string)
    (s : Series) :
  In (c, s) (frame_block f cols) -> In c cols /\ s = series_column f c.
Proof.
  unfold frame_block. rewrite in_map_iff.
  intros [c0 [[= <- <-] H]]. auto.
Qed.

Section Report.
Context (sk : Api) (global : Rng sk) (d : DataFrame).

Lemma report_names :
  map fst (report sk global d)
  = ["anomaly"; "z_flag"; "iso_flag"; "res_flag"] ++ key_cols d
    ++ ["TEY_pred"; "residual"].
Proof.
  unfold report, frame_block. rewrite !map_app, map_map. simpl.
  now rewrite map_id.
Qed.

Lemma report_from_frame (c : string) (s : Series) :
  In (c, s) (report sk global d) ->
  getitem (frame_at_end sk global d) c = Some s.
Proof.
  rewrite <- (report_at_end sk global d). intros H.
  apply frame_block_In in H. destruct H as [Hc ->].
  apply has_column_getitem. now apply report_columns_present.
Qed.

Lemma frame_at_end_well_formed :
  well_formed d -> has_column d "TEY" = true ->
  (exists flags, density sk global d = inr flags) ->
  (exists pred, regression sk d = inr pred) ->
  well_formed (frame_at_end sk global d).
Proof.
  intros W T D P.
  assert (S : forall (f : DataFrame) c s,
             well_formed f -> series_length s = nrows f ->
             well_formed (setitem f c s)).
  { intros [n l] c s Wf Hs. unfold well_formed, setitem in *. simpl in *.
    induction l as [|[k s0] l IH]; simpl.
    - repeat constructor. exact Hs.
    - apply Forall_cons_iff in Wf. destruct Wf as [H0 Wf].
      destruct (String.eqb c k); constructor; auto. }
  unfold frame_at_end, frame_after_density.
  repeat apply S; try exact W; simpl.
  - apply z_flag_length.
  - now apply iso_flag_length.
  - now apply TEY_pred_length.
  - now apply residual_length.
  - rewrite res_flag_length. now apply residual_length.
  - now apply anomaly_length.
Qed.

End Report.

(** ** Scores that are not numbers *)

Lemma is_nan_sub_r (x y : float) : is_nan y = true -> x - y = nan.
Proof.
  intros H. apply is_nan_spec in H. apply Prim2SF_nan.
  rewrite sub_spec, H. destruct (Prim2SF x); reflexivity.
Qed.

(** A score that exceeds the threshold comes from a valid value, a valid
    mean and a valid deviation. *)
Lemma score_over_threshold (v m s : float) :
  gtb (abs ((v - m) / s)) z_thresh = true ->
  is_nan v = false /\ is_nan m = false /\ is_nan s = false.
Proof.
  intros G. repeat split.
  - destruct (is_nan v) eqn:N; [|reflexivity].
    rewrite (is_nan_sub_l v m N), (is_nan_div_l nan s eq_refl) in G.
    now rewrite gtb_abs_nan in G.
  - destruct (is_nan m) eqn:N; [|reflexivity].
    rewrite (is_nan_sub_r v m N), (is_nan_div_l nan s eq_refl) in G.
    now rewrite gtb_abs_nan in G.
  - destruct (is_nan s) eqn:N; [|reflexivity].
    rewrite (is_nan_div_r _ s N) in G. now rewrite gtb_abs_nan in G.
Qed.

Lemma zscore_nan_std (x : list float) :
  is_nan (std x) = true -> Forall (eq nan) (zscore x).
Proof.
  intros N. unfold zscore. apply Forall_map, Forall_forall.
  intros v _. symmetry. now apply is_nan_div_r.
Qed.

Lemma z_bit_silent (d : DataFrame) (cols : list string) (i : nat) :
  (forall c, In c cols -> Forall (eq nan) (zscore (float_column d c))) ->
  z_bit d cols i = false.
Proof.
  intros H. unfold z_bit, block.
  induction cols as [|c cols IH]; simpl; [reflexivity|].
  rewrite (nan_scores_silent _ i (H c (or_introl eq_refl))).
  apply IH. intros c' Hc'. apply H. now right.
Qed.

Lemma map2_lor_zeros_l (z l : list Z) :
  Forall (eq 0%Z) z -> List.length z = List.length l ->
  map2 Z.lor z l = l.
Proof.
  revert l. induction z as [|a z IH]; intros [|b l] F L; simpl in *;
    try reflexivity; try discriminate.
  inversion F; subst. now rewrite IH by (assumption || lia).
Qed.

Lemma map2_lor_zeros_r (l z : list Z) :
  Forall (eq 0%Z) z -> List.length z = List.length l ->
  map2 Z.lor l z = l.
Proof.
  revert z. induction l as [|b l IH]; intros [|a z] F L; simpl in *;
    try reflexivity; try discriminate.
  inversion F; subst. rewrite Z.lor_0_r.
  now rewrite IH by (assumption || lia).
Qed.

End ReportFacts.

Import ReportFacts.

(** X7. The report of a completed run (lines 102-107) has the columns
    anomaly, z_flag, iso_flag, res_flag, the resolved sensor columns in
    resolver order, TEY_pred, residual, all under pairwise distinct names.
    Each report column is the column of that name in the final frame, so a
    sensor column is reported with the values of the input; on a
    well-formed input every report column has one entry per record. *)
Theorem report_layout (sk : Api) (global : Rng sk) (d : DataFrame) :
  fst (run sk global d) = inr tt ->
  let r := run sk global d in
  let rep := report sk global d in
  In (ToCsv report_path rep) (effects r)
  /\ map fst rep
     = ["anomaly"; "z_flag"; "iso_flag"; "res_flag"] ++ key_cols d
       ++ ["TEY_pred"; "residual"]
  /\ NoDup (map fst rep)
  /\ (forall c s, In (c, s) rep -> getitem (final_frame r) c = Some s)
  /\ (forall c s, In (c, s) rep -> In c (key_cols d) ->
                  getitem d c = Some s)
  /\ (well_formed d ->
      forall c s, In (c, s) rep -> series_length s = nrows d).
Proof.
  intros R. destruct (run_returns sk global d R) as [K [G E]].
  destruct (run_returns_calls sk global d R) as [D P].
  cbv zeta. unfold final_frame, effects. rewrite E. cbn [fst snd df trace].
  split.
  { unfold effects_at_end. apply in_or_app. right. simpl. tauto. }
  split; [apply report_names|]. split.
  { rewrite report_names. apply NoDup_app.
    - repeat (constructor; [simpl; intuition discriminate|]). constructor.
    - apply NoDup_app.
      + apply NoDup_filter. unfold candidate_cols.
        repeat (constructor; [simpl; intuition discriminate|]). constructor.
      + repeat (constructor; [simpl; intuition discriminate|]). constructor.
      + intros c Hk Hd. apply (key_cols_not_derived d c); [|exact Hk].
        simpl in Hd. unfold derived_cols. simpl. tauto.
    - intros c Hd Hk. apply in_app_or in Hk.
      destruct Hk as [Hk | Hk].
      + apply (key_cols_not_derived d c); [|exact Hk].
        simpl in Hd. unfold derived_cols. simpl. tauto.
      + simpl in Hd, Hk. intuition (subst; discriminate). }
  split; [apply report_from_frame|]. split.
  - intros c s H Hk. rewrite <- (source_column_at_end sk global d c).
    + now apply report_from_frame.
    + intros Hd. exact (key_cols_not_derived d c Hd Hk).
  - intros W c s H. apply report_from_frame in H.
    rewrite (getitem_length _ c s
               (frame_at_end_well_formed sk global d W
                  (proj2 (proj1 (residual_inputs_ok_spec d) G)) D P) H).
    reflexivity.
Qed.

(** X7, on the eleven-record sample. *)
Lemma report_layout_witness :
  let r := run Reference.api 0%Z Samples.eleven in
  fst r = inr tt
  /\ map fst (report Reference.api 0%Z Samples.eleven)
     = ["anomaly"; "z_flag"; "iso_flag"; "res_flag"; "TIT"; "TEY";
        "TEY_pred"; "residual"].
Proof.
  cbv zeta. split; [reflexivity|].
  apply (report_layout Reference.api 0%Z Samples.eleven). reflexivity.
Defined.

(** X8. A report is written exactly when the run completes, and then once,
    as the last effect, after all six assignments: an aborted run leaves
    no file behind, a completed run a single one. *)
Theorem report_written_once_on_completion (sk : Api) (global : Rng sk)
    (d : DataFrame) :
  let r := run sk global d in
  (existsb is_report (effects r) = true <-> fst r = inr tt)
  /\ (fst r = inr tt ->
      filter is_report (effects r)
      = [ToCsv report_path (report sk global d)]
      /\ exists before,
           effects r = before ++ [ToCsv report_path (report sk global d)]
           /\ map fst (assignments before) = derived_cols).
Proof.
  cbv zeta. unfold effects.
  destruct (run_cases sk global d)
    as [[K E] | [[K [c [e [_ E]]]] | [[K [_ [_ E]]]
        | [[K [_ [_ [c [e [_ E]]]]]] | [K [_ [_ [_ E]]]]]]]];
    rewrite E; cbn [fst snd trace].
  - split; [split; discriminate | discriminate].
  - cbn [existsb is_report orb]. rewrite attempted_no_report.
    split; [split; discriminate | discriminate].
  - split; [split; discriminate | discriminate].
  - rewrite existsb_app, attempted_no_report.
    split; [split; discriminate | discriminate].
  - split; [split; reflexivity|]. intros _. split; [reflexivity|].
    exists (effects_after_density sk global d
            ++ [Called RegressionFit; Called RegressionPredict;
                SetColumn "TEY_pred" (Floats (TEY_pred sk d));
                SetColumn "residual" (Floats (residual sk d));
                SetColumn "res_flag" (Ints (res_flag sk d));
                SetColumn "anomaly" (Ints (anomaly sk global d))]).
    split; [|reflexivity].
    unfold effects_at_end. now rewrite <- app_assoc.
Qed.

(** X9. The script itself fails only at its two guards: on a frame with
    distinct column names, a run ends with the resolver's [ValueError]
    exactly when no candidate sensor column is present, with the
    residual-model [ValueError] exactly when one is, the density
    detector's calls have returned, and [TEY] or a second predictor is
    missing, and with the exception of a scikit-learn call exactly when
    that call raised it; it completes exactly when both guards pass and
    the five calls return.  No column lookup ever raises [KeyError] and
    the [|] of line 96 never meets a non-integer column. *)
Theorem only_the_guards_fail (sk : Api) (global : Rng sk) (d : DataFrame) :
  NoDup (columns d) ->
  let r := run sk global d in
  let guard :=
    (2 <= List.length (reg_inputs d))%nat /\ has_column d "TEY" = true in
  (fst r = inr tt
   <-> key_cols d <> [] /\ guard
       /\ (exists flags, density sk global d = inr flags)
       /\ (exists pred, regression sk d = inr pred))
  /\ (fst r = inl (ValueError (NoSensorColumns (columns d)))
      <-> key_cols d = [])
  /\ (fst r = inl (ValueError ResidualInputs)
      <-> key_cols d <> []
          /\ (exists flags, density sk global d = inr flags)
          /\ ((List.length (reg_inputs d) < 2)%nat
              \/ has_column d "TEY" = false))
  /\ (forall c e,
        fst r = inl (SklearnError c e)
        <-> key_cols d <> []
            /\ (density sk global d = inl (c, e)
                \/ ((exists flags, density sk global d = inr flags)
                    /\ guard /\ regression sk d = inl (c, e))))
  /\ (forall e,
        fst r = inl e ->
        (exists msg, e = ValueError msg)
        \/ (exists c message, e = SklearnError c message)).
Proof.
  intros _. cbv zeta.
  assert (Ok : residual_inputs_ok d = true
               <-> (2 <= List.length (reg_inputs d))%nat
                   /\ has_column d "TEY" = true)
    by apply residual_inputs_ok_spec.
  assert (Ko : residual_inputs_ok d = false
               <-> (List.length (reg_inputs d) < 2)%nat
                   \/ has_column d "TEY" = false).
  { destruct (residual_inputs_ok d) eqn:G.
    - destruct (proj1 Ok eq_refl) as [L T]. split; [discriminate|].
      intros [H | H]; [lia | congruence].
    - split; [|reflexivity]. intros _.
      destruct (Nat.lt_ge_cases (List.length (reg_inputs d)) 2) as [L | L];
        [now left|].
      right. destruct (has_column d "TEY") eqn:T; [|reflexivity].
      assert (F : false = true) by (apply Ok; auto). discriminate F. }
  destruct (run_cases sk global d)
    as [[K E] | [[K [c0 [e0 [D E]]]] | [[K [G [[fl D] E]]]
        | [[K [G [[fl D] [c0 [e0 [R E]]]]]]
          | [K [G [[fl D] [[p R] E]]]]]]]];
    rewrite E; cbn [fst].
  - split; [split; [discriminate | intros [N _]; contradiction]|].
    split; [tauto|].
    split; [split; [discriminate | intros [N _]; contradiction]|].
    split; [intros c e; split; [discriminate | intros [N _]; contradiction]|].
    intros e [= <-]. eauto.
  - split.
    { split; [discriminate|]. intros [_ [_ [[fl D'] _]]]. congruence. }
    split; [split; [discriminate | intros K0; contradiction]|].
    split.
    { split; [discriminate|]. intros [_ [[fl D'] _]]. congruence. }
    split.
    { intros c e. split.
      - intros [= <- <-]. split; [exact K|]. now left.
      - intros [_ [D' | [[fl D'] _]]]; congruence. }
    intros e [= <-]. eauto.
  - split.
    { split; [discriminate|]. intros [_ [H _]]. apply Ok in H. congruence. }
    split; [split; [discriminate | intros K0; contradiction]|].
    split.
    { split; [|reflexivity]. intros _. split; [exact K|].
      split; [eauto | now apply Ko]. }
    split.
    { intros c e. split; [discriminate|].
      intros [_ [D' | [_ [H _]]]]; [congruence|].
      apply Ok in H. congruence. }
    intros e [= <-]. eauto.
  - split.
    { split; [discriminate|]. intros [_ [_ [_ [p R']]]]. congruence. }
    split; [split; [discriminate | intros K0; contradiction]|].
    split.
    { split; [discriminate|]. intros [_ [_ H]]. apply Ko in H. congruence. }
    split.
    { intros c e. split.
      - intros [= <- <-]. split; [exact K|]. right.
        split; [eauto|]. split; [now apply Ok | exact R].
      - intros [_ [D' | [_ [_ R']]]]; congruence. }
    intros e [= <-]. eauto.
  - split.
    { split; [|reflexivity]. intros _. split; [exact K|].
      split; [now apply Ok|]. eauto. }
    split; [split; [discriminate | intros K0; contradiction]|].
    split.
    { split; [discriminate|]. intros [_ [_ H]]. apply Ko in H. congruence. }
    split.
    { intros c e. split; [discriminate|].
      intros [_ [D' | [_ [_ R']]]]; congruence. }
    intros e H. discriminate H.
Qed.

(** X9, on the sample with a gap at the top of [TEY]: both guards pass,
    the density detector returns, and the regression's [fit] raises on
    the NaN. *)
Lemma only_the_guards_fail_witness :
  let d := Samples.gap_in_target in
  let r := run Reference.api 0%Z d in
  NoDup (columns d)
  /\ fst r = inl (SklearnError RegressionFit "Input contains NaN")
  /\ regression Reference.api d = inl (RegressionFit, "Input contains NaN")
  /\ forall e,
       fst r = inl e ->
       (exists msg, e = ValueError msg)
       \/ (exists c message, e = SklearnError c message).
Proof.
  cbv zeta.
  assert (N : NoDup (columns Samples.gap_in_target)) by distinct_names.
  split; [exact N|]. do 2 (split; [reflexivity|]).
  apply (only_the_guards_fail Reference.api 0%Z Samples.gap_in_target N).
Defined.

(** X10. On a dataset of a single record the two statistical detectors are
    silent: the sample standard deviation of one value is NaN, so every
    z-score and the residual threshold are NaN, [z_flag] and [res_flag]
    are 0, and the verdict of the run is the density detector's flag
    alone. *)
Theorem single_record_verdict_is_iso_flag (sk : Api) (global : Rng sk)
    (d : DataFrame) :
  well_formed d -> nrows d = 1%nat ->
  fst (run sk global d) = inr tt ->
  let f := final_frame (run sk global d) in
  int_column f "z_flag" = [0%Z]
  /\ int_column f "res_flag" = [0%Z]
  /\ is_nan (three_sigma_of (float_column f "residual")) = true
  /\ int_column f "anomaly" = int_column f "iso_flag".
Proof.
  intros W N R. destruct (run_returns sk global d R) as [K [G E]].
  destruct (run_returns_calls sk global d R) as [D P].
  destruct (proj1 (residual_inputs_ok_spec d) G) as [_ T].
  cbv zeta. unfold final_frame. rewrite E. cbn [snd df].
  rewrite z_flag_at_end, iso_flag_at_end, res_flag_at_end, anomaly_at_end,
    residual_at_end.
  assert (Z0 : z_flag d = [0%Z]).
  { unfold z_flag, z_scores. rewrite N.
    change (z_flag_of 1 (map zscore (block d (key_cols d))))
      with [Z.b2z (z_bit d (key_cols d) 0)].
    rewrite z_bit_silent; [reflexivity|].
    intros c Hc. apply zscore_nan_std.
    rewrite std_short; [reflexivity|].
    rewrite (column_length d c W (key_cols_has_column d c Hc)). lia. }
  assert (S : std (residual sk d) = nan).
  { apply std_short. rewrite (residual_length sk d W T P). lia. }
  assert (R0 : res_flag sk d = [0%Z]).
  { pose proof (residual_length sk d W T P) as L. rewrite N in L.
    unfold res_flag, res_flag_of, three_sigma, three_sigma_of, astype_int.
    rewrite S. destruct (residual sk d) as [|r [|r' rest]];
      try discriminate L.
    cbn [map]. now rewrite (gtb_nan_r (abs r) (3 * nan) eq_refl). }
  split; [exact Z0|]. split; [exact R0|]. split.
  - unfold three_sigma_of. now rewrite S.
  - unfold anomaly, anomaly_of. rewrite Z0, R0.
    pose proof (iso_flag_length sk global d D) as L. rewrite N in L.
    destruct (iso_flag sk global d) as [|i [|i' rest]];
      try discriminate L.
    simpl. now rewrite Z.lor_0_r.
Qed.

(** X10, on the single-record sample. *)
Lemma single_record_verdict_is_iso_flag_witness :
  let r := run Reference.api 0%Z Samples.single in
  well_formed Samples.single /\ nrows Samples.single = 1%nat
  /\ fst r = inr tt
  /\ int_column (final_frame r) "z_flag" = [0%Z].
Proof.
  cbv zeta.
  assert (W : well_formed Samples.single) by (repeat constructor).
  split; [exact W|]. split; [reflexivity|]. split; [reflexivity|].
  apply (single_record_verdict_is_iso_flag Reference.api 0%Z Samples.single
           W eq_refl eq_refl).
Defined.

(** X11. Missing data never raises a statistical flag.  On a completed
    run over a frame with distinct column names, a record with
    [z_flag = 1] has, in some selected column, a value that is not NaN
    and whose score against a mean and a sample deviation that are not
    NaN exceeds 3; a record with [res_flag = 1] has a residual that is not
    NaN, measured against a threshold that is not NaN. *)
Theorem flags_rest_on_valid_numbers (sk : Api) (global : Rng sk)
    (d : DataFrame) :
  NoDup (columns d) ->
  fst (run sk global d) = inr tt ->
  let f := final_frame (run sk global d) in
  (forall i,
      nth_error (int_column f "z_flag") i = Some 1%Z ->
      exists c v,
        In c (key_cols d)
        /\ nth_error (float_column d c) i = Some v
        /\ is_nan v = false
        /\ is_nan (mean (float_column d c)) = false
        /\ is_nan (std (float_column d c)) = false
        /\ gtb (abs ((v - mean (float_column d c))
                     / std (float_column d c))%float) z_thresh = true)
  /\ (forall i,
        nth_error (int_column f "res_flag") i = Some 1%Z ->
        exists r,
          nth_error (float_column f "residual") i = Some r
          /\ is_nan r = false
          /\ is_nan (three_sigma_of (float_column f "residual")) = false
          /\ gtb (abs r) (three_sigma_of (float_column f "residual"))
             = true).
Proof.
  intros _ R. destruct (run_returns sk global d R) as [K [G E]].
  cbv zeta. unfold final_frame. rewrite E. cbn [snd df].
  rewrite z_flag_at_end, res_flag_at_end, residual_at_end. split.
  - intros i H.
    assert (Hi : (i < nrows d)%nat).
    { rewrite <- (z_flag_length d). apply nth_error_Some. congruence. }
    unfold z_flag, z_scores in H. rewrite (z_flag_of_nth d _ i Hi) in H.
    assert (B : z_bit d (key_cols d) i = true)
      by (destruct (z_bit d (key_cols d) i); [reflexivity | discriminate H]).
    apply z_bit_true in B. destruct B as [c [v [Hc [Hv Hg]]]].
    destruct (score_over_threshold _ _ _ Hg) as [Nv [Nm Ns]].
    exists c, v. auto 10.
  - intros i H. unfold res_flag, res_flag_of, astype_int in H.
    rewrite !nth_error_map in H.
    destruct (nth_error (residual sk d) i) as [r|] eqn:Hr; [|discriminate H].
    simpl in H. exists r.
    assert (Hg : gtb (abs r) (three_sigma sk d) = true)
      by (destruct (gtb (abs r) (three_sigma sk d));
          [reflexivity | discriminate H]).
    split; [reflexivity|]. change (three_sigma sk d)
      with (three_sigma_of (residual sk d)) in Hg.
    split; [|split; [|exact Hg]].
    + destruct (is_nan r) eqn:N; [|reflexivity].
      apply is_nan_spec in N. apply Prim2SF_nan in N. subst r.
      now rewrite gtb_abs_nan in Hg.
    + destruct (is_nan (three_sigma_of (residual sk d))) eqn:N;
        [|reflexivity].
      now rewrite (gtb_nan_r _ _ N) in Hg.
Qed.

(** X11, on the twelve-record sample, whose last record carries both
    statistical flags. *)
Lemma flags_rest_on_valid_numbers_witness :
  let d := Samples.outlier in
  let r := run Reference.api 0%Z d in
  let f := final_frame r in
  NoDup (columns d)
  /\ fst r = inr tt
  /\ nth_error (int_column f "z_flag") 11 = Some 1%Z
  /\ nth_error (int_column f "res_flag") 11 = Some 1%Z
  /\ (exists c v,
        In c (key_cols d)
        /\ nth_error (float_column d c) 11 = Some v
        /\ is_nan v = false
        /\ is_nan (mean (float_column d c)) = false
        /\ is_nan (std (float_column d c)) = false
        /\ gtb (abs ((v - mean (float_column d c))
                     / std (float_column d c))%float) z_thresh = true)
  /\ (exists v,
        nth_error (float_column f "residual") 11 = Some v
        /\ is_nan v = false
        /\ is_nan (three_sigma_of (float_column f "residual")) = false
        /\ gtb (abs v) (three_sigma_of (float_column f "residual")) = true).
Proof.
  cbv zeta.
  assert (N : NoDup (columns Samples.outlier)) by distinct_names.
  assert (R : fst (run Reference.api 0%Z Samples.outlier) = inr tt)
    by reflexivity.
  destruct (flags_rest_on_valid_numbers Reference.api 0%Z Samples.outlier
              N R) as [Hz Hr].
  split; [exact N|]. split; [exact R|]. do 2 (split; [reflexivity|]).
  split; [exact (Hz 11%nat eq_refl) | exact (Hr 11%nat eq_refl)].
Defined.

(* ================================================================== *)
(** * Properties of the figures *)

Module PlotFacts.
Import Float64 Pandas Sklearn Script Cleaning Plots.
Import PandasFacts ScriptFacts CleaningFacts.

Lemma combine_positions_from {A : Type} (k : nat) (mask : list bool)
    (l : list A) (i : nat) (v : A) :
  In (i, v) (combine (positions_from k mask) (compress mask l))
  <-> exists j, i = (k + j)%nat /\ nth_error mask j = Some true
                /\ nth_error l j = Some v.
Proof.
  revert k l. induction mask as [|b m IH]; intros k l.
  - simpl. split; [contradiction|]. intros [[|j] [_ [H _]]]; discriminate H.
  - destruct l as [|x l].
    + assert (E : compress (b :: m) (@nil A) = []) by (destruct b; reflexivity).
      rewrite E, combine_nil. split; [contradiction|].
      intros [[|j] [_ [_ H]]]; discriminate H.
    + assert (Tail : In (i, v) (combine (positions_from (S k) m)
                                        (compress m l))
                     <-> exists j, i = (k + S j)%nat
                                   /\ nth_error m j = Some true
                                   /\ nth_error l j = Some v).
      { rewrite IH. split; intros [j [E H]]; exists j;
          (split; [lia | exact H]). }
      destruct b; cbn [positions_from compress combine In].
      * rewrite Tail. split.
        -- intros [[= <- <-] | [j [E H]]].
           ++ exists 0%nat. repeat split. lia.
           ++ exists (S j). auto.
        -- intros [[|j] [E [Hm Hl]]]; simpl in Hm, Hl.
           ++ left. injection Hl as <-. f_equal. lia.
           ++ right. eauto.
      * rewrite Tail. split.
        -- intros [j [E H]]. exists (S j). auto.
        -- intros [[|j] [E [Hm Hl]]]; simpl in Hm, Hl;
             [discriminate Hm | eauto].
Qed.

Lemma positions_from_increasing (k : nat) (mask : list bool) (i j a b : nat) :
  (i < j)%nat ->
  nth_error (positions_from k mask) i = Some a ->
  nth_error (positions_from k mask) j = Some b ->
  (a < b)%nat.
Proof.
  revert k i j. induction mask as [|c m IH]; intros k i j L Ha Hb.
  - destruct i; discriminate Ha.
  - simpl in Ha, Hb. destruct c; [|exact (IH (S k) i j L Ha Hb)].
    destruct j as [|j]; [lia|]. simpl in Hb.
    destruct i as [|i]; simpl in Ha.
    + injection Ha as <-. apply nth_error_In, positions_from_bounds in Hb.
      lia.
    + apply (IH (S k) i j); [lia | exact Ha | exact Hb].
Qed.

Lemma anomaly_mask_nth (d : DataFrame) (i : nat) :
  nth_error (anomaly_mask d) i = Some true
  <-> nth_error (int_column d "anomaly") i = Some 1%Z.
Proof.
  unfold anomaly_mask. rewrite nth_error_map.
  destruct (nth_error (int_column d "anomaly") i) as [z|];
    cbn [option_map].
  - destruct (Z.eqb_spec 1 z) as [<- | N]; split; intros H;
      try reflexivity; try discriminate H.
    injection H as ->. contradiction.
  - split; discriminate.
Qed.

Lemma has_column_at_end (sk : Api) (g : Rng sk) (d : DataFrame) (c : string) :
  ~ In c derived_cols ->
  has_column (frame_at_end sk g d) c = has_column d c.
Proof.
  intros H. unfold frame_at_end, frame_after_density.
  rewrite !has_column_setitem_other; try reflexivity;
    intros ->; apply H; apply In_derived; reflexivity.
Qed.

Lemma figures_run (sk : Api) (g : Rng sk) (mpl : Backend) (raw : DataFrame) :
  fst (script sk g mpl raw) = run sk g (clean raw).
Proof.
  unfold script. destruct (fst (run sk g (clean raw))); reflexivity.
Qed.

(** ** Drawing in turn *)

Section Drawing.
Context (mpl : Backend).

(** The figures saved are the requested ones up to the first that
    raises. *)
Lemma save_figures_prefix (figs : list Figure) :
  match snd (save_figures mpl figs) with
  | None => fst (save_figures mpl figs) = figs
  | Some e =>
      exists f rest,
        figs = fst (save_figures mpl figs) ++ f :: rest
        /\ render mpl f = Some e
  end.
Proof.
  induction figs as [|f figs IH]; cbn [save_figures]; [reflexivity|].
  destruct (render mpl f) as [e|] eqn:R; cbn [fst snd].
  - exists f, figs. auto.
  - destruct (save_figures mpl figs) as [done r]. cbn [fst snd] in *.
    destruct r as [e|].
    + destruct IH as [f' [rest [E R']]]. exists f', rest.
      split; [now rewrite E at 1 | exact R'].
    + now rewrite IH.
Qed.

Lemma saved_rendered (figs : list Figure) (f : Figure) :
  In f (fst (save_figures mpl figs)) -> render mpl f = None.
Proof.
  induction figs as [|g figs IH]; cbn [save_figures]; [intros []|].
  destruct (render mpl g) as [e|] eqn:R; cbn [fst]; [intros []|].
  destruct (save_figures mpl figs) as [done r]. cbn [fst] in *.
  intros [<- | H]; [exact R | now apply IH].
Qed.

End Drawing.

End PlotFacts.

Import PlotFacts.

(** X12. In the TIT figure (lines 114-128) the red points are exactly the
    records whose verdict is 1, each at its own index and at its own TIT
    value, from left to right in index order; the line runs over all
    records. *)
Theorem scatter_marks_the_anomalies (d : DataFrame) :
  has_column d "TIT" = true ->
  let xs := positions (anomaly_mask d) in
  let ys := compress (anomaly_mask d) (float_column d "TIT") in
  tit_figure d
  = Some (mkFigure "output/TIT_anomalies.png"
            [LinePlot (seq 0 (nrows d)) (float_column d "TIT");
             ScatterPlot xs ys])
  /\ (forall i v,
        In (i, v) (combine xs ys)
        <-> nth_error (int_column d "anomaly") i = Some 1%Z
            /\ nth_error (float_column d "TIT") i = Some v)
  /\ (forall i j a b,
        (i < j)%nat -> nth_error xs i = Some a -> nth_error xs j = Some b ->
        (a < b)%nat)
  /\ (List.length (float_column d "TIT")
      = List.length (int_column d "anomaly") ->
      List.length ys = List.length xs).
Proof.
  intros T. cbv zeta. split; [unfold tit_figure; now rewrite T|].
  split; [|split].
  - intros i v. unfold positions. rewrite combine_positions_from.
    split.
    + intros [j [-> [Hm Hl]]]. simpl. now rewrite <- anomaly_mask_nth.
    + intros [Ha Hv]. exists i. rewrite anomaly_mask_nth. auto.
  - intros i j a b. apply positions_from_increasing.
  - intros L. unfold positions. rewrite positions_from_length.
    apply compress_length. unfold anomaly_mask. now rewrite length_map.
Qed.

(** X12, on the frame the eleven-record sample ends with. *)
Lemma scatter_marks_the_anomalies_witness :
  let f := final_frame (run Reference.api 0%Z Samples.eleven) in
  has_column f "TIT" = true
  /\ List.length (positions (anomaly_mask f)) = 11%nat
  /\ forall i j a b,
       (i < j)%nat ->
       nth_error (positions (anomaly_mask f)) i = Some a ->
       nth_error (positions (anomaly_mask f)) j = Some b ->
       (a < b)%nat.
Proof.
  cbv zeta. split; [reflexivity|]. split; [reflexivity|].
  apply (scatter_marks_the_anomalies
           (final_frame (run Reference.api 0%Z Samples.eleven)) eq_refl).
Defined.

(** X13. The whole script, from the raw frame: figures are asked for only
    when the pipeline completes, first the TIT figure, exactly when the raw
    file has a TIT column, under "TIT" or "TIT (°C)", then the residual
    figure.  The figures saved are those asked for up to the first whose
    plotting calls raise: nothing is saved of that figure nor of a later
    one.  An aborted run asks for no figure and saves none. *)
Theorem figures_follow_the_run (sk : Api) (global : Rng sk) (mpl : Backend)
    (raw : DataFrame) :
  let out := script sk global mpl raw in
  let plotting := snd out in
  fst out = run sk global (clean raw)
  /\ (forall e, fst (fst out) = inl e -> plotting = mkPlotting [] [] None)
  /\ (fst (fst out) = inr tt ->
      map path (requested plotting)
      = (if has_column (clean raw) "TIT"
         then ["output/TIT_anomalies.png"; "output/TEY_residuals.png"]
         else ["output/TEY_residuals.png"])
      /\ (forall f, In f (saved plotting) -> render mpl f = None)
      /\ (raised plotting = None -> saved plotting = requested plotting)
      /\ (forall e,
            raised plotting = Some e ->
            exists f rest,
              requested plotting = saved plotting ++ f :: rest
              /\ render mpl f = Some e))
  /\ (has_column (clean raw) "TIT" = true
      <-> In "TIT (°C)" (columns raw) \/ In "TIT" (columns raw)).
Proof.
  cbv zeta. rewrite figures_run.
  split; [reflexivity|]. split; [|split].
  - intros e H. unfold script. now rewrite H.
  - intros R.
    destruct (run_returns sk global (clean raw) R) as [_ [_ E]].
    unfold script. rewrite R. cbn [snd requested saved raised draw].
    split.
    { unfold final_frame. rewrite E. cbn [snd df].
      unfold plots, tit_figure.
      rewrite (has_column_at_end sk global (clean raw) "TIT")
        by (unfold derived_cols; simpl; intuition discriminate).
      destruct (has_column (clean raw) "TIT"); reflexivity. }
    split; [intros f; apply saved_rendered|].
    pose proof (save_figures_prefix mpl
                  (plots (final_frame (run sk global (clean raw)))
                         (three_sigma sk (clean raw)))) as P.
    split.
    + intros N. now rewrite N in P.
    + intros e N. now rewrite N in P.
  - unfold has_column. rewrite existsb_eqb_In, columns_clean, in_map_iff.
    split.
    + intros [c0 [E H]]. apply new_name_aliases in E.
      destruct E as [-> | ->]; auto.
    + intros [H | H]; eexists; (split; [|exact H]); reflexivity.
Qed.

(** On finite [TIT] values whose range overflows, the stand-in backend
    raises on the first figure: the report is written and no figure is
    saved. *)
Lemma figures_lost_after_the_report :
  let out := script Reference.api 0%Z reference_backend Samples.extreme in
  fst (fst out) = inr tt
  /\ existsb is_report (effects (fst out)) = true
  /\ map path (requested (snd out))
     = ["output/TIT_anomalies.png"; "output/TEY_residuals.png"]
  /\ saved (snd out) = []
  /\ raised (snd out) = Some "Axis limits cannot be NaN or Inf".
Proof. cbv zeta. repeat split; reflexivity. Qed.

(** X14. On a completed run the residual figure the script asks for
    (lines 131-138) shows the [residual] column of the final frame with one
    dashed line at [3 * sigma_res] and one at its negative; it is saved
    when no plotting call raises; and these lines are the detector's
    decision: a record's [res_flag] is 1 exactly when its residual lies
    strictly to the right of the upper line or strictly to the left of
    the lower one. *)
Theorem threshold_lines_are_the_decision (sk : Api) (global : Rng sk)
    (mpl : Backend) (raw : DataFrame) :
  let out := script sk global mpl raw in
  let f := final_frame (fst out) in
  let vals := float_column f "residual" in
  let hi := three_sigma_of vals in
  let lo := (- hi)%float in
  let figure :=
    mkFigure "output/TEY_residuals.png"
      [HistPlot vals 60; VLine hi; VLine lo] in
  fst (fst out) = inr tt ->
  In figure (requested (snd out))
  /\ (forall g, In g (requested (snd out)) ->
                path g = "output/TEY_residuals.png" -> g = figure)
  /\ (raised (snd out) = None -> In figure (saved (snd out)))
  /\ forall i r,
       nth_error vals i = Some r ->
       nth_error (int_column f "res_flag") i
       = Some (Z.b2z ((hi <? r)%float || (r <? lo)%float)).
Proof.
  cbv zeta. intros H.
  assert (O : fst (script sk global mpl raw) = run sk global (clean raw))
    by apply figures_run.
  rewrite O in *. clear O.
  destruct (run_returns sk global (clean raw) H) as [_ [_ E]].
  pose proof (save_figures_prefix mpl
                (plots (final_frame (run sk global (clean raw)))
                       (three_sigma sk (clean raw)))) as P.
  unfold script. rewrite H. cbn [fst snd requested saved raised draw].
  revert P. unfold final_frame. rewrite E. cbn [snd df]. intros P.
  rewrite residual_at_end, res_flag_at_end.
  assert (F : residual_figure (frame_at_end sk global (clean raw))
                (three_sigma sk (clean raw))
              = mkFigure "output/TEY_residuals.png"
                  [HistPlot (residual sk (clean raw)) 60;
                   VLine (three_sigma_of (residual sk (clean raw)));
                   VLine (- three_sigma_of (residual sk (clean raw)))]).
  { unfold residual_figure. now rewrite residual_at_end. }
  rewrite <- F.
  assert (Q : In (residual_figure (frame_at_end sk global (clean raw))
                    (three_sigma sk (clean raw)))
                 (plots (frame_at_end sk global (clean raw))
                    (three_sigma sk (clean raw)))).
  { unfold plots.
    destruct (tit_figure (frame_at_end sk global (clean raw)));
      simpl; auto. }
  split; [exact Q|]. split; [|split].
  - intros g Hg Hp. unfold plots, tit_figure in Hg.
    destruct (has_column (frame_at_end sk global (clean raw)) "TIT");
      simpl in Hg.
    + destruct Hg as [<- | [<- | []]]; [discriminate Hp | reflexivity].
    + destruct Hg as [<- | []]. reflexivity.
  - intros N. rewrite N in P. now rewrite P.
  - intros i r Hr. unfold res_flag, res_flag_of, astype_int.
    rewrite !nth_error_map, Hr. simpl.
    now rewrite <- gtb_abs_split.
Qed.

(** X14, on the raw sample, drawn by the stand-in backend. *)
Lemma threshold_lines_are_the_decision_witness :
  let out := script Reference.api 0%Z reference_backend Samples.raw_file in
  let vals := float_column (final_frame (fst out)) "residual" in
  fst (fst out) = inr tt
  /\ vals = [-1.25; -0.25; 0.75; 0.75]%float
  /\ three_sigma_of vals = 0x1.6fa6ea162d0fp+1%float
  /\ raised (snd out) = None
  /\ map path (saved (snd out))
     = ["output/TIT_anomalies.png"; "output/TEY_residuals.png"]
  /\ In (mkFigure "output/TEY_residuals.png"
           [HistPlot vals 60; VLine (three_sigma_of vals);
            VLine (- three_sigma_of vals)])
        (requested (snd out)).
Proof.
  cbv zeta. do 5 (split; [reflexivity|]).
  exact (proj1 (threshold_lines_are_the_decision Reference.api 0%Z
                  reference_backend Samples.raw_file eq_refl)).
Defined.

(* ================================================================== *)
(** * What the result depends on *)

Module DependenceFacts.
Import Float64 Pandas Sklearn Script.
Import PandasFacts ScriptFacts.

Lemma has_column_by_getitem (d : DataFrame) (c : string) :
  has_column d c = match getitem d c with Some _ => true | None => false end.
Proof.
  unfold has_column, columns, getitem.
  induction (data d) as [|[k s] l IH]; simpl; [reflexivity|].
  destruct (String.eqb c k); [reflexivity | exact IH].
Qed.

Section SameInputs.
Context (d d' : DataFrame).
Hypothesis same_rows : nrows d = nrows d'.
Hypothesis same_inputs :
  forall c, In c candidate_cols \/ In c reg_candidates ->
            getitem d c = getitem d' c.

Lemma same_key_cols : key_cols d = key_cols d'.
Proof.
  unfold key_cols, present. apply filter_ext_in. intros c Hc.
  change (has_column d c = has_column d' c).
  now rewrite !has_column_by_getitem, same_inputs by (now left).
Qed.

Lemma same_reg_inputs : reg_inputs d = reg_inputs d'.
Proof.
  unfold reg_inputs, present. apply filter_ext_in. intros c Hc.
  change (has_column d c = has_column d' c).
  now rewrite !has_column_by_getitem, same_inputs by (now right).
Qed.

Lemma same_series (c : string) :
  In c candidate_cols \/ In c reg_candidates ->
  series_column d c = series_column d' c.
Proof. intros H. unfold series_column. now rewrite same_inputs. Qed.

Lemma same_key_block : block d (key_cols d) = block d' (key_cols d').
Proof.
  rewrite <- same_key_cols. unfold block. apply map_ext_in. intros c Hc.
  unfold float_column. rewrite same_series; [reflexivity|].
  left. now apply present_In in Hc.
Qed.

Lemma same_reg_block : block d (reg_inputs d) = block d' (reg_inputs d').
Proof.
  rewrite <- same_reg_inputs. unfold block. apply map_ext_in. intros c Hc.
  unfold float_column. rewrite same_series; [reflexivity|].
  right. now apply present_In in Hc.
Qed.

Lemma same_target : y d = y d'.
Proof.
  unfold y, float_column. rewrite same_series; [reflexivity|].
  left. simpl. tauto.
Qed.

Lemma same_guard : residual_inputs_ok d = residual_inputs_ok d'.
Proof.
  unfold residual_inputs_ok. rewrite same_reg_inputs.
  rewrite !(has_column_by_getitem _ "TEY"), same_inputs; [reflexivity|].
  left. simpl. tauto.
Qed.

End SameInputs.

Lemma derived_at_end (sk : Api) (g : Rng sk) (d : DataFrame) :
  getitem (frame_at_end sk g d) "z_flag" = Some (Ints (z_flag d))
  /\ getitem (frame_at_end sk g d) "iso_flag" = Some (Ints (iso_flag sk g d))
  /\ getitem (frame_at_end sk g d) "TEY_pred" = Some (Floats (TEY_pred sk d))
  /\ getitem (frame_at_end sk g d) "residual" = Some (Floats (residual sk d))
  /\ getitem (frame_at_end sk g d) "res_flag" = Some (Ints (res_flag sk d))
  /\ getitem (frame_at_end sk g d) "anomaly" = Some (Ints (anomaly sk g d)).
Proof.
  unfold frame_at_end, frame_after_density.
  repeat split;
    rewrite ?getitem_setitem_other by discriminate;
    apply getitem_setitem_same.
Qed.

End DependenceFacts.

Import DependenceFacts.

(** X15. From the raw file to the report: when the script completes on a
    table, every column of the report has exactly one entry per distinct
    record of the raw file (duplicates are dropped by line 35 before any
    statistic is taken, and nothing later adds or removes a row). *)
Theorem report_has_one_row_per_distinct_record (sk : Api) (global : Rng sk)
    (mpl : Backend) (raw : DataFrame) :
  tabular raw ->
  fst (fst (script sk global mpl raw)) = inr tt ->
  exists rep,
    In (ToCsv report_path rep) (effects (fst (script sk global mpl raw)))
    /\ forall c s,
         In (c, s) rep ->
         series_length s
         = List.length (first_occurrences [] (records raw))
         /\ (series_length s <= nrows raw)%nat.
Proof.
  intros [W _] H. rewrite figures_run in *.
  destruct (run_returns sk global (clean raw) H) as [K [G E]].
  destruct (run_returns_calls sk global (clean raw) H) as [D P].
  assert (Wc : well_formed (clean raw)).
  { unfold clean.
    now apply rename_well_formed, ffill_well_formed,
      drop_duplicates_well_formed. }
  destruct (clean_row_count raw W) as [N L].
  exists (report sk global (clean raw)). split.
  - unfold effects. rewrite E. cbn [snd trace].
    unfold effects_at_end. apply in_or_app. right. simpl. tauto.
  - intros c s Hin. apply report_from_frame in Hin.
    rewrite (getitem_length _ c s
               (frame_at_end_well_formed sk global (clean raw) Wc
                  (proj2 (proj1 (residual_inputs_ok_spec (clean raw)) G))
                  D P)
               Hin).
    change (nrows (frame_at_end sk global (clean raw)))
      with (nrows (clean raw)).
    split; [exact N | exact L].
Qed.

(** X15, on the raw sample: five raw records, four distinct. *)
Lemma report_has_one_row_per_distinct_record_witness :
  tabular Samples.raw_file
  /\ fst (fst (script Reference.api 0%Z reference_backend Samples.raw_file))
     = inr tt
  /\ List.length (first_occurrences [] (records Samples.raw_file)) = 4%nat
  /\ exists rep,
       In (ToCsv report_path rep)
          (effects (fst (script Reference.api 0%Z reference_backend
                           Samples.raw_file)))
       /\ forall c s,
            In (c, s) rep ->
            series_length s
            = List.length (first_occurrences [] (records Samples.raw_file))
            /\ (series_length s <= nrows Samples.raw_file)%nat.
Proof.
  assert (T : tabular Samples.raw_file)
    by (split; [repeat constructor | discriminate]).
  split; [exact T|]. split; [reflexivity|]. split; [reflexivity|].
  apply (report_has_one_row_per_distinct_record Reference.api 0%Z
           reference_backend Samples.raw_file T eq_refl).
Defined.

(** X16. Only the candidate sensor columns, the predictors and the row
    count reach the detectors: two frames with distinct column names and
    the same number of rows that agree on TIT, TAT, TEY, CDP, CO, NOx, AT,
    AP and RH end the same way, with the same assignments, calls and
    report, and get the same derived columns, whatever other columns they
    carry and in whatever column order.  The one thing that sees the other
    columns is the message of the first guard, which lists each frame's
    own column names. *)
Theorem other_columns_have_no_influence (sk : Api) (global : Rng sk)
    (d d' : DataFrame) :
  NoDup (columns d) -> NoDup (columns d') ->
  nrows d = nrows d' ->
  (forall c, In c candidate_cols \/ In c reg_candidates ->
             getitem d c = getitem d' c) ->
  (key_cols d <> [] -> fst (run sk global d) = fst (run sk global d'))
  /\ (key_cols d = [] ->
      fst (run sk global d) = inl (ValueError (NoSensorColumns (columns d)))
      /\ fst (run sk global d')
         = inl (ValueError (NoSensorColumns (columns d'))))
  /\ key_cols d = key_cols d'
  /\ effects (run sk global d) = effects (run sk global d')
  /\ z_flag d = z_flag d'
  /\ density sk global d = density sk global d'
  /\ regression sk d = regression sk d'
  /\ report sk global d = report sk global d'
  /\ (key_cols d <> [] ->
      getitem (final_frame (run sk global d)) "z_flag"
      = getitem (final_frame (run sk global d')) "z_flag")
  /\ (fst (run sk global d) = inr tt ->
      forall c, In c derived_cols ->
        getitem (final_frame (run sk global d)) c
        = getitem (final_frame (run sk global d')) c).
Proof.
  intros _ _ N S.
  pose proof (same_key_cols d d' S) as Ek.
  pose proof (same_key_block d d' S) as Eb.
  pose proof (same_reg_block d d' S) as Er.
  pose proof (same_target d d' S) as Ey.
  pose proof (same_guard d d' S) as Eg.
  assert (Ez : z_flag d = z_flag d')
    by (unfold z_flag, z_scores; now rewrite N, Eb).
  assert (Ed : density sk global d = density sk global d')
    by (unfold density, key_rows; now rewrite N, Eb).
  assert (Ei : iso_flag sk global d = iso_flag sk global d')
    by (unfold iso_flag; now rewrite Ed).
  assert (Ex : X d = X d') by (unfold X; now rewrite N, Er).
  assert (Eg' : regression sk d = regression sk d')
    by (unfold regression; now rewrite Ex, Ey).
  assert (Ep : TEY_pred sk d = TEY_pred sk d')
    by (unfold TEY_pred; now rewrite Eg').
  assert (Es : residual sk d = residual sk d')
    by (unfold residual; now rewrite Ep, Ey).
  assert (Ef : res_flag sk d = res_flag sk d')
    by (unfold res_flag, three_sigma; now rewrite Es).
  assert (Ea : anomaly sk global d = anomaly sk global d')
    by (unfold anomaly; now rewrite Ez, Ei, Ef).
  assert (Erep : report sk global d = report sk global d').
  { unfold report. rewrite Ea, Ez, Ei, Ef, Ep, Es, <- Ek.
    f_equal. f_equal. unfold frame_block. apply map_ext_in.
    intros c Hc. rewrite (same_series d d' S c); [reflexivity|].
    left. now apply present_In in Hc. }
  assert (Ee : effects_after_density sk global d
               = effects_after_density sk global d')
    by (unfold effects_after_density; now rewrite Ez, Ei).
  assert (Both :
    (key_cols d <> [] -> fst (run sk global d) = fst (run sk global d'))
    /\ effects (run sk global d) = effects (run sk global d')
    /\ (key_cols d <> [] ->
        getitem (final_frame (run sk global d)) "z_flag"
        = getitem (final_frame (run sk global d')) "z_flag")
    /\ (fst (run sk global d) = inr tt ->
        forall c, In c derived_cols ->
          getitem (final_frame (run sk global d)) c
          = getitem (final_frame (run sk global d')) c)).
  { unfold effects, final_frame.
    destruct (run_cases sk global d)
      as [[K E] | [[K [c0 [e0 [D E]]]] | [[K [G [[fl D] E]]]
          | [[K [G [[fl D] [c0 [e0 [R E]]]]]]
            | [K [G [[fl D] [[p R] E]]]]]]]];
      rewrite E.
    - rewrite (run_no_sensor sk global d') by congruence.
      split; [intros K0; contradiction|]. split; [reflexivity|].
      split; [intros K0; contradiction | discriminate].
    - rewrite (run_density_raises sk global d' c0 e0) by congruence.
      cbn [fst snd df trace]. split; [reflexivity|].
      split; [now rewrite Ez|]. split; [|discriminate].
      intros _. unfold frame_after_zscore.
      now rewrite !getitem_setitem_same, Ez.
    - rewrite (run_residual_guard sk global d' fl) by congruence.
      cbn [fst snd df trace]. split; [reflexivity|].
      split; [exact Ee|]. split; [|discriminate].
      intros _. unfold frame_after_density.
      rewrite !(getitem_setitem_other _ "iso_flag" "z_flag") by discriminate.
      now rewrite !getitem_setitem_same, Ez.
    - rewrite (run_regression_raises sk global d' fl c0 e0) by congruence.
      cbn [fst snd df trace]. split; [reflexivity|].
      split; [now rewrite Ee|]. split; [|discriminate].
      intros _. unfold frame_after_density.
      rewrite !(getitem_setitem_other _ "iso_flag" "z_flag") by discriminate.
      now rewrite !getitem_setitem_same, Ez.
    - rewrite (run_complete sk global d' fl p) by congruence.
      cbn [fst snd df trace]. split; [reflexivity|].
      split; [unfold effects_at_end; now rewrite Ee, Ep, Es, Ef, Ea, Erep|].
      destruct (derived_at_end sk global d) as (A1 & A2 & A3 & A4 & A5 & A6).
      destruct (derived_at_end sk global d')
        as (B1 & B2 & B3 & B4 & B5 & B6).
      split; [intros _; congruence|].
      intros _ c Hc. unfold derived_cols in Hc.
      destruct Hc as [<- | [<- | [<- | [<- | [<- | [<- | []]]]]]];
        congruence. }
  destruct Both as [Out [Eff [Zc Dc]]].
  assert (Stop : key_cols d = [] ->
      fst (run sk global d) = inl (ValueError (NoSensorColumns (columns d)))
      /\ fst (run sk global d')
         = inl (ValueError (NoSensorColumns (columns d')))).
  { intros K0. rewrite (run_no_sensor sk global d K0).
    rewrite (run_no_sensor sk global d') by congruence. now split. }
  repeat (split; [assumption|]). exact Dc.
Qed.

(** X16, on two layouts of the same four records. *)
Lemma other_columns_have_no_influence_witness :
  NoDup (columns Samples.raw_scale)
  /\ NoDup (columns Samples.raw_scale_annotated)
  /\ nrows Samples.raw_scale = nrows Samples.raw_scale_annotated
  /\ (forall c, In c candidate_cols \/ In c reg_candidates ->
        getitem Samples.raw_scale c = getitem Samples.raw_scale_annotated c)
  /\ columns Samples.raw_scale_annotated
     = ["shift"; "AP"; "TEY"; "AFDP"; "AT"; "TIT"]
  /\ fst (run Reference.api 0%Z Samples.raw_scale) = inr tt
  /\ effects (run Reference.api 0%Z Samples.raw_scale)
     = effects (run Reference.api 0%Z Samples.raw_scale_annotated).
Proof.
  assert (N : NoDup (columns Samples.raw_scale)) by distinct_names.
  assert (N' : NoDup (columns Samples.raw_scale_annotated))
    by distinct_names.
  assert (S : forall c, In c candidate_cols \/ In c reg_candidates ->
            getitem Samples.raw_scale c
            = getitem Samples.raw_scale_annotated c).
  { intros c [H | H]; simpl in H;
      repeat (destruct H as [<- | H]; [reflexivity|]); contradiction. }
  split; [exact N|]. split; [exact N'|].
  split; [reflexivity|]. split; [exact S|].
  split; [reflexivity|]. split; [reflexivity|].
  apply (other_columns_have_no_influence Reference.api 0%Z
           Samples.raw_scale Samples.raw_scale_annotated N N' eq_refl S).
Defined.
